(** * Automancy: the text-to-automation converter, embedded and verified

    The development follows the TypeScript sources:
    - [JS]: the fragment of the host language the converter relies on
      (strings, numbers, object literals, exceptions, the random source
      and the clock);
    - [RegExp]: a backtracking matcher for the regular expressions the
      sources write down;
    - [PatternMatcher], [TextAnalyzer]: src/parser;
    - [EffectGenerator], [RuleEngine]: the base synthesis engine;
    - [ComplexAbilityParser], [Phase2Converter]: the enhancement pipeline.

    The texts a conversion reads are sequences of code units below 256
    (Latin-1); what it writes may leave that range through [toUpperCase]
    and is a sequence of code units ([Text]).  Numbers are doubles: the
    integers among them, the infinities and NaN. *)

From Stdlib Require Import ZArith QArith Ascii String DecimalString Sorted.
From stdpp Require Import base option list strings gmap.

Set Warnings "-register-all".

Local Open Scope string_scope.
Local Open Scope Z_scope.
Local Open Scope nat_scope.
Local Open Scope list_scope.

(* ===================================================================== *)
(** ** The host language *)
(* ===================================================================== *)

Module JS.

(** A thrown value: an [Error] object carrying a message, or any other
    value, kept through its [String(...)] rendering. *)
Inductive Thrown :=
| ErrorObj (message : string)
| OtherValue (rendering : string).

(** The outcome of evaluating code that may throw. *)
Inductive Exn (A : Type) :=
| Ok (a : A)
| Throw (e : Thrown).
Arguments Ok {A} a.
Arguments Throw {A} e.

Definition bindE {A B} (m : Exn A) (k : A → Exn B) : Exn B :=
  match m with
  | Ok a => k a
  | Throw e => Throw e
  end.

(** [try { body } catch (e) { handler e }] *)
Definition tryCatch {A} (body : Exn A) (handler : Thrown → Exn A) : Exn A :=
  match body with
  | Ok a => Ok a
  | Throw e => handler e
  end.

(** [try { return onValue(body) } catch (e) { return onError(e) }] *)
Definition tryCatchValue {A B} (body : Exn A) (onValue : A → B) (onError : Thrown → B) : B :=
  match body with
  | Ok a => onValue a
  | Throw e => onError e
  end.

(** [error instanceof Error ? error.message : String(error)] *)
Definition errorText (e : Thrown) : string :=
  match e with
  | ErrorObj m => m
  | OtherValue s => s
  end.

(** Reading a property or calling a method on [undefined] throws. *)
Definition defined {A} (what : string) (o : option A) : Exn A :=
  match o with
  | Some a => Ok a
  | None => Throw (ErrorObj ("Cannot read properties of undefined (reading '" +:+ what +:+ "')"))
  end.

(** *** Characters *)

Definition code (c : ascii) : nat := nat_of_ascii c.

Definition between (lo hi : nat) (c : ascii) : bool :=
  (lo <=? code c) && (code c <=? hi).

Definition isDigit (c : ascii) : bool := between 48 57 c.
Definition isUpper (c : ascii) : bool := between 65 90 c.
Definition isLower (c : ascii) : bool := between 97 122 c.

(** [\w] *)
Definition isWordChar (c : ascii) : bool :=
  isDigit c || isUpper c || isLower c || (code c =? 95).

(** [\s] on code units below 256: TAB, LF, VT, FF, CR, space, NBSP. *)
Definition isSpace (c : ascii) : bool :=
  between 9 13 c || (code c =? 32) || (code c =? 160).

Definition isLineTerminator (c : ascii) : bool :=
  (code c =? 10) || (code c =? 13).

(** Upper-case Latin-1 letters other than the multiplication sign. *)
Definition isUpperLatin (c : ascii) : bool :=
  between 192 222 c && negb (code c =? 215).
Definition isLowerLatin (c : ascii) : bool :=
  between 224 254 c && negb (code c =? 247).

Definition lowerChar (c : ascii) : ascii :=
  if isUpper c || isUpperLatin c then ascii_of_nat (code c + 32) else c.

(** A code unit of a string the conversion writes. *)
Definition codeUnit (c : ascii) : N := N.of_nat (code c).

(** The upper case of a character: a letter of Latin-1 where there is
    one; [SS] for the sharp s; the capitals U+039C and U+0178, outside
    Latin-1, for the micro sign and the y with diaeresis. *)
Definition upperUnits (c : ascii) : list N :=
  if isLower c then [N.of_nat (code c - 32)]
  else if code c =? 223 then [83; 83]%N
  else if code c =? 181 then [924]%N
  else if code c =? 255 then [376]%N
  else if isLowerLatin c then [N.of_nat (code c - 32)]
  else [codeUnit c].

(** *** Strings *)

Definition chars (s : string) : list ascii := list_ascii_of_string s.
Definition str (l : list ascii) : string := string_of_list_ascii l.

(** A string the conversion writes. *)
Definition Text : Type := list N.

(** A Latin-1 string as written text. *)
Definition wide (s : string) : Text := codeUnit <$> chars s.
Coercion wide : string >-> Text.

Definition toLowerCase (s : string) : string := str (lowerChar <$> chars s).
Definition toUpperCase (s : string) : Text := c ← chars s; upperUnits c.

(** [parts.join(sep)] on written text. *)
Fixpoint joinText (sep : Text) (parts : list Text) : Text :=
  match parts with
  | [] => []
  | [p] => p
  | p :: ps => p ++ sep ++ joinText sep ps
  end.

(** [s.charAt(i)]: the empty string out of range. *)
Definition charAt (s : string) (i : nat) : string :=
  match String.get i s with
  | Some c => String c EmptyString
  | None => ""
  end.

(** [s.replace(/\s+/g, '')] *)
Definition removeWhitespace (s : string) : string :=
  str (filter (λ c, isSpace c = false) (chars s)).

Fixpoint isPrefix (p l : list ascii) : bool :=
  match p, l with
  | [], _ => true
  | a :: p', b :: l' => Ascii.eqb a b && isPrefix p' l'
  | _ :: _, [] => false
  end.

Fixpoint includesFrom (p l : list ascii) : bool :=
  isPrefix p l ||
  match l with
  | [] => false
  | _ :: l' => includesFrom p l'
  end.

(** [s.includes(p)] *)
Definition includes (s p : string) : bool := includesFrom (chars p) (chars s).

(** [s.slice(0, n)] *)
Definition sliceTo (n : nat) (s : string) : string := str (take n (chars s)).

(** [s.trim()] *)
Definition trim (s : string) : string :=
  let dropSpaces := fix go (l : list ascii) :=
    match l with
    | c :: l' => if isSpace c then go l' else l
    | [] => []
    end in
  str (reverse (dropSpaces (reverse (dropSpaces (chars s))))).

(** [s.split(sep)] for a one-character separator. *)
Fixpoint splitOn (sep : ascii) (cur : list ascii) (l : list ascii) : list string :=
  match l with
  | [] => [str (reverse cur)]
  | c :: l' =>
      if Ascii.eqb c sep then str (reverse cur) :: splitOn sep [] l'
      else splitOn sep (c :: cur) l'
  end.
Definition split (s : string) (sep : ascii) : list string := splitOn sep [] (chars s).

(** A string between double quotes. *)
Definition quoted (s : string) : string :=
  String (ascii_of_nat 34) s +:+ String (ascii_of_nat 34) EmptyString.

(** [parts.join(sep)] *)
Fixpoint join (sep : string) (parts : list string) : string :=
  match parts with
  | [] => ""
  | [p] => p
  | p :: ps => p +:+ sep +:+ join sep ps
  end.

(** [s.replace(/\s+/g, sub)]: every run of whitespace becomes [sub]. *)
Fixpoint replaceRuns (sub : list ascii) (inRun : bool) (l : list ascii) : list ascii :=
  match l with
  | [] => []
  | c :: l' =>
      if isSpace c then
        if inRun then replaceRuns sub true l' else sub ++ replaceRuns sub true l'
      else c :: replaceRuns sub false l'
  end.
Definition replaceWhitespace (sub s : string) : string :=
  str (replaceRuns (chars sub) false (chars s)).

(** [s.startsWith(p)] *)
Definition startsWith (s p : string) : bool := isPrefix (chars p) (chars s).

(** [s.substring(n)] *)
Definition substringFrom (n : nat) (s : string) : string := str (drop n (chars s)).

(** *** Numbers *)

(** A number as the converter meets it: the double that equals the integer
    [z], an infinity, or NaN. *)
Inductive number :=
| Int (z : Z)
| Infinity
| NegInfinity
| NaN.

#[global] Instance number_eq_dec : EqDecision number.
Proof. solve_decision. Defined.

(** The double nearest to the natural number [z], ties to the even
    mantissa; [None] when that is beyond the largest double. *)
Definition nearestDouble (z : Z) : option Z :=
  if (z <? 2 ^ 53)%Z then Some z
  else
    let shift := (Z.log2 z - 52)%Z in
    let q := Z.shiftr z shift in
    let r := Z.land z (Z.ones shift) in
    let half := Z.shiftl 1 (shift - 1) in
    let q := if (half <? r)%Z || ((r =? half)%Z && Z.odd q) then (q + 1)%Z else q in
    let rounded := Z.shiftl q shift in
    if (rounded <? 2 ^ 1024)%Z then Some rounded else None.

(** The Number value for the integer [z]. *)
Definition roundDouble (z : Z) : number :=
  match nearestDouble (Z.abs z) with
  | Some m => Int (Z.sgn z * m)
  | None => if (z <? 0)%Z then NegInfinity else Infinity
  end.

(** [n * k] for an integer constant [k] other than 0. *)
Definition times (n : number) (k : Z) : number :=
  match n with
  | Int z => roundDouble (z * k)
  | Infinity => if (k <? 0)%Z then NegInfinity else Infinity
  | NegInfinity => if (k <? 0)%Z then Infinity else NegInfinity
  | NaN => NaN
  end.

(** [n > k] for an integer constant [k]. *)
Definition greater (n : number) (k : Z) : bool :=
  match n with
  | Int z => (k <? z)%Z
  | Infinity => true
  | NegInfinity | NaN => false
  end.

(** A number in a condition: 0 and NaN count as false. *)
Definition truthy (n : number) : bool :=
  match n with
  | Int z => negb (z =? 0)%Z
  | Infinity | NegInfinity => true
  | NaN => false
  end.

Definition digitValue (c : ascii) : Z := Z.of_nat (code c - 48).

(** The value of a hexadecimal digit. *)
Definition hexValue (c : ascii) : option Z :=
  if isDigit c then Some (digitValue c)
  else if between 97 102 c then Some (Z.of_nat (code c - 87))
  else if between 65 70 c then Some (Z.of_nat (code c - 55))
  else None.

(** The value of the longest prefix of digits in base [radix], if there
    is a digit. *)
Fixpoint leadingDigits (radix : Z) (acc : option Z) (l : list ascii) : option Z :=
  match l with
  | c :: l' =>
      match hexValue c with
      | Some v =>
          if (v <? radix)%Z
          then leadingDigits radix (Some (radix * default 0%Z acc + v)%Z) l'
          else acc
      | None => acc
      end
  | [] => acc
  end.

Fixpoint dropLeadingSpaces (l : list ascii) : list ascii :=
  match l with
  | c :: l' => if isSpace c then dropLeadingSpaces l' else l
  | [] => []
  end.

(** [parseInt(s)]: leading whitespace, a sign, [0x] for base 16, then the
    digits; NaN without a digit.  The value is rounded to a double as V8
    does, to the nearest. *)
Definition parseInt (s : string) : number :=
  let l := dropLeadingSpaces (chars s) in
  let '(negative, l) :=
    match l with
    | "-"%char :: l' => (true, l')
    | "+"%char :: l' => (false, l')
    | _ => (false, l)
    end in
  let '(radix, l) :=
    match l with
    | "0"%char :: "x"%char :: l' | "0"%char :: "X"%char :: l' => (16%Z, l')
    | _ => (10%Z, l)
    end in
  match leadingDigits radix None l with
  | Some v => roundDouble (if negative then (- v)%Z else v)
  | None => NaN
  end.

(** The decimal digits of an integer. *)
Definition digitsOf (z : Z) : string := NilZero.string_of_int (Z.to_int z).

(** The number of decimal digits of a positive integer. *)
Definition digitCount (z : Z) : Z := Z.of_nat (String.length (digitsOf z)).

(** The ways to write the double [z], of at least [2^53], with [k] digits:
    the pairs [(s, n)] with [10^(k-1) <= s < 10^k] such that [s * 10^(n-k)]
    rounds to [z]. *)
Definition candidates (z k : Z) : list (Z * Z) :=
  let shift := (Z.log2 z - 52)%Z in
  let mantissa := Z.shiftr z shift in
  let ulp := Z.shiftl 1 shift in
  let below := if (mantissa =? 2 ^ 52)%Z then Z.shiftr ulp 1 else ulp in
  let lo := (2 * z - below)%Z in
  let hi := (2 * z + ulp)%Z in
  let closed := Z.even mantissa in
  let fits (v : Z) :=
    if closed then (lo <=? 2 * v)%Z && (2 * v <=? hi)%Z
    else (lo <? 2 * v)%Z && (2 * v <? hi)%Z in
  let d := digitCount z in
  n ← [d; (d + 1)%Z];
  if (n <? k)%Z then []
  else
    let p := (10 ^ (n - k))%Z in
    s ← [(z / p)%Z; (z / p + 1)%Z];
    if (10 ^ (k - 1) <=? s)%Z && (s <? 10 ^ k)%Z && fits (s * p)%Z then [(s, n)] else [].

(** The nearest of them, the even one of two that are as near. *)
Definition nearest (z k : Z) (cs : list (Z * Z)) : option (Z * Z) :=
  let distance (c : Z * Z) := Z.abs (fst c * 10 ^ (snd c - k) - z) in
  foldl (λ best c,
           match best with
           | None => Some c
           | Some b =>
               if (distance c <? distance b)%Z then Some c
               else if (distance c =? distance b)%Z && Z.even (fst c) && Z.odd (fst b)
               then Some c else best
           end) None cs.

(** The fewest digits that do, from [k] digits on. *)
Fixpoint shortest (fuel : nat) (z k : Z) : Z * Z :=
  match nearest z k (candidates z k) with
  | Some c => c
  | None =>
      match fuel with
      | O => (z, digitCount z)
      | S fuel' => shortest fuel' z (k + 1)
      end
  end.

(** [String(z)] for a positive double: its digits below [2^53]; beyond,
    the fewest digits that round to it, followed by zeros up to 21 digits
    and by an exponent after that. *)
Definition positiveToString (z : Z) : string :=
  if (z <? 2 ^ 53)%Z then digitsOf z
  else
    let '(s, n) := shortest 17 z 1 in
    let digits := digitsOf s in
    let k := Z.of_nat (String.length digits) in
    if (n <=? 21)%Z then digits +:+ str (replicate (Z.to_nat (n - k)) "0"%char)
    else
      match digits with
      | String c EmptyString => String c "" +:+ "e+" +:+ digitsOf (n - 1)
      | String c rest => String c "" +:+ "." +:+ rest +:+ "e+" +:+ digitsOf (n - 1)
      | EmptyString => ""
      end.

(** [String(n)] *)
Definition numberToString (n : number) : string :=
  match n with
  | Int z =>
      match roundDouble z with
      | Int 0 => "0"
      | Int (Zpos p) => positiveToString (Zpos p)
      | Int (Zneg p) => "-" +:+ positiveToString (Zpos p)
      | Infinity => "Infinity"
      | NegInfinity => "-Infinity"
      | NaN => "NaN"
      end
  | Infinity => "Infinity"
  | NegInfinity => "-Infinity"
  | NaN => "NaN"
  end.

(** *** Object literals *)

(** What [map[key]] reads off an object literal whose fields hold strings:
    an own field, or what every object inherits from [Object.prototype],
    a built-in function or, under [__proto__], the prototype itself. *)
Inductive Property :=
| Own (value : string)
| Builtin (name : string)
| Prototype.

#[global] Instance Property_eq_dec : EqDecision Property.
Proof. solve_decision. Defined.

Definition inherited (key : string) : option Property :=
  if bool_decide (key = "constructor") then Some (Builtin "Object")
  else if bool_decide (key = "__proto__") then Some Prototype
  else if bool_decide
            (key ∈ [ "__defineGetter__"; "__defineSetter__"; "hasOwnProperty";
                     "__lookupGetter__"; "__lookupSetter__"; "isPrototypeOf";
                     "propertyIsEnumerable"; "toString"; "valueOf"; "toLocaleString" ])
  then Some (Builtin key)
  else None.

(** [map[key] || undefined]: an own field that holds the empty string
    counts as absent. *)
Definition read (map : list (string * string)) (key : string) : option Property :=
  match list_find (λ kv, fst kv = key) map with
  | Some (_, (_, value)) => if bool_decide (value = "") then None else Some (Own value)
  | None => inherited key
  end.

(** [String(p)], as in a template string or a property key. *)
Definition propertyText (p : Property) : string :=
  match p with
  | Own value => value
  | Builtin name => "function " +:+ name +:+ "() { [native code] }"
  | Prototype => "[object Object]"
  end.

(** *** The random source and the clock *)

(** What a conversion reads from its environment: the values that
    successive calls of [Math.random()] produce, how many were consumed,
    and the reading of [new Date().toISOString()]. *)
Record World := mkWorld {
  draws : nat → nat;
  consumed : nat;
  isoTime : string
}.

(** [Math.floor(Math.random() * n)]: the next draw, which lies in [0, n). *)
Definition randomBelow (n : nat) (w : World) : nat * World :=
  ((draws w (consumed w)) `mod` n,
   mkWorld (draws w) (S (consumed w)) (isoTime w)).

(** Code that reads the environment. *)
Definition M (A : Type) : Type := World → A * World.
Definition ret {A} (a : A) : M A := λ w, (a, w).
Definition bind {A B} (m : M A) (k : A → M B) : M B :=
  λ w, let '(a, w') := m w in k a w'.

(** [xs.map(x => f(x))] for an [f] that reads the environment. *)
Fixpoint mapM {A B} (f : A → M B) (xs : list A) : M (list B) :=
  match xs with
  | [] => ret []
  | x :: xs' => bind (f x) (λ y, bind (mapM f xs') (λ ys, ret (y :: ys)))
  end.

End JS.

Import JS.

Notation "'let*' x ':=' m 'in' k" := (bind m (λ x, k))
  (at level 10, x name, m at level 100, k at level 200, only parsing).
Notation "'let?' x ':=' m 'in' k" := (bindE m (λ x, k))
  (at level 10, x name, m at level 100, k at level 200, only parsing).

(* ===================================================================== *)
(** ** Regular expressions *)
(* ===================================================================== *)

Module RegExp.

(** The syntax the sources use.  Quantifiers are greedy; [Group n] is the
    capturing group numbered [n], [(?:...)] needs no node. *)
Inductive node :=
| Eps
| Lit (s : string)                      (* literal text *)
| AnyChar                               (* .  *)
| Digit                                 (* \d *)
| WordChar                              (* \w *)
| Space                                 (* \s *)
| OneOf (cs : list ascii)               (* [abc]  *)
| NoneOf (cs : list ascii)              (* [^abc] *)
| WordB                                 (* \b *)
| Bol                                   (* ^  *)
| Seq (a b : node)
| Alt (a b : node)
| Star (a : node)                       (* a* *)
| Plus (a : node)                       (* a+ *)
| Opt (a : node)                        (* a? *)
| Group (n : nat) (a : node).

Record t := mk {
  re : node;
  ignoreCase : bool;                    (* flag i *)
  global : bool                         (* flag g *)
}.

(** The matcher's position in the subject: the character before it, the
    text ahead, the index, and the groups captured so far (latest first). *)
Record mstate := mkState {
  prev : option ascii;
  rest : list ascii;
  pos : nat;
  caps : list (nat * string)
}.

(** The canonical form under which two characters compare: with the flag
    [i] the upper case, when that is one code unit. *)
Definition canon (ic : bool) (c : ascii) : N :=
  if ic then
    match upperUnits c with
    | [u] => u
    | _ => codeUnit c
    end
  else codeUnit c.

(** Consume one character satisfying [p]. *)
Definition step (p : ascii → bool) (st : mstate) : list mstate :=
  match rest st with
  | c :: l => if p c then [mkState (Some c) l (S (pos st)) (caps st)] else []
  | [] => []
  end.

Fixpoint lit (ic : bool) (s : list ascii) (st : mstate) : list mstate :=
  match s with
  | [] => [st]
  | c :: s' =>
      st' ← step (λ x, N.eqb (canon ic x) (canon ic c)) st; lit ic s' st'
  end.

Definition isWordAt (o : option ascii) : bool :=
  match o with
  | Some c => isWordChar c
  | None => false
  end.

Definition member (ic : bool) (cs : list ascii) (x : ascii) : bool :=
  existsb (λ c, N.eqb (canon ic x) (canon ic c)) cs.

(** Greedy iteration: another round of [f] first, then stop; a round that
    consumes nothing is rejected. *)
Fixpoint star (f : mstate → list mstate) (fuel : nat) (st : mstate) : list mstate :=
  match fuel with
  | O => [st]
  | S k =>
      (st' ← f st; if pos st' =? pos st then [] else star f k st') ++ [st]
  end.

(** All the ways [r] matches at [st], in the order backtracking tries them. *)
Fixpoint ms (ic : bool) (r : node) (st : mstate) : list mstate :=
  match r with
  | Eps => [st]
  | Lit s => lit ic (chars s) st
  | AnyChar => step (λ x, negb (isLineTerminator x)) st
  | Digit => step isDigit st
  | WordChar => step isWordChar st
  | Space => step isSpace st
  | OneOf cs => step (member ic cs) st
  | NoneOf cs => step (λ x, negb (member ic cs x)) st
  | WordB =>
      if xorb (isWordAt (prev st)) (isWordAt (head (rest st))) then [st] else []
  | Bol => if pos st =? 0 then [st] else []
  | Seq a b => st' ← ms ic a st; ms ic b st'
  | Alt a b => ms ic a st ++ ms ic b st
  | Star a => star (ms ic a) (S (length (rest st))) st
  | Plus a => st' ← ms ic a st; star (ms ic a) (S (length (rest st'))) st'
  | Opt a => ms ic a st ++ [st]
  | Group n a =>
      (λ st', mkState (prev st') (rest st') (pos st')
                ((n, str (take (pos st' - pos st) (rest st))) :: caps st'))
      <$> ms ic a st
  end.

Fixpoint groupCount (r : node) : nat :=
  match r with
  | Seq a b | Alt a b => groupCount a `max` groupCount b
  | Star a | Plus a | Opt a => groupCount a
  | Group n a => n `max` groupCount a
  | _ => 0
  end.

(** The result of a successful [exec]: [m[0]], [m[1]], ... and [m.index].
    A group that took no part in the match is [undefined]. *)
Record Match := mkMatch {
  groups : list (option string);
  index : nat
}.

Definition group (m : Match) (k : nat) : option string := mjoin (groups m !! k).

(** [m[0]] *)
Definition matched (m : Match) : string := default "" (group m 0).

Definition capture (cs : list (nat * string)) (k : nat) : option string :=
  snd <$> list_find (λ p, fst p = k) cs ≫= (λ p, Some (snd p)).

Definition matchAt (r : t) (st : mstate) : option Match :=
  match ms (ignoreCase r) (re r) st with
  | st' :: _ =>
      Some (mkMatch
              (Some (str (take (pos st' - pos st) (rest st)))
                 :: (capture (caps st') <$> seq 1 (groupCount (re r))))
              (pos st))
  | [] => None
  end.

(** Leftmost match at or after the matcher's position. *)
Fixpoint scan (r : t) (p : option ascii) (l : list ascii) (i : nat) : option Match :=
  match matchAt r (mkState p l i []) with
  | Some m => Some m
  | None =>
      match l with
      | [] => None
      | c :: l' => scan r (Some c) l' (S i)
      end
  end.

(** Leftmost match that starts at index [from] or later. *)
Fixpoint search (r : t) (p : option ascii) (l : list ascii) (i from : nat) {struct from}
  : option Match :=
  match from with
  | O => scan r p l i
  | S from' =>
      match l with
      | [] => None
      | c :: l' => search r (Some c) l' (S i) from'
      end
  end.

(** [regex.exec(text)] with [regex.lastIndex = lastIndex]: only a global
    expression starts from [lastIndex]. *)
Definition exec (r : t) (text : string) (lastIndex : nat) : option Match :=
  search r None (chars text) 0 (if global r then lastIndex else 0).

(** [lastIndex] after a successful [exec] of a global expression. *)
Definition endIndex (m : Match) : nat := index m + String.length (matched m).

(** [regex.test(text)] and [text.match(regex)] for an expression without
    the global flag. *)
Definition test (r : t) (text : string) : bool := bool_decide (is_Some (exec r text 0)).
Definition firstMatch (r : t) (text : string) : option Match := exec r text 0.

End RegExp.

Notation "a ⋅⋅ b" := (RegExp.Seq a b) (at level 61, left associativity, only parsing).

(* ===================================================================== *)
(** ** src/parser/pattern-matcher.ts *)
(* ===================================================================== *)

Module PatternMatcher.

Import RegExp.

(** What the registered extractors build from a match.  Each constructor
    is one shape of object literal, its arguments the fields in order. *)
Inductive Extracted :=
| Attack (type : string) (bonus : number)
| DamageAverage (average : number) (formula type : string)
| Damage (formula type : string)
| Save (dc : number) (ability : string)
| Duration (value : option number) (units : string) (concentration : option bool)
| Range (value : option number) (long : option number) (units : string)
| Area (type : string) (value : number)
| Activation (type : string) (cost : Z)
| Advantage (type target : string)
| Resistance (type : string) (damageTypes : list string)
| Uses (type : string) (amount : number) (restType : option string)
| Recharge (type : string) (min max : number).

(** An entry of the result map: [{...extracted, matchText, index}]. *)
Record Matched := mkMatched {
  extracted : Extracted;
  matchText : string;
  index : nat
}.

Record ParsingPattern := mkPattern {
  name : string;
  regex : RegExp.t;
  extractor : RegExp.Match → Exn Extracted;
  priority : Z
}.

(** [match[k]], on which the extractor goes on to call a method. *)
Definition grp (m : RegExp.Match) (k : nat) : Exn string :=
  defined "method" (group m k).

(** [match[1].split(/,\s*/)] *)
Fixpoint splitCommaSpaces (skipping : bool) (cur : list ascii) (l : list ascii) : list string :=
  match l with
  | [] => [str (reverse cur)]
  | c :: l' =>
      if skipping && isSpace c then splitCommaSpaces true cur l'
      else if Ascii.eqb c "," then str (reverse cur) :: splitCommaSpaces true [] l'
      else splitCommaSpaces false (c :: cur) l'
  end.
Definition splitList (s : string) : list string := splitCommaSpaces false [] (chars s).

(** [\d+d\d+(?:\s*[\+\-]\s*\d+)?] *)
Definition diceFormula : node :=
  Plus Digit ⋅⋅ Lit "d" ⋅⋅ Plus Digit
  ⋅⋅ Opt (Star Space ⋅⋅ OneOf ["+"; "-"]%char ⋅⋅ Star Space ⋅⋅ Plus Digit).

Definition attackExtractor (melee ranged : string) (m : RegExp.Match) : Exn Extracted :=
  Ok (Attack (if includes (toLowerCase (matched m)) "melee" then melee else ranged)
             (parseInt (default "" (group m 1)))).

(** [/(?:Melee|Ranged) Weapon Attack: \+(\d+) to hit/i] *)
Definition weapon_attack : ParsingPattern :=
  mkPattern "weapon_attack"
    (mk (Alt (Lit "Melee") (Lit "Ranged") ⋅⋅ Lit " Weapon Attack: +"
         ⋅⋅ Group 1 (Plus Digit) ⋅⋅ Lit " to hit") true false)
    (attackExtractor "mwak" "rwak") 100.

(** [/(?:Melee|Ranged) Spell Attack: \+(\d+) to hit/i] *)
Definition spell_attack : ParsingPattern :=
  mkPattern "spell_attack"
    (mk (Alt (Lit "Melee") (Lit "Ranged") ⋅⋅ Lit " Spell Attack: +"
         ⋅⋅ Group 1 (Plus Digit) ⋅⋅ Lit " to hit") true false)
    (attackExtractor "msak" "rsak") 100.

(** [/(\d+) \((\d+d\d+(?:\s*[\+\-]\s*\d+)?)\) (\w+) damage/gi] *)
Definition damage_with_average : ParsingPattern :=
  mkPattern "damage_with_average"
    (mk (Group 1 (Plus Digit) ⋅⋅ Lit " (" ⋅⋅ Group 2 diceFormula ⋅⋅ Lit ") "
         ⋅⋅ Group 3 (Plus WordChar) ⋅⋅ Lit " damage") true true)
    (λ m,
       let? formula := grp m 2 in
       let? type := grp m 3 in
       Ok (DamageAverage (parseInt (default "" (group m 1)))
             (removeWhitespace formula) (toLowerCase type)))
    90.

(** [/(\d+d\d+(?:\s*[\+\-]\s*\d+)?)\s+(\w+)\s+damage/gi] *)
Definition damage_simple : ParsingPattern :=
  mkPattern "damage_simple"
    (mk (Group 1 diceFormula ⋅⋅ Plus Space ⋅⋅ Group 2 (Plus WordChar)
         ⋅⋅ Plus Space ⋅⋅ Lit "damage") true true)
    (λ m,
       let? formula := grp m 1 in
       let? type := grp m 2 in
       Ok (Damage (removeWhitespace formula) (toLowerCase type)))
    85.

(** [/DC (\d+) (\w+) (?:saving throw|save)/gi] *)
Definition save_dc : ParsingPattern :=
  mkPattern "save_dc"
    (mk (Lit "DC " ⋅⋅ Group 1 (Plus Digit) ⋅⋅ Lit " " ⋅⋅ Group 2 (Plus WordChar)
         ⋅⋅ Lit " " ⋅⋅ Alt (Lit "saving throw") (Lit "save")) true true)
    (λ m,
       let? ability := grp m 2 in
       Ok (Save (parseInt (default "" (group m 1))) (sliceTo 3 (toLowerCase ability))))
    95.

(** [/(?:concentration,?\s+)?(?:up to\s+)?(\d+)\s+(minute|hour|day)s?/i] *)
Definition duration_concentration : ParsingPattern :=
  mkPattern "duration_concentration"
    (mk (Opt (Lit "concentration" ⋅⋅ Opt (Lit ",") ⋅⋅ Plus Space)
         ⋅⋅ Opt (Lit "up to" ⋅⋅ Plus Space)
         ⋅⋅ Group 1 (Plus Digit) ⋅⋅ Plus Space
         ⋅⋅ Group 2 (Alt (Lit "minute") (Alt (Lit "hour") (Lit "day")))
         ⋅⋅ Opt (Lit "s")) true false)
    (λ m,
       let? units := grp m 2 in
       Ok (Duration (Some (parseInt (default "" (group m 1)))) (toLowerCase units)
             (Some (includes (toLowerCase (matched m)) "concentration"))))
    80.

(** [/(?:for|lasts?)\s+(\d+)\s+rounds?/i] *)
Definition duration_rounds : ParsingPattern :=
  mkPattern "duration_rounds"
    (mk (Alt (Lit "for") (Lit "last" ⋅⋅ Opt (Lit "s")) ⋅⋅ Plus Space
         ⋅⋅ Group 1 (Plus Digit) ⋅⋅ Plus Space ⋅⋅ Lit "round" ⋅⋅ Opt (Lit "s"))
        true false)
    (λ m, Ok (Duration (Some (parseInt (default "" (group m 1)))) "round" None))
    85.

(** [/instantaneous/i] *)
Definition duration_instant : ParsingPattern :=
  mkPattern "duration_instant" (mk (Lit "instantaneous") true false)
    (λ _, Ok (Duration None "inst" None)) 90.

(** [/range (\d+)(?:\/(\d+))?\s*(?:foot|feet|ft\.?)/i] *)
Definition range_distance : ParsingPattern :=
  mkPattern "range_distance"
    (mk (Lit "range " ⋅⋅ Group 1 (Plus Digit)
         ⋅⋅ Opt (Lit "/" ⋅⋅ Group 2 (Plus Digit)) ⋅⋅ Star Space
         ⋅⋅ Alt (Lit "foot") (Alt (Lit "feet") (Lit "ft" ⋅⋅ Opt (Lit "."))))
        true false)
    (λ m,
       Ok (Range (Some (parseInt (default "" (group m 1))))
             (match group m 2 with
              | Some g => if bool_decide (g = "") then None else Some (parseInt g)
              | None => None
              end)
             "ft"))
    90.

(** [/\btouch\b/i] *)
Definition range_touch : ParsingPattern :=
  mkPattern "range_touch" (mk (WordB ⋅⋅ Lit "touch" ⋅⋅ WordB) true false)
    (λ _, Ok (Range None None "touch")) 95.

(** [/\bself\b/i] *)
Definition range_self : ParsingPattern :=
  mkPattern "range_self" (mk (WordB ⋅⋅ Lit "self" ⋅⋅ WordB) true false)
    (λ _, Ok (Range None None "self")) 95.

(** [/(\d+)(?:-|\s)(?:foot|ft\.?)\s+SHAPE/i] *)
Definition area (shape : string) : ParsingPattern :=
  mkPattern ("area_" +:+ shape)
    (mk (Group 1 (Plus Digit) ⋅⋅ Alt (Lit "-") Space
         ⋅⋅ Alt (Lit "foot") (Lit "ft" ⋅⋅ Opt (Lit ".")) ⋅⋅ Plus Space ⋅⋅ Lit shape)
        true false)
    (λ m, Ok (Area shape (parseInt (default "" (group m 1)))))
    85.

(** [/\b(?:1\s+)?action\b/i] *)
Definition activation_action : ParsingPattern :=
  mkPattern "activation_action"
    (mk (WordB ⋅⋅ Opt (Lit "1" ⋅⋅ Plus Space) ⋅⋅ Lit "action" ⋅⋅ WordB) true false)
    (λ _, Ok (Activation "action" 1)) 80.

(** [/\bbonus action\b/i] *)
Definition activation_bonus : ParsingPattern :=
  mkPattern "activation_bonus"
    (mk (WordB ⋅⋅ Lit "bonus action" ⋅⋅ WordB) true false)
    (λ _, Ok (Activation "bonus" 1)) 85.

(** [/\breaction\b/i] *)
Definition activation_reaction : ParsingPattern :=
  mkPattern "activation_reaction"
    (mk (WordB ⋅⋅ Lit "reaction" ⋅⋅ WordB) true false)
    (λ _, Ok (Activation "reaction" 1)) 85.

(** [/WORD on (?:attack rolls?|(?:(\w+)\s+)?(?:ability checks?|checks?|saving throws?|saves?))/i] *)
Definition advantageLike (word : string) : ParsingPattern :=
  mkPattern word
    (mk (Lit word ⋅⋅ Lit " on "
         ⋅⋅ Alt (Lit "attack roll" ⋅⋅ Opt (Lit "s"))
                (Opt (Group 1 (Plus WordChar) ⋅⋅ Plus Space)
                 ⋅⋅ Alt (Lit "ability check" ⋅⋅ Opt (Lit "s"))
                     (Alt (Lit "check" ⋅⋅ Opt (Lit "s"))
                        (Alt (Lit "saving throw" ⋅⋅ Opt (Lit "s"))
                           (Lit "save" ⋅⋅ Opt (Lit "s"))))))
        true false)
    (λ m,
       Ok (Advantage word
             (match group m 1 with
              | Some g => if bool_decide (g = "") then "all" else toLowerCase g
              | None => "all"
              end)))
    75.

(** [/(?:HEAD) to (TYPES) damage/i] with TYPES = [\w+(?:,\s*\w+)*];
    HEAD is [resistant?|resistance] or [immune|immunity]. *)
Definition resistanceLike (patternName kind : string) (head : node) : ParsingPattern :=
  mkPattern patternName
    (mk (head ⋅⋅ Lit " to "
         ⋅⋅ Group 1 (Plus WordChar ⋅⋅ Star (Lit "," ⋅⋅ Star Space ⋅⋅ Plus WordChar))
         ⋅⋅ Lit " damage") true false)
    (λ m,
       let? types := grp m 1 in
       Ok (Resistance kind (toLowerCase <$> splitList types)))
    70.

(** [/(\d+)\/day/i] *)
Definition uses_per_day : ParsingPattern :=
  mkPattern "uses_per_day"
    (mk (Group 1 (Plus Digit) ⋅⋅ Lit "/day") true false)
    (λ m, Ok (Uses "per_day" (parseInt (default "" (group m 1))) None)) 60.

(** [/(\d+)\/(short|long) rest/i] *)
Definition uses_per_rest : ParsingPattern :=
  mkPattern "uses_per_rest"
    (mk (Group 1 (Plus Digit) ⋅⋅ Lit "/" ⋅⋅ Group 2 (Alt (Lit "short") (Lit "long"))
         ⋅⋅ Lit " rest") true false)
    (λ m,
       let? rest := grp m 2 in
       Ok (Uses "per_rest" (parseInt (default "" (group m 1))) (Some (toLowerCase rest))))
    60.

(** [/(?:Recharge|recharges on) (\d+)(?:-(\d+))?/i] *)
Definition recharge : ParsingPattern :=
  mkPattern "recharge"
    (mk (Alt (Lit "Recharge") (Lit "recharges on") ⋅⋅ Lit " "
         ⋅⋅ Group 1 (Plus Digit) ⋅⋅ Opt (Lit "-" ⋅⋅ Group 2 (Plus Digit))) true false)
    (λ m,
       Ok (Recharge "recharge" (parseInt (default "" (group m 1)))
             (match group m 2 with
              | Some g => if bool_decide (g = "") then Int 6 else parseInt g
              | None => Int 6
              end)))
    65.

(** [this.patterns.set(pattern.name, pattern)]: a registered name keeps its
    place and takes the new pattern, a new name goes last. *)
Fixpoint addPattern (pattern : ParsingPattern) (patterns : list ParsingPattern)
  : list ParsingPattern :=
  match patterns with
  | [] => [pattern]
  | p :: ps =>
      if bool_decide (name p = name pattern) then pattern :: ps
      else p :: addPattern pattern ps
  end.

(** The patterns [initializePatterns] registers, in the order of the
    source. *)
Definition registered : list ParsingPattern :=
  [ weapon_attack; spell_attack; damage_with_average; damage_simple; save_dc;
    duration_concentration; duration_rounds; duration_instant;
    range_distance; range_touch; range_self;
    area "radius"; area "cone"; area "line";
    activation_action; activation_bonus; activation_reaction;
    advantageLike "advantage"; advantageLike "disadvantage";
    resistanceLike "damage_resistance" "resistance"
      (Alt (Lit "resistan" ⋅⋅ Opt (Lit "t")) (Lit "resistance"));
    resistanceLike "damage_immunity" "immunity"
      (Alt (Lit "immune") (Lit "immunity"));
    uses_per_day; uses_per_rest; recharge ].

Definition initializePatterns : list ParsingPattern :=
  foldl (λ patterns p, addPattern p patterns) [] registered.

(** [.sort(([,a], [,b]) => b.priority - a.priority)]: highest priority
    first, equal priorities in registration order. *)
Fixpoint insertByPriority (p : ParsingPattern) (sorted : list ParsingPattern)
  : list ParsingPattern :=
  match sorted with
  | [] => [p]
  | q :: qs =>
      if (priority p <? priority q)%Z then q :: insertByPriority p qs
      else p :: sorted
  end.
Definition sortByPriority (patterns : list ParsingPattern) : list ParsingPattern :=
  foldr insertByPriority [] patterns.

(** A line of [console.warn]: the pattern's name and what was caught. *)
Definition Warning : Type := string * Thrown.

(** The [while] loop over one pattern's matches, [lastIndex] made explicit.
    [None] means the fuel ran out before the loop ended. *)
Fixpoint matchLoop (fuel : nat) (pattern : ParsingPattern) (text : string)
    (lastIndex : nat) (matches : list Matched) (warnings : list Warning)
  : option (Exn (list Matched * list Warning)) :=
  match fuel with
  | O => None
  | S fuel' =>
      match exec (regex pattern) text lastIndex with
      | None => Some (Ok (matches, warnings))
      | Some m =>
          let pushed :=
            tryCatch
              (let? extracted := extractor pattern m in
               Ok (matches ++ [mkMatched extracted (matched m) (RegExp.index m)], warnings))
              (λ error, Ok (matches, warnings ++ [(name pattern, error)])) in
          match pushed with
          | Throw e => Some (Throw e)
          | Ok (matches', warnings') =>
              if negb (global (regex pattern)) then Some (Ok (matches', warnings'))
              else matchLoop fuel' pattern text (endIndex m) matches' warnings'
          end
      end
  end.

(** The [for] loop over the sorted patterns. *)
Fixpoint patternLoop (fuel : nat) (sorted : list ParsingPattern) (text : string)
    (results : gmap string (list Matched)) (warnings : list Warning)
  : option (Exn (gmap string (list Matched) * list Warning)) :=
  match sorted with
  | [] => Some (Ok (results, warnings))
  | pattern :: sorted' =>
      match matchLoop fuel pattern text 0 [] warnings with
      | None => None
      | Some (Throw e) => Some (Throw e)
      | Some (Ok (matches, warnings')) =>
          patternLoop fuel sorted' text
            (if 0 <? length matches then <[name pattern := matches]> results else results)
            warnings'
      end
  end.

(** [extractPatterns(text)] over a registry, with the fuel each inner loop
    may use. *)
Definition extractPatternsWith (fuel : nat) (patterns : list ParsingPattern)
    (text : string) : option (Exn (gmap string (list Matched) * list Warning)) :=
  patternLoop fuel (sortByPriority patterns) text ∅ [].

(** [getFirstMatch(text, patternName)]: [None] is [null]. *)
Definition getFirstMatchWith (patterns : list ParsingPattern) (text patternName : string)
  : Exn (option Extracted * list Warning) :=
  match list_find (λ p, name p = patternName) patterns with
  | None => Ok (None, [])
  | Some (_, pattern) =>
      match exec (regex pattern) text 0 with
      | Some m =>
          tryCatch
            (let? extracted := extractor pattern m in Ok (Some extracted, []))
            (λ error, Ok (None, [(patternName, error)]))
      | None => Ok (None, [])
      end
  end.

(** The converter's own matcher: the registry of [initializePatterns]; a
    loop over a text ends within one round per character and one more. *)
Definition extractPatterns (text : string)
  : option (Exn (gmap string (list Matched) * list Warning)) :=
  extractPatternsWith (S (String.length text)) initializePatterns text.

(** [getFirstMatch(text, patternName)] of the converter's own matcher. *)
Definition getFirstMatch (text patternName : string)
  : Exn (option Extracted * list Warning) :=
  getFirstMatchWith initializePatterns text patternName.

(** [hasPattern(text, patternName)]: [lastIndex] is reset before the test. *)
Definition hasPatternWith (patterns : list ParsingPattern) (text patternName : string)
  : bool :=
  match list_find (λ p, name p = patternName) patterns with
  | None => false
  | Some (_, pattern) => test (regex pattern) text
  end.
Definition hasPattern (text patternName : string) : bool :=
  hasPatternWith initializePatterns text patternName.

(** [getPatternNames()] *)
Definition getPatternNames : list string := name <$> initializePatterns.

End PatternMatcher.

(* ===================================================================== *)
(** ** src/types *)
(* ===================================================================== *)

(** Unions of string literals are kept as strings, so that the sources'
    [x || fallback] and [x === 'literal'] read as written; a field that may
    be absent or [null] is an [option]. *)

Inductive AbilityType :=
| WEAPON_ATTACK | SPELL_ATTACK | SAVE_ABILITY | HEALING | UTILITY | PASSIVE | REACTION.

#[global] Instance AbilityType_eq_dec : EqDecision AbilityType.
Proof. solve_decision. Defined.

(** The string value of a member of [enum AbilityType]. *)
Definition abilityTypeValue (t : AbilityType) : string :=
  match t with
  | WEAPON_ATTACK => "weapon_attack"
  | SPELL_ATTACK => "spell_attack"
  | SAVE_ABILITY => "save_ability"
  | HEALING => "healing"
  | UTILITY => "utility"
  | PASSIVE => "passive"
  | REACTION => "reaction"
  end.

(** [enum AutomationComplexity { SIMPLE = 1, MODERATE = 2, COMPLEX = 3, REACTION = 4 }] *)
Module AutomationComplexity.
Definition SIMPLE : Z := 1.
Definition MODERATE : Z := 2.
Definition COMPLEX : Z := 3.
Definition REACTION : Z := 4.
End AutomationComplexity.

Module ActivationData.
Record t := mk { type : string; cost : Z }.
End ActivationData.

Module TargetData.
Record t := mk {
  value : option number;
  type : string;
  width : option number;
  units : option string
}.
End TargetData.

Module RangeData.
Record t := mk { value : option number; long : option number; units : string }.
End RangeData.

Module DamageData.
Record t := mk { formula : string; type : string; conditional : bool }.
End DamageData.

Module SaveData.
Record t := mk { ability : string; dc : option number; scaling : string }.
End SaveData.

Module DurationData.
Record t := mk { value : option number; units : string; concentration : option bool }.
End DurationData.

Module EffectData.
Record t := mk {
  name : option string;
  type : string;
  value : option Z;
  ability : option string;
  damageTypes : option (list string);
  amount : option Z;
  condition : option string
}.
End EffectData.

(** [ConditionData.value: any]: the sources store [true] or a string. *)
Inductive AnyValue :=
| AnyBool (b : bool)
| AnyString (s : string).

Module ConditionData.
Record t := mk {
  type : string;
  name : string;
  value : AnyValue;
  condition : option string;
  saveEnds : option bool;
  saveEndsTiming : option string
}.
End ConditionData.

Module ResourceData.
Record t := mk {
  consumesResource : bool;
  type : option string;
  amount : option number;
  recharge : option string
}.
End ResourceData.

(** [AbilityRequirement] of the complex-ability parser; the validation
    macro, a block of script text, is left out. *)
Module AbilityRequirement.
Record t := mk {
  type : string;
  condition : string;
  description : string;
  automationHook : string
}.
End AbilityRequirement.

Module ParsedAbility.
Record t := mk {
  name : string;
  raw : string;
  type : AbilityType;
  attackType : option string;
  attackBonus : option number;
  activation : ActivationData.t;
  target : TargetData.t;
  damage : list DamageData.t;
  saves : list SaveData.t;
  effects : list EffectData.t;
  conditions : list ConditionData.t;
  resources : ResourceData.t;
  duration : DurationData.t;
  range : RangeData.t;
  complexity : Z;
  requirements : list AbilityRequirement.t
}.

(** [parsed.complexity = c] *)
Definition setComplexity (c : Z) (a : t) : t :=
  mk (name a) (raw a) (type a) (attackType a) (attackBonus a) (activation a)
     (target a) (damage a) (saves a) (effects a) (conditions a) (resources a)
     (duration a) (range a) c (requirements a).
End ParsedAbility.

Module AbilityDescription.
Record t := mk { raw : string; parsed : ParsedAbility.t }.
End AbilityDescription.

(* ===================================================================== *)
(** ** src/parser/text-analyzer.ts *)
(* ===================================================================== *)

Module TextAnalyzer.

Import RegExp PatternMatcher.

(** Reading a field off an entry of the result map.  An entry that lacks
    the field reads [undefined] in the source; the typed records cannot
    hold that, and the reading is then the neutral value of the type.  No
    registered extractor builds such an entry under the names read here. *)
Module Fact.
Definition type (d : Matched) : string :=
  match extracted d with
  | Attack t _ | DamageAverage _ _ t | Damage _ t | Area t _ | Activation t _
  | Advantage t _ | Resistance t _ | Uses t _ _ | Recharge t _ _ => t
  | Save _ _ | Duration _ _ _ | Range _ _ _ => ""
  end.
Definition bonus (d : Matched) : option number :=
  match extracted d with Attack _ b => Some b | _ => None end.
Definition formula (d : Matched) : string :=
  match extracted d with DamageAverage _ f _ | Damage f _ => f | _ => "" end.
Definition dc (d : Matched) : option number :=
  match extracted d with Save n _ => Some n | _ => None end.
Definition ability (d : Matched) : string :=
  match extracted d with Save _ a => a | _ => "" end.
Definition value (d : Matched) : option number :=
  match extracted d with
  | Duration v _ _ | Range v _ _ => v
  | Area _ v => Some v
  | _ => None
  end.
Definition units (d : Matched) : string :=
  match extracted d with Duration _ u _ | Range _ _ u => u | _ => "" end.
Definition concentration (d : Matched) : option bool :=
  match extracted d with Duration _ _ c => c | _ => None end.
Definition long (d : Matched) : option number :=
  match extracted d with Range _ l _ => l | _ => None end.
Definition cost (d : Matched) : Z :=
  match extracted d with Activation _ c => c | _ => 0 end.
Definition target (d : Matched) : string :=
  match extracted d with Advantage _ t => t | _ => "" end.
Definition damageTypes (d : Matched) : option (list string) :=
  match extracted d with Resistance _ l => Some l | _ => None end.
Definition amount (d : Matched) : option number :=
  match extracted d with Uses _ n _ => Some n | _ => None end.
Definition min (d : Matched) : number :=
  match extracted d with Recharge _ n _ => n | _ => Int 0 end.
Definition max (d : Matched) : number :=
  match extracted d with Recharge _ _ n => n | _ => Int 0 end.
End Fact.

Abbreviation Patterns := (gmap string (list Matched)).

(** [patterns.has(key)] *)
Definition has (patterns : Patterns) (key : string) : bool :=
  bool_decide (is_Some (patterns !! key)).

(** [patterns.get(key) || []] *)
Definition getOrEmpty (patterns : Patterns) (key : string) : list Matched :=
  default [] (patterns !! key).

(** [patterns.get(key)![0]], about to be read from. *)
Definition getFirst (patterns : Patterns) (key : string) : Exn Matched :=
  let? matches := defined "0" (patterns !! key) in
  defined "field" (head matches).

(** [/^([^:]+):/] and [/^([^.]+)\./] *)
Definition colonHeader : RegExp.t :=
  RegExp.mk (Bol ⋅⋅ Group 1 (Plus (NoneOf [":"]%char)) ⋅⋅ Lit ":") false false.
Definition periodHeader : RegExp.t :=
  RegExp.mk (Bol ⋅⋅ Group 1 (Plus (NoneOf ["."]%char)) ⋅⋅ Lit ".") false false.

Definition extractName (text : string) : string :=
  let lines := split text "010" in
  let firstLine := trim (default "" (head lines)) in
  let shortLine :=
    let words := split firstLine " " in
    if (length words <=? 3) && (String.length firstLine <? 30)
    then firstLine else "Unnamed Ability" in
  match firstMatch colonHeader firstLine with
  | Some colonMatch => trim (default "" (group colonMatch 1))
  | None =>
      match firstMatch periodHeader firstLine with
      | Some periodMatch =>
          if String.length (default "" (group periodMatch 1)) <? 50
          then trim (default "" (group periodMatch 1))
          else shortLine
      | None => shortLine
      end
  end.

Definition determineAbilityType (patterns : Patterns) : AbilityType :=
  if has patterns "weapon_attack" then WEAPON_ATTACK
  else if has patterns "spell_attack" then SPELL_ATTACK
  else if has patterns "save_dc" then SAVE_ABILITY
  else
    let damage :=
      match patterns !! "damage_with_average" with
      | Some l => l
      | None => getOrEmpty patterns "damage_simple"
      end in
    if existsb (λ d, bool_decide (Fact.type d = "healing")) damage then HEALING
    else if has patterns "activation_reaction" then REACTION
    else if negb (has patterns "activation_action")
            && negb (has patterns "activation_bonus")
            && negb (has patterns "activation_reaction") then PASSIVE
    else UTILITY.

Definition extractAttackType (patterns : Patterns) : Exn (option string) :=
  if has patterns "weapon_attack" then
    let? attack := getFirst patterns "weapon_attack" in Ok (Some (Fact.type attack))
  else if has patterns "spell_attack" then
    let? attack := getFirst patterns "spell_attack" in Ok (Some (Fact.type attack))
  else Ok None.

Definition extractAttackBonus (patterns : Patterns) : Exn (option number) :=
  if has patterns "weapon_attack" then
    let? attack := getFirst patterns "weapon_attack" in Ok (Fact.bonus attack)
  else if has patterns "spell_attack" then
    let? attack := getFirst patterns "spell_attack" in Ok (Fact.bonus attack)
  else Ok None.

(** The action pattern, then the default. *)
Definition actionOrDefault (patterns : Patterns) : Exn ActivationData.t :=
  if has patterns "activation_action" then
    let? action := getFirst patterns "activation_action" in
    Ok (ActivationData.mk "action" (Fact.cost action))
  else Ok (ActivationData.mk "action" 1).

Definition extractActivation (patterns : Patterns) : Exn ActivationData.t :=
  if has patterns "activation_reaction" then
    let? reaction := getFirst patterns "activation_reaction" in
    Ok (ActivationData.mk "reaction" (Fact.cost reaction))
  else if has patterns "activation_bonus" then
    let? bonus := getFirst patterns "activation_bonus" in
    let matchIndex := PatternMatcher.index bonus in
    if matchIndex <? 50 then Ok (ActivationData.mk "bonus" (Fact.cost bonus))
    else actionOrDefault patterns
  else actionOrDefault patterns.

(** [/(?:targets?\s+)?(\d+)\s+(?:creature|target|enemy|ally)/i] *)
Definition targetCount : RegExp.t :=
  RegExp.mk (Opt (Lit "target" ⋅⋅ Opt (Lit "s") ⋅⋅ Plus Space)
             ⋅⋅ Group 1 (Plus Digit) ⋅⋅ Plus Space
             ⋅⋅ Alt (Lit "creature") (Alt (Lit "target") (Alt (Lit "enemy") (Lit "ally"))))
    true false.

(** The [for] loop over the area pattern names. *)
Fixpoint firstArea (patterns : Patterns) (areas : list string) : Exn TargetData.t :=
  match areas with
  | areaType :: areas' =>
      if has patterns areaType then
        let? area := getFirst patterns areaType in
        Ok (TargetData.mk (Fact.value area) "space" (Fact.value area) (Some "ft"))
      else firstArea patterns areas'
  | [] => Ok (TargetData.mk (Some (Int 1)) "creature" None (Some "any"))
  end.

Definition extractTarget (patterns : Patterns) (text : string) : Exn TargetData.t :=
  match firstMatch targetCount text with
  | Some targetMatch =>
      Ok (TargetData.mk (Some (parseInt (default "" (group targetMatch 1))))
            "creature" None (Some "any"))
  | None =>
      if has patterns "range_self" || includes (toLowerCase text) "yourself"
      then Ok (TargetData.mk None "self" None (Some "any"))
      else firstArea patterns ["area_radius"; "area_cone"; "area_line"]
  end.

Definition toDamage (d : Matched) : DamageData.t :=
  DamageData.mk (Fact.formula d) (Fact.type d) false.

Definition extractDamage (patterns : Patterns) : list DamageData.t :=
  let damageWithAverage := getOrEmpty patterns "damage_with_average" in
  let damage := toDamage <$> damageWithAverage in
  let damageSimple := getOrEmpty patterns "damage_simple" in
  foldl
    (λ damage d,
       if negb (existsb
                  (λ existing, bool_decide (DamageData.formula existing = Fact.formula d))
                  damage)
       then damage ++ [toDamage d]
       else damage)
    damage damageSimple.

Definition extractSaves (patterns : Patterns) : list SaveData.t :=
  (λ save, SaveData.mk (Fact.ability save) (Fact.dc save) "flat")
  <$> getOrEmpty patterns "save_dc".

Definition extractDuration (patterns : Patterns) : Exn DurationData.t :=
  if has patterns "duration_instant" then Ok (DurationData.mk None "inst" None)
  else if has patterns "duration_concentration" then
    let? duration := getFirst patterns "duration_concentration" in
    Ok (DurationData.mk (Fact.value duration) (Fact.units duration)
          (Fact.concentration duration))
  else if has patterns "duration_rounds" then
    let? duration := getFirst patterns "duration_rounds" in
    Ok (DurationData.mk (Fact.value duration) "round" None)
  else Ok (DurationData.mk None "inst" None).

Definition extractRange (patterns : Patterns) : Exn RangeData.t :=
  if has patterns "range_touch" then Ok (RangeData.mk None None "touch")
  else if has patterns "range_self" then Ok (RangeData.mk None None "self")
  else if has patterns "range_distance" then
    let? range := getFirst patterns "range_distance" in
    Ok (RangeData.mk (Fact.value range) (Fact.long range) (Fact.units range))
  else Ok (RangeData.mk (Some (Int 5)) None "ft").

Definition extractEffects (patterns : Patterns) : list EffectData.t :=
  ((λ resistance,
      EffectData.mk None "damage_resistance" None None (Fact.damageTypes resistance)
        None None) <$> getOrEmpty patterns "damage_resistance")
  ++ ((λ immunity,
         EffectData.mk None "damage_resistance" None None (Fact.damageTypes immunity)
           (Some 0%Z) None) <$> getOrEmpty patterns "damage_immunity").

Definition standardConditions : list string :=
  [ "blinded"; "charmed"; "deafened"; "exhaustion"; "frightened";
    "grappled"; "incapacitated"; "invisible"; "paralyzed"; "petrified";
    "poisoned"; "prone"; "restrained"; "stunned"; "unconscious" ].

Definition mcdmConditions : list string := ["dazed"; "bleeding"; "weakened"; "slowed"].

(** [new RegExp(`(?:be|is|becomes?|are)\\s+(?:<[^>]+>)?\\s*${condName}`, 'i')] *)
Definition condPattern (condName : string) : RegExp.t :=
  RegExp.mk (Alt (Lit "be") (Alt (Lit "is") (Alt (Lit "become" ⋅⋅ Opt (Lit "s")) (Lit "are")))
             ⋅⋅ Plus Space
             ⋅⋅ Opt (Lit "<" ⋅⋅ Plus (NoneOf [">"]%char) ⋅⋅ Lit ">")
             ⋅⋅ Star Space ⋅⋅ Lit condName)
    true false.

(** [/save\s*ends|saving throw.*ends|ends?.*saving throw/i] *)
Definition saveEndsPattern : RegExp.t :=
  RegExp.mk (Alt (Lit "save" ⋅⋅ Star Space ⋅⋅ Lit "ends")
               (Alt (Lit "saving throw" ⋅⋅ Star AnyChar ⋅⋅ Lit "ends")
                  (Lit "end" ⋅⋅ Opt (Lit "s") ⋅⋅ Star AnyChar ⋅⋅ Lit "saving throw")))
    true false.

(** [/(?:at\s+)?(?:the\s+)?end\s+of\s+(?:its|their|the target's|each|the|your)?\s*turn/i] *)
Definition endOfTurnPattern : RegExp.t :=
  RegExp.mk (Opt (Lit "at" ⋅⋅ Plus Space) ⋅⋅ Opt (Lit "the" ⋅⋅ Plus Space)
             ⋅⋅ Lit "end" ⋅⋅ Plus Space ⋅⋅ Lit "of" ⋅⋅ Plus Space
             ⋅⋅ Opt (Alt (Lit "its") (Alt (Lit "their") (Alt (Lit "the target's")
                       (Alt (Lit "each") (Alt (Lit "the") (Lit "your"))))))
             ⋅⋅ Star Space ⋅⋅ Lit "turn")
    true false.

Definition extractConditions (patterns : Patterns) (text : string) : list ConditionData.t :=
  let allConditions := standardConditions ++ mcdmConditions in
  let named :=
    condName ← allConditions;
    if test (condPattern condName) text then
      let saveEnds := test saveEndsPattern text in
      let endOfTurn := test endOfTurnPattern text in
      [ConditionData.mk condName condName (AnyBool true) None (Some saveEnds)
         (Some (if endOfTurn then "end_of_turn" else "start_of_turn"))]
    else [] in
  let advantages :=
    (λ adv, ConditionData.mk "advantage" "Advantage" (AnyString (Fact.target adv))
              None None None)
    <$> getOrEmpty patterns "advantage" in
  let disadvantages :=
    (λ dis, ConditionData.mk "disadvantage" "Disadvantage" (AnyString (Fact.target dis))
              None None None)
    <$> getOrEmpty patterns "disadvantage" in
  named ++ advantages ++ disadvantages.

Definition extractResources (patterns : Patterns) : Exn ResourceData.t :=
  if has patterns "uses_per_day" then
    let? usage := getFirst patterns "uses_per_day" in
    Ok (ResourceData.mk true (Some "per_day") (Fact.amount usage) None)
  else if has patterns "uses_per_rest" then
    let? usage := getFirst patterns "uses_per_rest" in
    Ok (ResourceData.mk true (Some "per_rest") (Fact.amount usage) None)
  else if has patterns "recharge" then
    let? recharge := getFirst patterns "recharge" in
    Ok (ResourceData.mk true (Some "recharge") None
          (Some (numberToString (Fact.min recharge) +:+ "-"
                 +:+ numberToString (Fact.max recharge))))
  else Ok (ResourceData.mk false None None None).

Definition assessComplexity (ability : ParsedAbility.t) : Z :=
  let score := 1%Z in
  let score := if 0 <? length (ParsedAbility.conditions ability)
               then (score + 1)%Z else score in
  let score := if 1 <? length (ParsedAbility.damage ability)
               then (score + 1)%Z else score in
  let score := if bool_decide
                    (ActivationData.type (ParsedAbility.activation ability) = "reaction")
               then 4%Z else score in
  let score := if 1 <? length (ParsedAbility.effects ability)
               then (score + 1)%Z else score in
  let score := if (0 <? length (ParsedAbility.saves ability))
                  && (0 <? length (ParsedAbility.effects ability))
               then (score + 1)%Z else score in
  let score := if ResourceData.consumesResource (ParsedAbility.resources ability)
               then (score + 1)%Z else score in
  Z.min score 4.

(** [analyzeText(text, name?)], after the matcher returned [patterns]. *)
Definition analyzeWith (patterns : Patterns) (text : string) (name : option string)
  : Exn AbilityDescription.t :=
  let name :=
    match name with
    | Some n => if bool_decide (n = "") then extractName text else n
    | None => extractName text
    end in
  let type := determineAbilityType patterns in
  let? attackType := extractAttackType patterns in
  let? attackBonus := extractAttackBonus patterns in
  let? activation := extractActivation patterns in
  let? target := extractTarget patterns text in
  let damage := extractDamage patterns in
  let saves := extractSaves patterns in
  let effects := extractEffects patterns in
  let conditions := extractConditions patterns text in
  let? resources := extractResources patterns in
  let? duration := extractDuration patterns in
  let? range := extractRange patterns in
  let parsed :=
    ParsedAbility.mk name text type attackType attackBonus activation target damage
      saves effects conditions resources duration range AutomationComplexity.SIMPLE [] in
  let parsed := ParsedAbility.setComplexity (assessComplexity parsed) parsed in
  Ok (AbilityDescription.mk text parsed).

Definition analyzeText (text : string) (name : option string)
  : option (Exn AbilityDescription.t) :=
  match extractPatterns text with
  | None => None
  | Some r => Some (let? pw := r in analyzeWith (fst pw) text name)
  end.

End TextAnalyzer.

(* ===================================================================== *)
(** ** Flag bundles *)
(* ===================================================================== *)

(** [Record<string, any>]: the values the sources put into flags and into
    the fields of an item that can hold anything.  An object is its own
    enumerable fields in the order [Object.keys] lists them, each name
    once; no field is named [__proto__] (an assignment under that name
    would set the prototype, and the sources make none).  The prototype
    object [Object.prototype], which has no enumerable field, is the empty
    object here: the sources never tell the two apart. *)
Inductive Json :=
| JUndefined
| JNull
| JBool (b : bool)
| JNum (n : Q)
| JInfinity
| JNegInfinity
| JNaN
| JStr (s : Text)
| JArr (items : list Json)
| JObj (fields : list (string * Json))
| JFunction (name : string).

Module Fields.
Definition t : Type := list (string * Json).

(** [o[k]] for a field of the object itself. *)
Fixpoint get (k : string) (o : t) : Json :=
  match o with
  | [] => JUndefined
  | (k', v) :: o' => if bool_decide (k' = k) then v else get k o'
  end.

(** The array index a key spells: [0], or digits that do not start with
    [0], up to [2^32 - 2]. *)
Definition arrayIndex (k : string) : option Z :=
  match chars k with
  | [] => None
  | c :: l =>
      if forallb isDigit (c :: l)
         && (bool_decide (l = []) || negb (bool_decide (c = "0"%char)))
      then
        let v := default 0%Z (leadingDigits 10 None (c :: l)) in
        if (v <=? 4294967294)%Z then Some v else None
      else None
  end.

(** A new key [k] comes before the key [k'] when [k] is an array index
    and [k'] is a larger one, or none. *)
Definition before (k k' : string) : bool :=
  match arrayIndex k, arrayIndex k' with
  | Some i, Some i' => (i <? i')%Z
  | Some _, None => true
  | None, _ => false
  end.

Fixpoint replace (k : string) (v : Json) (o : t) : t :=
  match o with
  | [] => []
  | (k', v') :: o' =>
      if bool_decide (k' = k) then (k, v) :: o' else (k', v') :: replace k v o'
  end.

Fixpoint add (k : string) (v : Json) (o : t) : t :=
  match o with
  | [] => [(k, v)]
  | (k', v') :: o' =>
      if before k k' then (k, v) :: o else (k', v') :: add k v o'
  end.

(** [o[k] = v]: a field that is there keeps its place; a new one goes
    last, but an array index goes among the array indices, which come
    first, in ascending order. *)
Definition set (k : string) (v : Json) (o : t) : t :=
  if bool_decide (k ∈ o.*1) then replace k v o else add k v o.

(** [{...a, ...b}] *)
Definition spread (a b : t) : t := foldl (λ o kv, set (fst kv) (snd kv) o) a b.
End Fields.

Definition jstrings (l : list string) : Json := JArr ((λ s : string, JStr s) <$> l).
Definition jint (n : Z) : Json := JNum (inject_Z n).
Definition jnumber (n : number) : Json :=
  match n with
  | Int z => jint z
  | Infinity => JInfinity
  | NegInfinity => JNegInfinity
  | NaN => JNaN
  end.
Definition jopt {A} (f : A → Json) (o : option A) : Json :=
  match o with
  | Some a => f a
  | None => JUndefined
  end.

(** A value read off an object literal. *)
Definition jproperty (p : Property) : Json :=
  match p with
  | Own value => JStr value
  | Builtin name => JFunction name
  | Prototype => JObj []
  end.

(* ===================================================================== *)
(** ** Foundry data (src/types) *)
(* ===================================================================== *)

Module ChangeData.
Record t := mk { key : string; mode : Z; value : string; priority : Z }.
End ChangeData.

(** [duration] is the object [{ seconds?, rounds?, turns? }]; [img] and
    the entries of [statuses] are read off object literals. *)
Module ActiveEffectData.
Record t := mk {
  _id : string;
  name : Text;
  img : Json;
  changes : list ChangeData.t;
  duration : Fields.t;
  flags : Fields.t;
  statuses : list Json;
  transfer : bool;
  disabled : bool
}.
End ActiveEffectData.

(** The script text of a macro is left out. *)
Module MacroData.
Record t := mk { name : string; type : string; scope : string; img : string }.
End MacroData.

(** An entry of an activity's [effects]: [{ _id, onSave?, level }]. *)
Module EffectRef.
Record t := mk { _id : string; onSave : option bool }.
End EffectRef.

(** [number] and [denomination] are a number or [null]. *)
Module DamagePart.
Record t := mk {
  number : option JS.number;
  denomination : option JS.number;
  bonus : string;
  types : list string;
  customEnabled : bool;
  customFormula : string;
  scalingNumber : option Z
}.
End DamagePart.

Module AttackData.
Record t := mk { bonus : string; flat : bool; value : string; classification : string }.
End AttackData.

(** An activity of the item's [system.activities]; the fields with the
    same constant in every activity are left out. *)
Module Activity.
Record t := mk {
  _id : string;
  type : string;
  activationType : string;
  activationValue : Z;
  concentration : bool;
  durationUnits : string;
  effects : list EffectRef.t;
  rangeUnits : string;
  affectsCount : string;
  affectsType : string;
  attack : option AttackData.t;
  damageOnSave : option string;
  damageParts : list DamagePart.t;
  saveAbility : option (list string);
  saveDcFormula : option string
}.
End Activity.

(** A field of [system]: what the engine built, or the value a later pass
    assigned over it. *)
Inductive Slot (A : Type) :=
| Built (a : A)
| Assigned (v : Json).
Arguments Built {A} a.
Arguments Assigned {A} v.

(** [description] stands for the object [{ value, chat: "" }], by its
    [value]; the fields with the same constant in every item are left out,
    and [assigned] lists those a later pass assigned, or added. *)
Module SystemData.
Record t := mk {
  description : Slot Text;
  activities : Slot (gmap string Activity.t);
  weaponFields : bool;               (* quantity, weight, ..., weaponType *)
  assigned : Fields.t
}.
End SystemData.

Module FoundryItemData.
Record t := mk {
  _id : string;
  name : string;
  type : string;
  img : string;
  system : SystemData.t;
  effects : list ActiveEffectData.t;
  flags : Fields.t
}.
End FoundryItemData.

Module AutomationResult.
Record t := mk {
  item : FoundryItemData.t;
  effects : list ActiveEffectData.t;
  macros : list MacroData.t;
  flags : Fields.t;
  complexity : Z
}.
End AutomationResult.

(** [generateFoundryId()]: sixteen characters drawn from [chars]. *)
Definition idChars : string :=
  "ABCDEFGHIJKLMNOPQRSTUVWXYZabcdefghijklmnopqrstuvwxyz0123456789".

Fixpoint drawChars (n : nat) (id : string) : M string :=
  match n with
  | O => ret id
  | S n' =>
      let* k := randomBelow (String.length idChars) in
      drawChars n' (id +:+ charAt idChars k)
  end.

Definition generateFoundryId : M string := drawChars 16 "".

(* ===================================================================== *)
(** ** automation/effect-generator.ts *)
(* ===================================================================== *)

Module EffectGenerator.

Definition change (key : string) (mode : Z) (value : string) : ChangeData.t :=
  ChangeData.mk key mode value 20.

Definition generateChanges (effect : EffectData.t) : list ChangeData.t :=
  let type := EffectData.type effect in
  if bool_decide (type = "ac_bonus") then
    match EffectData.value effect with
    | Some v => [change "system.attributes.ac.bonus" 2 (numberToString (Int v))]
    | None => []
    end
  else if bool_decide (type = "ability_modifier") then
    match EffectData.ability effect, EffectData.value effect with
    | Some ability, Some v =>
        if bool_decide (ability = "") then []
        else [change ("system.abilities." +:+ ability +:+ ".value") 2
                (numberToString (Int v))]
    | _, _ => []
    end
  else if bool_decide (type = "damage_resistance") then
    match EffectData.damageTypes effect with
    | Some damageTypes =>
        (λ damageType,
           if bool_decide (EffectData.amount effect = Some 0%Z)
           then change "system.traits.di.value" 0 damageType
           else change "system.traits.dr.value" 0 damageType) <$> damageTypes
    | None => []
    end
  else if bool_decide (type = "advantage") then [change "ATL.light.color" 5 "#00ff00"]
  else if bool_decide (type = "disadvantage") then [change "ATL.light.color" 5 "#ff0000"]
  else [].

(** The keys of [conditionMap]: every key maps to itself. *)
Definition conditionMap : list (string * string) :=
  (λ c, (c, c))
  <$> [ "blinded"; "charmed"; "deafened"; "frightened"; "grappled"; "incapacitated";
        "invisible"; "paralyzed"; "petrified"; "poisoned"; "prone"; "restrained";
        "stunned"; "unconscious"; "exhaustion";
        "dazed"; "bleeding"; "weakened"; "slowed" ].

(** [conditionMap[conditionName.toLowerCase()] || null]: [None] is [null]. *)
Definition mapConditionToStatus (conditionName : string) : option Property :=
  read conditionMap (toLowerCase conditionName).

Definition override (key value : string) : ChangeData.t := change key 5 value.

(** The [switch] compares [status] with strings. *)
Definition getConditionChanges (status : Property) : list ChangeData.t :=
  match status with
  | Own status =>
      if bool_decide (status = "blinded") then
        [ override "flags.midi-qol.disadvantage.attack.all" "1";
          override "flags.midi-qol.grants.advantage.attack.all" "1" ]
      else if bool_decide (status = "prone") then
        [ override "flags.midi-qol.disadvantage.attack.all" "1";
          override "flags.midi-qol.grants.advantage.attack.mwak" "1" ]
      else if bool_decide (status = "restrained") then
        [ override "flags.midi-qol.disadvantage.attack.all" "1";
          override "flags.midi-qol.disadvantage.ability.save.dex" "1";
          override "flags.midi-qol.grants.advantage.attack.all" "1" ]
      else if bool_decide (status = "dazed") then
        [ override "flags.midi-qol.dazed" "1";
          change "macro.tokenMagic" 0 "blur" ]
      else []
  | _ => []
  end.

Definition convertDuration (ability : ParsedAbility.t) : Fields.t :=
  let duration := ParsedAbility.duration ability in
  let units := DurationData.units duration in
  if bool_decide (units = "inst") then []
  else
    match DurationData.value duration with
    | None => []
    | Some value =>
        if bool_decide (units = "round") then [("rounds", jnumber value)]
        else if bool_decide (units = "turn") then [("turns", jnumber value)]
        else if bool_decide (units = "minute") then [("seconds", jnumber (times value 60))]
        else if bool_decide (units = "hour") then [("seconds", jnumber (times value 3600))]
        else if bool_decide (units = "day") then [("seconds", jnumber (times value 86400))]
        else []
    end.

Definition generateEffectFlags (effect : EffectData.t) (ability : ParsedAbility.t)
  : Fields.t :=
  let type := EffectData.type effect in
  let dae : Fields.t :=
    [("stackable",
      JStr (if bool_decide (type = "ac_bonus") || bool_decide (type = "ability_modifier")
            then "multi" else "noneName"))] in
  let dae := if bool_decide (ParsedAbility.type ability = PASSIVE)
             then Fields.set "transfer" (JBool true) dae else dae in
  let dae := if default false (DurationData.concentration (ParsedAbility.duration ability))
             then Fields.set "specialDuration" (jstrings ["isConcentration"]) dae
             else dae in
  [ ("dae", JObj dae);
    ("automancy", JObj [("effectType", JStr type); ("generated", JBool true)]) ].

Definition mapStatusEffects (effect : EffectData.t) : list Json :=
  if bool_decide (EffectData.type effect = "condition") then
    match mapConditionToStatus (default "" (EffectData.condition effect)) with
    | Some status => [jproperty status]
    | None => []
    end
  else [].

(** [iconMap[key] || fallback] *)
Definition icon (iconMap : list (string * string)) (fallback : string) (key : string)
  : Json :=
  jproperty (default (Own fallback) (read iconMap key)).

Definition getEffectIcon : string → Json :=
  icon [ ("ac_bonus", "systems/dnd5e/icons/spells/protect-blue-3.jpg");
         ("ability_modifier", "systems/dnd5e/icons/spells/enchant-utility-4.jpg");
         ("damage_resistance", "systems/dnd5e/icons/spells/protect-cyan-2.jpg");
         ("advantage", "systems/dnd5e/icons/spells/enchant-blue-3.jpg");
         ("disadvantage", "systems/dnd5e/icons/spells/debuff-red-2.jpg");
         ("condition", "systems/dnd5e/icons/spells/debuff-red-1.jpg") ]
       "systems/dnd5e/icons/spells/enchant-utility-4.jpg".

(** [iconMap[status] || fallback]; the key is [String(status)]. *)
Definition getConditionIcon (status : option Property) : Json :=
  icon (((λ c, (c, "systems/dnd5e/icons/conditions/" +:+ c +:+ ".svg"))
         <$> [ "blinded"; "charmed"; "deafened"; "frightened"; "grappled";
               "incapacitated"; "invisible"; "paralyzed"; "petrified"; "poisoned";
               "prone"; "restrained"; "stunned"; "unconscious" ])
        ++ [ ("dazed", "icons/svg/daze.svg"); ("bleeding", "icons/svg/blood.svg");
             ("weakened", "icons/svg/downgrade.svg"); ("slowed", "icons/svg/frozen.svg") ])
       "systems/dnd5e/icons/spells/debuff-red-1.jpg"
       (match status with
        | Some status => propertyText status
        | None => "undefined"
        end).

(** [descriptions[conditionType] || ""] *)
Definition getConditionDescription (conditionType : string) : Json :=
  icon [ ("dazed", "Can only take an action, bonus action, OR move - not all three.");
         ("bleeding", "Takes ongoing damage at the start of each turn.");
         ("weakened", "Deals half damage with attacks.");
         ("slowed", "Movement speed is halved.") ] "" conditionType.

(** [word.charAt(0).toUpperCase() + word.slice(1).toLowerCase()] *)
Definition capitalize (word : string) : Text :=
  match word with
  | EmptyString => []
  | String c rest => upperUnits c ++ wide (toLowerCase rest)
  end.

Definition formatConditionName (name : string) : Text :=
  joinText (wide " ") (capitalize <$> split name " ").

Definition createActiveEffect (effect : EffectData.t) (ability : ParsedAbility.t)
  : M (option ActiveEffectData.t) :=
  let changes := generateChanges effect in
  if bool_decide (length changes = 0) then ret None
  else
    let* id := generateFoundryId in
    ret (Some (ActiveEffectData.mk id
                 (wide (match EffectData.name effect with
                        | Some n => if bool_decide (n = "")
                                    then ParsedAbility.name ability +:+ " Effect" else n
                        | None => ParsedAbility.name ability +:+ " Effect"
                        end))
                 (getEffectIcon (EffectData.type effect))
                 changes
                 (convertDuration ability)
                 (generateEffectFlags effect ability)
                 (mapStatusEffects effect)
                 (bool_decide (ParsedAbility.type ability = PASSIVE))
                 false)).

Definition createConditionEffect (ability : ParsedAbility.t) (effectId : string)
    (conditionIndex : nat) : option ActiveEffectData.t :=
  match ParsedAbility.conditions ability !! conditionIndex with
  | None => None
  | Some condition =>
      let type := ConditionData.type condition in
      if bool_decide (type = "advantage") || bool_decide (type = "disadvantage")
      then None
      else
        let status := mapConditionToStatus type in
        let statusEffects := match status with Some s => [jproperty s] | None => [] end in
        let changes := match status with Some s => getConditionChanges s | None => [] end in
        if bool_decide (length statusEffects = 0) && bool_decide (length changes = 0)
        then None
        else
          let saveEnds := default false (ConditionData.saveEnds condition) in
          let timing := ConditionData.saveEndsTiming condition in
          let flags : Fields.t :=
            [("dae", JObj
                [ ("stackable", JStr "noneName");
                  ("specialDuration",
                   jstrings (if saveEnds && bool_decide (timing = Some "end_of_turn")
                             then ["turnEndSource"]
                             else if saveEnds then ["turnStart"] else []));
                  ("macroRepeat", JStr (if saveEnds then "endEveryTurn" else "none")) ])] in
          let flags :=
            match status with
            | Some (Own s) =>
                if bool_decide (s ∈ ["dazed"; "bleeding"; "weakened"; "slowed"]) then
                  let firstSave := head (ParsedAbility.saves ability) in
                  Fields.set "automancy"
                    (JObj [ ("generated", JBool true);
                            ("mcdmCondition", JBool true);
                            ("conditionType", JStr s);
                            ("saveEnds", jopt JBool (ConditionData.saveEnds condition));
                            ("saveEndsTiming", jopt (λ t : string, JStr t) timing);
                            ("saveDC",
                             match firstSave with
                             | Some save => match SaveData.dc save with
                                            | Some n => jnumber n
                                            | None => JNull
                                            end
                             | None => JNull
                             end);
                            ("saveType",
                             match firstSave with
                             | Some save => JStr (SaveData.ability save)
                             | None => JNull
                             end);
                            ("description", getConditionDescription s) ])
                    (Fields.set "convenient-effects"
                       (JObj [ ("isCustom", JBool true);
                               ("description", getConditionDescription s) ])
                       (Fields.set "chris-premades"
                          (JObj [ ("condition", JBool true);
                                  ("conditionType", JStr s);
                                  ("customCondition", JBool true) ])
                          flags))
                else flags
            | _ => flags
            end in
          let duration : Fields.t :=
            if saveEnds then [("rounds", jint 100); ("turns", jint 0)]
            else convertDuration ability in
          Some (ActiveEffectData.mk effectId
                  (wide (ParsedAbility.name ability +:+ " - ")
                   ++ formatConditionName
                        (if bool_decide (ConditionData.name condition = "")
                         then type else ConditionData.name condition))
                  (getConditionIcon status)
                  changes duration flags statusEffects false false)
  end.

(** The [forEach] over [ability.effects]. *)
Fixpoint parsedEffects (ability : ParsedAbility.t) (todo : list EffectData.t)
  : M (list ActiveEffectData.t) :=
  match todo with
  | [] => ret []
  | effect :: todo' =>
      let* activeEffect := createActiveEffect effect ability in
      let* others := parsedEffects ability todo' in
      ret (match activeEffect with
           | Some e => e :: others
           | None => others
           end)
  end.

(** The [forEach] over [ability.conditions], from index [idx] on. *)
Fixpoint conditionEffects (ability : ParsedAbility.t) (effectIds : option (list string))
    (todo : list ConditionData.t) (idx : nat) : M (list ActiveEffectData.t) :=
  match todo with
  | [] => ret []
  | _ :: todo' =>
      let provided :=
        match effectIds with
        | Some ids =>
            match ids !! idx with
            | Some id => if bool_decide (id = "") then None else Some id
            | None => None
            end
        | None => None
        end in
      let* effectId :=
        match provided with
        | Some id => ret id
        | None => generateFoundryId
        end in
      let conditionEffect := createConditionEffect ability effectId idx in
      let* others := conditionEffects ability effectIds todo' (S idx) in
      ret (match conditionEffect with
           | Some e => e :: others
           | None => others
           end)
  end.

(** The transfer flags set on every effect of a passive ability. *)
Definition setTransfer (effect : ActiveEffectData.t) : ActiveEffectData.t :=
  let flags := ActiveEffectData.flags effect in
  let dae :=
    match Fields.get "dae" flags with
    | JObj dae => dae
    | _ => []                (* every effect built here carries a dae object *)
    end in
  ActiveEffectData.mk
    (ActiveEffectData._id effect) (ActiveEffectData.name effect)
    (ActiveEffectData.img effect) (ActiveEffectData.changes effect)
    (ActiveEffectData.duration effect)
    (Fields.set "dae" (JObj (Fields.set "transfer" (JBool true) dae)) flags)
    (ActiveEffectData.statuses effect) true (ActiveEffectData.disabled effect).

Definition generateActiveEffects (ability : ParsedAbility.t)
    (effectIds : option (list string)) : M (list ActiveEffectData.t) :=
  let* fromEffects := parsedEffects ability (ParsedAbility.effects ability) in
  let* fromConditions :=
    conditionEffects ability effectIds (ParsedAbility.conditions ability) 0 in
  let effects := fromEffects ++ fromConditions in
  ret (if bool_decide (ParsedAbility.type ability = PASSIVE)
       then setTransfer <$> effects
       else effects).

End EffectGenerator.

(* ===================================================================== *)
(** ** automation/flag-generator.ts *)
(* ===================================================================== *)

Module FlagGenerator.

(** [abilityMap[abilityName.toLowerCase()] || null]: [None] is [null]. *)
Definition getAbilityCode (abilityName : string) : option Property :=
  read
    [ ("strength", "str"); ("str", "str"); ("dexterity", "dex"); ("dex", "dex");
      ("constitution", "con"); ("con", "con"); ("intelligence", "int"); ("int", "int");
      ("wisdom", "wis"); ("wis", "wis"); ("charisma", "cha"); ("cha", "cha") ]
    (toLowerCase abilityName).

(** [skillMap[skillName.toLowerCase()] || null] *)
Definition getSkillCode (skillName : string) : option Property :=
  read
    [ ("acrobatics", "acr"); ("animal handling", "ani"); ("arcana", "arc");
      ("athletics", "ath"); ("deception", "dec"); ("history", "his");
      ("insight", "ins"); ("intimidation", "inti"); ("investigation", "inv");
      ("medicine", "med"); ("nature", "nat"); ("perception", "prc");
      ("performance", "per"); ("persuasion", "pers"); ("religion", "rel");
      ("sleight of hand", "slt"); ("stealth", "ste"); ("survival", "sur") ]
    (toLowerCase skillName).

(** One condition of kind [word] ("advantage" or "disadvantage"). *)
Definition addRollFlag (word : string) (flags : Fields.t) (condition : ConditionData.t)
  : Exn Fields.t :=
  if bool_decide (ConditionData.type condition = word) then
    let on (k : string) (o : Fields.t) := Fields.set (word +:+ k) (JBool true) o in
    match ConditionData.value condition with
    | AnyString target =>
        if bool_decide (target = "all") || bool_decide (target = "attack")
        then Ok (on ".attack.all" flags)
        else if bool_decide (target = "saves") || bool_decide (target = "save")
        then Ok (on ".ability.save.all" flags)
        else if bool_decide (target = "checks") || bool_decide (target = "check")
        then Ok (on ".ability.check.all" flags)
        else
          match getAbilityCode target with
          | Some abilityCode =>
              Ok (on (".ability.save." +:+ propertyText abilityCode)
                    (on (".ability.check." +:+ propertyText abilityCode) flags))
          | None =>
              match getSkillCode target with
              | Some skillCode => Ok (on (".skill." +:+ propertyText skillCode) flags)
              | None => Ok flags
              end
          end
    | AnyBool _ => Throw (ErrorObj "abilityName.toLowerCase is not a function")
    end
  else Ok flags.

Fixpoint addRollFlags (word : string) (flags : Fields.t) (todo : list ConditionData.t)
  : Exn Fields.t :=
  match todo with
  | [] => Ok flags
  | condition :: todo' =>
      let? flags' := addRollFlag word flags condition in
      addRollFlags word flags' todo'
  end.

Definition addDamageFlags (flags : Fields.t) (ability : ParsedAbility.t) : Fields.t :=
  foldl
    (λ flags effect,
       match EffectData.damageTypes effect with
       | Some damageTypes =>
           if bool_decide (EffectData.type effect = "damage_resistance") then
             foldl
               (λ flags damageType,
                  match EffectData.amount effect with
                  | None => Fields.set ("DR." +:+ damageType) (JNum (1 # 2)) flags
                  | Some amount =>
                      if (amount =? 0)%Z
                      then Fields.set ("DI." +:+ damageType) (JBool true) flags
                      else if (amount <? 1)%Z
                      then Fields.set ("DR." +:+ damageType) (jint amount) flags
                      else flags
                  end)
               flags damageTypes
           else flags
       | None => flags
       end)
    flags (ParsedAbility.effects ability).

Definition addSaveFlags (flags : Fields.t) (ability : ParsedAbility.t) : Fields.t :=
  match ParsedAbility.saves ability with
  | save :: _ =>
      if bool_decide (ParsedAbility.type ability = SAVE_ABILITY) then
        let flat := bool_decide (SaveData.scaling save = "flat") in
        let flags :=
          match SaveData.dc save with
          | Some dc => if flat then Fields.set "saveDC" (jnumber dc) flags else flags
          | None => flags
          end in
        if negb flat
        then Fields.set ("save." +:+ SaveData.ability save +:+ ".scaling")
               (JStr (SaveData.scaling save)) flags
        else flags
      else flags
  | [] => flags
  end.

Definition addMacroFlags (flags : Fields.t) (ability : ParsedAbility.t) : Fields.t :=
  let flags :=
    if (0 <? length (ParsedAbility.effects ability))
       || (0 <? length (ParsedAbility.conditions ability))
    then Fields.set "effectActivation" (JBool true) flags else flags in
  let hasAttack := bool_decide (ParsedAbility.type ability = SPELL_ATTACK)
                   || bool_decide (ParsedAbility.type ability = WEAPON_ATTACK) in
  let hasSave := 0 <? length (ParsedAbility.saves ability) in
  let hasCondition := 0 <? length (ParsedAbility.conditions ability) in
  if hasAttack && hasSave then
    let flags := Fields.set "forceWorkflow" (JBool true) flags in
    if hasCondition && (0 <? length (ParsedAbility.damage ability)) then
      Fields.set "rollOtherDamage" (JStr "none")
        (Fields.set "otherSaveDamage" (JStr "nodam")
           (Fields.set "saveDamage" (JStr "nodam")
              (Fields.set "noDamSave" (JBool true) flags)))
    else flags
  else flags.

Definition addConditionalFlags (flags : Fields.t) (ability : ParsedAbility.t) : Fields.t :=
  let conditions :=
    omap (λ c, match ConditionData.condition c with
               | Some s => if bool_decide (s = "") then None else Some s
               | None => None
               end) (ParsedAbility.conditions ability) in
  let flags :=
    if 0 <? length conditions
    then Fields.set "itemCondition" (JStr (join " && " conditions)) flags
    else flags in
  match RangeData.value (ParsedAbility.range ability) with
  | Some value =>
      if truthy value && greater value 5
      then Fields.set "checkRange" (JBool true) flags else flags
  | None => flags
  end.

Definition generateMidiQOLFlags (ability : ParsedAbility.t) : Exn Fields.t :=
  let? flags := addRollFlags "advantage" [] (ParsedAbility.conditions ability) in
  let? flags := addRollFlags "disadvantage" flags (ParsedAbility.conditions ability) in
  let flags := addDamageFlags flags ability in
  let flags := addSaveFlags flags ability in
  let flags := addMacroFlags flags ability in
  let flags := addConditionalFlags flags ability in
  Ok [("midi-qol", JObj flags)].

Definition determineExecutionPoint (ability : ParsedAbility.t) : string :=
  if bool_decide (ParsedAbility.type ability = SAVE_ABILITY) then "postSave"
  else if 0 <? length (ParsedAbility.damage ability) then "postDamageRoll"
  else if 0 <? length (ParsedAbility.effects ability) then "preActiveEffects"
  else if ResourceData.consumesResource (ParsedAbility.resources ability) then "preItemRoll"
  else "postItemRoll".

Definition generateDAEFlags (ability : ParsedAbility.t) : Fields.t :=
  let flags : Fields.t := [] in
  let flags :=
    if bool_decide (ParsedAbility.type ability = PASSIVE)
    then Fields.set "transfer" (JBool true) flags else flags in
  let flags :=
    if 0 <? length (ParsedAbility.effects ability) then
      let hasStackableEffects :=
        existsb (λ effect, bool_decide (EffectData.type effect = "ac_bonus")
                           || bool_decide (EffectData.type effect = "ability_modifier"))
          (ParsedAbility.effects ability) in
      Fields.set "stackable" (JStr (if hasStackableEffects then "multi" else "noneName"))
        flags
    else flags in
  let flags :=
    if default false (DurationData.concentration (ParsedAbility.duration ability))
    then Fields.set "specialDuration" (jstrings ["isConcentration"]) flags else flags in
  [("dae", JObj flags)].

Definition generateChrisPremadeFlags (ability : ParsedAbility.t) : Fields.t :=
  let flags : Fields.t := [] in
  let flags :=
    Fields.set "identifier"
      (JStr ("automancy-"
             +:+ replaceWhitespace "-" (toLowerCase (ParsedAbility.name ability)))) flags in
  let flags := Fields.set "complexity" (jint (ParsedAbility.complexity ability)) flags in
  let flags :=
    Fields.set "automationType" (JStr (abilityTypeValue (ParsedAbility.type ability)))
      flags in
  [("chris-premades", JObj flags)].

Definition generateAllFlags (ability : ParsedAbility.t) : Exn Fields.t :=
  let? midi := generateMidiQOLFlags ability in
  Ok (Fields.spread
        (Fields.spread (Fields.spread (Fields.spread [] midi) (generateDAEFlags ability))
           (generateChrisPremadeFlags ability))
        [("automancy",
          JObj [ ("generated", JBool true);
                 ("version", JStr "0.1.0");
                 ("complexity", jint (ParsedAbility.complexity ability));
                 ("sourceType", JStr (abilityTypeValue (ParsedAbility.type ability))) ])]).

End FlagGenerator.

(* ===================================================================== *)
(** ** automation/rule-engine.ts *)
(* ===================================================================== *)

Module RuleEngine.

Import RegExp.

(** [s || fallback] on strings. *)
Definition orElse (s fallback : string) : string :=
  if bool_decide (s = "") then fallback else s.

(** [n ? n : fallback] on numbers that may be absent. *)
Definition truthyNumber (n : option number) : option number :=
  match n with
  | Some v => if truthy v then Some v else None
  | None => None
  end.

Definition generateEffectIds (ability : ParsedAbility.t) : M (list string) :=
  mapM (λ _, generateFoundryId) (ParsedAbility.conditions ability).

Definition determineItemType (abilityType : AbilityType) : string :=
  match abilityType with
  | WEAPON_ATTACK => "weapon"
  | _ => "feat"
  end.

Definition getIconPath (abilityType : AbilityType) : string :=
  match abilityType with
  | WEAPON_ATTACK => "icons/svg/sword.svg"
  | SPELL_ATTACK => "icons/svg/lightning.svg"
  | SAVE_ABILITY => "icons/svg/shield.svg"
  | HEALING => "icons/svg/heal.svg"
  | UTILITY => "icons/svg/cog.svg"
  | PASSIVE => "icons/svg/eye.svg"
  | REACTION => "icons/svg/clockwork.svg"
  end.

Definition generateDescription (ability : ParsedAbility.t) : Text :=
  let attackLine : list Text :=
    match ParsedAbility.attackType ability with
    | Some attackType =>
        if bool_decide (attackType = "") then []
        else
          let attackTypeLabel :=
            if bool_decide (attackType = "msak") then "Melee Spell Attack"
            else if bool_decide (attackType = "rsak") then "Ranged Spell Attack"
            else if bool_decide (attackType = "mwak") then "Melee Weapon Attack"
            else if bool_decide (attackType = "rwak") then "Ranged Weapon Attack"
            else "Attack" in
          let attackBonus :=
            match truthyNumber (ParsedAbility.attackBonus ability) with
            | Some b => "+" +:+ numberToString b
            | None => "+X"
            end in
          let range :=
            match truthyNumber (RangeData.value (ParsedAbility.range ability)) with
            | Some v => "reach " +:+ numberToString v +:+ " ft."
            | None => "reach 5 ft."
            end in
          [ wide ("<p><strong>" +:+ attackTypeLabel +:+ ":</strong> " +:+ attackBonus
                  +:+ " to hit, " +:+ range +:+ ", one "
                  +:+ orElse (TargetData.type (ParsedAbility.target ability)) "creature"
                  +:+ ".</p>") ]
    | None => []
    end in
  let damageLine : list Text :=
    if 0 <? length (ParsedAbility.damage ability) then
      let dmgParts :=
        join " plus "
          ((λ d, DamageData.formula d +:+ " " +:+ DamageData.type d +:+ " damage")
           <$> ParsedAbility.damage ability) in
      [ wide ("<p><strong>Hit:</strong> " +:+ dmgParts +:+ ".</p>") ]
    else [] in
  let dcText (save : SaveData.t) :=
    match SaveData.dc save with
    | Some dc => numberToString dc
    | None => "null"
    end in
  let saveLine : list Text :=
    match ParsedAbility.saves ability, ParsedAbility.conditions ability with
    | save :: _, cond :: _ =>
        [ wide ("<p>The target must succeed on a DC " +:+ dcText save +:+ " ")
          ++ toUpperCase (SaveData.ability save)
          ++ wide (" saving throw or be <strong>" +:+ ConditionData.name cond
                   +:+ "</strong>"
                   +:+ (if default false (ConditionData.saveEnds cond)
                        then " (save ends at end of turn)" else "")
                   +:+ ".</p>") ]
    | save :: _, [] =>
        [ wide ("<p>DC " +:+ dcText save +:+ " ") ++ toUpperCase (SaveData.ability save)
          ++ wide " saving throw.</p>" ]
    | [], _ => []
    end in
  let conditionLines : list Text :=
    cond ← ParsedAbility.conditions ability;
    if bool_decide (ConditionData.name cond = "dazed")
    then [ wide "<p><strong>Dazed:</strong> A dazed creature can only take an action, a bonus action, OR move on their turn - not all three.</p>" ]
    else [] in
  let parts := attackLine ++ damageLine ++ saveLine ++ conditionLines in
  if 0 <? length parts then joinText (wide (String "010" "")) parts
  else wide ("<p>" +:+ ParsedAbility.name ability +:+ "</p>").

(** [/(\d+)d(\d+)(?:\s*\+\s*(\d+))?/] *)
Definition dicePattern : RegExp.t :=
  RegExp.mk (Group 1 (Plus Digit) ⋅⋅ Lit "d" ⋅⋅ Group 2 (Plus Digit)
             ⋅⋅ Opt (Star Space ⋅⋅ Lit "+" ⋅⋅ Star Space ⋅⋅ Group 3 (Plus Digit)))
    false false.

Definition generateActivityDamageParts (ability : ParsedAbility.t) : list DamagePart.t :=
  (λ dmg,
     match firstMatch dicePattern (DamageData.formula dmg) with
     | Some m =>
         DamagePart.mk (Some (parseInt (default "" (group m 1))))
           (Some (parseInt (default "" (group m 2))))
           (default "" (group m 3))
           [DamageData.type dmg] false "" None
     | None =>
         DamagePart.mk None None "" [DamageData.type dmg] true (DamageData.formula dmg) None
     end) <$> ParsedAbility.damage ability.

Definition isMelee (ability : ParsedAbility.t) : bool :=
  bool_decide (ParsedAbility.attackType ability = Some "msak")
  || bool_decide (ParsedAbility.attackType ability = Some "mwak").

Definition activationType (ability : ParsedAbility.t) : string :=
  orElse (ActivationData.type (ParsedAbility.activation ability)) "action".
Definition activationValue (ability : ParsedAbility.t) : Z :=
  let cost := ActivationData.cost (ParsedAbility.activation ability) in
  if (cost =? 0)%Z then 1%Z else cost.
Definition concentration (ability : ParsedAbility.t) : bool :=
  default false (DurationData.concentration (ParsedAbility.duration ability)).
Definition durationUnits (ability : ParsedAbility.t) : string :=
  orElse (DurationData.units (ParsedAbility.duration ability)) "inst".
Definition rangeUnits (ability : ParsedAbility.t) : string :=
  if isMelee ability then "touch"
  else orElse (RangeData.units (ParsedAbility.range ability)) "ft".
Definition affectsCount (ability : ParsedAbility.t) : string :=
  numberToString
    (default (Int 1) (truthyNumber (TargetData.value (ParsedAbility.target ability)))).
Definition affectsType (ability : ParsedAbility.t) : string :=
  orElse (TargetData.type (ParsedAbility.target ability)) "creature".

Definition generateAttackActivity (ability : ParsedAbility.t) (effectIds : list string)
  : Activity.t :=
  let isSpell := bool_decide (ParsedAbility.type ability = SPELL_ATTACK) in
  let effectRefs := (λ id, EffectRef.mk id None) <$> effectIds in
  let attackBonus := truthyNumber (ParsedAbility.attackBonus ability) in
  Activity.mk "dnd5eactivity000" "attack"
    (activationType ability) (activationValue ability)
    (concentration ability) (durationUnits ability)
    effectRefs
    (rangeUnits ability) (affectsCount ability) (affectsType ability)
    (Some (AttackData.mk
             (match attackBonus with Some b => numberToString b | None => "" end)
             (bool_decide (is_Some attackBonus))
             (if isMelee ability then "melee" else "ranged")
             (if isSpell then "spell" else "weapon")))
    None
    (generateActivityDamageParts ability)
    None None.

Definition generateSaveActivity (ability : ParsedAbility.t) (isConditionOnly : bool)
    (effectIds : list string) : Exn Activity.t :=
  let? save := defined "ability" (head (ParsedAbility.saves ability)) in
  let effectRefs := (λ id, EffectRef.mk id (Some false)) <$> effectIds in
  Ok (Activity.mk "dnd5eactivity100" "save"
        (activationType ability) (activationValue ability)
        (concentration ability) (durationUnits ability)
        effectRefs
        (rangeUnits ability) (affectsCount ability) (affectsType ability)
        None
        (Some (if isConditionOnly then "none" else "half"))
        (if isConditionOnly then
           [ DamagePart.mk None None ""
               (match ParsedAbility.damage ability with
                | d :: _ => [DamageData.type d]
                | [] => []
                end)
               false "" (Some 1%Z) ]
         else generateActivityDamageParts ability)
        (Some [SaveData.ability save])
        (Some (match SaveData.dc save with
               | Some dc => numberToString dc
               | None => "null"
               end))).

Definition generateActivities (ability : ParsedAbility.t) (effectIds : list string)
  : Exn (gmap string Activity.t) :=
  let activities : gmap string Activity.t := ∅ in
  let hasAttack := bool_decide (ParsedAbility.type ability = SPELL_ATTACK)
                   || bool_decide (ParsedAbility.type ability = WEAPON_ATTACK) in
  let hasSave := 0 <? length (ParsedAbility.saves ability) in
  let hasCondition := 0 <? length (ParsedAbility.conditions ability) in
  let activities :=
    if hasAttack
    then <["dnd5eactivity000" := generateAttackActivity ability effectIds]> activities
    else activities in
  if hasSave then
    let isConditionOnly := hasAttack && hasCondition in
    let? saveActivity := generateSaveActivity ability isConditionOnly effectIds in
    Ok (<["dnd5eactivity100" := saveActivity]> activities)
  else Ok activities.

Definition generateSystemData (ability : ParsedAbility.t) (itemType : string)
    (effectIds : list string) : Exn SystemData.t :=
  let description := generateDescription ability in
  let? activities := generateActivities ability effectIds in
  Ok (SystemData.mk (Built description) (Built activities)
        (bool_decide (itemType = "weapon")) []).

Definition generateItemData (ability : ParsedAbility.t) (effectIds : list string)
  : M (Exn FoundryItemData.t) :=
  let itemType := determineItemType (ParsedAbility.type ability) in
  let* id := generateFoundryId in
  ret (let? system := generateSystemData ability itemType effectIds in
       Ok (FoundryItemData.mk id (ParsedAbility.name ability) itemType
             (getIconPath (ParsedAbility.type ability)) system [] [])).

Definition generateEffects (ability : ParsedAbility.t) (effectIds : list string)
  : M (list ActiveEffectData.t) :=
  EffectGenerator.generateActiveEffects ability (Some effectIds).

Definition generateBasicMacro (ability : ParsedAbility.t) : MacroData.t :=
  MacroData.mk (removeWhitespace (ParsedAbility.name ability)) "script" "global"
    (getIconPath (ParsedAbility.type ability)).

Definition generateMacros (ability : ParsedAbility.t) : list MacroData.t :=
  if (AutomationComplexity.MODERATE <=? ParsedAbility.complexity ability)%Z
  then [generateBasicMacro ability]
  else [].

Definition generateFlags (ability : ParsedAbility.t) : Exn Fields.t :=
  FlagGenerator.generateMidiQOLFlags ability.

Definition generateAutomation (ability : ParsedAbility.t) : M (Exn AutomationResult.t) :=
  let* effectIds := generateEffectIds ability in
  let* effects := generateEffects ability effectIds in
  let* item := generateItemData ability effectIds in
  ret (let? item := item in
       let macros := generateMacros ability in
       let? flags := generateFlags ability in
       Ok (AutomationResult.mk item effects macros flags
             (ParsedAbility.complexity ability))).

End RuleEngine.

(* ===================================================================== *)
(** ** automation/complex-ability-parser.ts *)
(* ===================================================================== *)

Module EffectStep.
Record t := mk {
  step : Z;
  action : string;
  condition : option string;
  timing : string;
  linkedTo : option string;
  endCondition : option string
}.
End EffectStep.

Module LinkedEffect.
Record t := mk { trigger : string; sequence : list EffectStep.t }.
End LinkedEffect.

Module AutomationStrategy.
Record t := mk {
  primary : string;
  hooks : list string;
  macros : list string;
  effects : list string
}.
End AutomationStrategy.

(** [EnhancedAbilityData extends ParsedAbility]: the inherited fields are
    those of [ability]. *)
Module EnhancedAbilityData.
Record t := mk {
  ability : ParsedAbility.t;
  linkedEffects : list LinkedEffect.t;
  automation : AutomationStrategy.t;
  professionalFlags : Fields.t
}.
Definition complexity (e : t) : Z := ParsedAbility.complexity (ability e).
Definition requirements (e : t) : list AbilityRequirement.t :=
  ParsedAbility.requirements (ability e).
Definition type (e : t) : AbilityType := ParsedAbility.type (ability e).
End EnhancedAbilityData.

Module ComplexAbilityParser.

Import RegExp.

(** [/(?:leaps?|jumps?) at least (\d+) (?:feet|ft\.?) (?:toward|towards?) (?:a )?target/i] *)
Definition movementPattern : RegExp.t :=
  RegExp.mk (Alt (Lit "leap" ⋅⋅ Opt (Lit "s")) (Lit "jump" ⋅⋅ Opt (Lit "s"))
             ⋅⋅ Lit " at least " ⋅⋅ Group 1 (Plus Digit) ⋅⋅ Lit " "
             ⋅⋅ Alt (Lit "feet") (Lit "ft" ⋅⋅ Opt (Lit ".")) ⋅⋅ Lit " "
             ⋅⋅ Alt (Lit "toward") (Lit "toward" ⋅⋅ Opt (Lit "s")) ⋅⋅ Lit " "
             ⋅⋅ Opt (Lit "a ") ⋅⋅ Lit "target")
    true false.

(** [/can see|within (?:sight|line of sight)/i] *)
Definition visibilityPattern : RegExp.t :=
  RegExp.mk (Alt (Lit "can see")
               (Lit "within " ⋅⋅ Alt (Lit "sight") (Lit "line of sight")))
    true false.

(** [/(?:when|if) (?:the owlbear|you) takes? damage/i] *)
Definition damageTriggerPattern : RegExp.t :=
  RegExp.mk (Alt (Lit "when") (Lit "if") ⋅⋅ Lit " "
             ⋅⋅ Alt (Lit "the owlbear") (Lit "you") ⋅⋅ Lit " take" ⋅⋅ Opt (Lit "s")
             ⋅⋅ Lit " damage")
    true false.

(** [/\(Recharge (\d+)(?:-(\d+))?\)/i] *)
Definition rechargePattern : RegExp.t :=
  RegExp.mk (Lit "(Recharge " ⋅⋅ Group 1 (Plus Digit)
             ⋅⋅ Opt (Lit "-" ⋅⋅ Group 2 (Plus Digit)) ⋅⋅ Lit ")")
    true false.

(** [match[2] || 6], inside a template string. *)
Definition orSix (g : option string) : string :=
  match g with
  | Some s => if bool_decide (s = "") then "6" else s
  | None => "6"
  end.

Definition parseRequirements (text : string) : list AbilityRequirement.t :=
  let movement :=
    match firstMatch movementPattern text with
    | Some movementMatch =>
        let distance := default "" (group movementMatch 1) in
        [ AbilityRequirement.mk "movement" ("leap_distance >= " +:+ distance)
            ("Must leap at least " +:+ distance +:+ " feet toward target")
            "preAttackRoll" ]
    | None => []
    end in
  let visibility :=
    if test visibilityPattern text
    then [ AbilityRequirement.mk "visibility" "line_of_sight"
             "Must have line of sight to target" "preTargeting" ]
    else [] in
  let trigger :=
    if test damageTriggerPattern text
    then [ AbilityRequirement.mk "trigger" "takes_damage"
             "Triggered when taking damage" "onDamaged" ]
    else [] in
  let recharge :=
    match firstMatch rechargePattern text with
    | Some rechargeMatch =>
        let lo := default "" (group rechargeMatch 1) in
        let hi := orSix (group rechargeMatch 2) in
        [ AbilityRequirement.mk "recharge" ("recharge_" +:+ lo +:+ "_" +:+ hi)
            ("Recharges on " +:+ lo +:+ "-" +:+ hi) "preItemRoll" ]
    | None => []
    end in
  movement ++ visibility ++ trigger ++ recharge.

(** [/hits? them with.*then.*saving throw/i] *)
Definition attackThenSavePattern : RegExp.t :=
  RegExp.mk (Lit "hit" ⋅⋅ Opt (Lit "s") ⋅⋅ Lit " them with" ⋅⋅ Star AnyChar
             ⋅⋅ Lit "then" ⋅⋅ Star AnyChar ⋅⋅ Lit "saving throw")
    true false.

Definition parseLinkedEffects (text : string) : list LinkedEffect.t :=
  (if includes text "grappled" && includes text "restrained"
      && includes text "damage at the start"
   then [ LinkedEffect.mk "save_failure"
            [ EffectStep.mk 1 "apply_condition" (Some "grappled") "immediate" None None;
              EffectStep.mk 2 "apply_condition" (Some "restrained") "immediate"
                (Some "grappled") None;
              EffectStep.mk 3 "ongoing_damage" None "start_of_turn"
                (Some "grappled") (Some "grapple_ends") ] ]
   else [])
  ++ (if test attackThenSavePattern text
      then [ LinkedEffect.mk "successful_attack"
               [ EffectStep.mk 1 "validate_requirement" (Some "movement_distance")
                   "pre_attack" None None;
                 EffectStep.mk 2 "force_save" None "post_hit"
                   (Some "movement_validation") None;
                 EffectStep.mk 3 "apply_condition" (Some "prone") "post_save_failure"
                   None None ] ]
      else []).

(** [/recharge \d+/i] *)
Definition rechargeWordPattern : RegExp.t :=
  RegExp.mk (Lit "recharge " ⋅⋅ Plus Digit) true false.

Definition determineAutomationStrategy (ability : ParsedAbility.t) : AutomationStrategy.t :=
  let raw := ParsedAbility.raw ability in
  let multiStep := includes raw "then" || includes raw "until" in
  let recharges := test rechargeWordPattern raw in
  let reaction := bool_decide (ParsedAbility.type ability = REACTION) in
  let ongoing := includes raw "at the start of each" || includes raw "until" in
  AutomationStrategy.mk
    (if multiStep then "multi_step_workflow" else "workflow_integration")
    ((if multiStep then ["preItemRoll"; "postAttackRoll"; "postSave"; "preActiveEffects"]
      else [])
     ++ (if recharges then ["preItemRoll"; "postItemRoll"] else [])
     ++ (if reaction then ["isDamaged"; "preAttackRoll"] else [])
     ++ (if ongoing then ["turnStart"; "combatStart"] else []))
    ((if recharges then ["recharge_management"] else [])
     ++ (if reaction then ["reaction_trigger"] else []))
    (if ongoing then ["persistent_tracking"] else []).

Definition extractReactionTrigger (text : string) : string :=
  if includes text "takes damage" then "isDamaged"
  else if includes text "attacked" then "isAttacked"
  else if includes text "spell cast" then "spellCast"
  else "manual".

(** [/leap.*feet/i] *)
Definition leapPattern : RegExp.t :=
  RegExp.mk (Lit "leap" ⋅⋅ Star AnyChar ⋅⋅ Lit "feet") true false.

Definition generateItemCondition (text : string) : option string :=
  let conditions :=
    (if includes text "can see"
     then ["game.canvas.sight.testVisibility(@token, @target)"] else [])
    ++ (if test leapPattern text
        then [ "@token.getFlag(" +:+ quoted "automancy" +:+ ", "
               +:+ quoted "hasLeaped" +:+ ")" ] else []) in
  if 0 <? length conditions then Some (join " && " conditions) else None.

Definition determineSpecialDuration (text : string) : list string :=
  (if includes text "until this grapple ends" then ["isGrappled"] else [])
  ++ (if includes text "start of each turn" then ["turnStart"] else [])
  ++ (if includes text "end of turn" then ["turnEnd"] else []).

Definition generateProfessionalFlags (ability : ParsedAbility.t) : Fields.t :=
  let raw := ParsedAbility.raw ability in
  let flags : Fields.t :=
    [("chris-premades",
      JObj [("info", JObj [ ("name", JStr (ParsedAbility.name ability));
                            ("version", JStr "2.0.0");
                            ("hasAnimation", JBool false) ])])] in
  let flags :=
    if bool_decide (ParsedAbility.type ability = REACTION)
    then Fields.set "gambits-premades"
           (JObj [ ("isReaction", JBool true);
                   ("reactionTrigger", JStr (extractReactionTrigger raw)) ]) flags
    else flags in
  let flags :=
    Fields.set "midi-qol"
      (JObj [ ("itemCondition",
               match generateItemCondition raw with
               | Some c => JStr c
               | None => JNull
               end);
              ("effectActivation",
               JBool (AutomationComplexity.MODERATE <=? ParsedAbility.complexity ability)%Z);
              ("rollAttackPerTarget",
               JStr (match TargetData.value (ParsedAbility.target ability) with
                     | Some v => if truthy v && greater v 1 then "default" else "never"
                     | None => "never"
                     end)) ]) flags in
  Fields.set "dae"
    (JObj [ ("alwaysActive", JBool (bool_decide (ParsedAbility.type ability = PASSIVE)));
            ("specialDuration", jstrings (determineSpecialDuration raw)) ]) flags.

Definition assessEnhancedComplexity (enhanced : EnhancedAbilityData.t) : Z :=
  let complexity := EnhancedAbilityData.complexity enhanced in
  let complexity :=
    if 0 <? length (EnhancedAbilityData.requirements enhanced)
    then Z.max complexity AutomationComplexity.MODERATE else complexity in
  let complexity :=
    if 0 <? length (EnhancedAbilityData.linkedEffects enhanced)
    then Z.max complexity AutomationComplexity.COMPLEX else complexity in
  let complexity :=
    if bool_decide (EnhancedAbilityData.type enhanced = REACTION)
    then Z.max complexity AutomationComplexity.REACTION else complexity in
  let complexity :=
    if bool_decide (AutomationStrategy.primary (EnhancedAbilityData.automation enhanced)
                    = "multi_step_workflow")
    then Z.max complexity AutomationComplexity.COMPLEX else complexity in
  complexity.

(** [{...ability, requirements: r}] *)
Definition withRequirements (r : list AbilityRequirement.t) (a : ParsedAbility.t)
  : ParsedAbility.t :=
  ParsedAbility.mk (ParsedAbility.name a) (ParsedAbility.raw a) (ParsedAbility.type a)
    (ParsedAbility.attackType a) (ParsedAbility.attackBonus a)
    (ParsedAbility.activation a) (ParsedAbility.target a) (ParsedAbility.damage a)
    (ParsedAbility.saves a) (ParsedAbility.effects a) (ParsedAbility.conditions a)
    (ParsedAbility.resources a) (ParsedAbility.duration a) (ParsedAbility.range a)
    (ParsedAbility.complexity a) r.

Definition parseComplexAbility (ability : ParsedAbility.t) : EnhancedAbilityData.t :=
  let enhanced :=
    EnhancedAbilityData.mk
      (withRequirements (parseRequirements (ParsedAbility.raw ability)) ability)
      (parseLinkedEffects (ParsedAbility.raw ability))
      (determineAutomationStrategy ability)
      (generateProfessionalFlags ability) in
  EnhancedAbilityData.mk
    (ParsedAbility.setComplexity (assessEnhancedComplexity enhanced)
       (EnhancedAbilityData.ability enhanced))
    (EnhancedAbilityData.linkedEffects enhanced)
    (EnhancedAbilityData.automation enhanced)
    (EnhancedAbilityData.professionalFlags enhanced).

End ComplexAbilityParser.

(* ===================================================================== *)
(** ** phase2-converter.ts *)
(* ===================================================================== *)

(** What the orchestrator reads from the outputs of the enhancement
    passes.  A macro is a block of script text. *)
Module ConditionSystem.
Record t := mk {
  effects : list ActiveEffectData.t;
  macros : list string;
  flags : option Fields.t
}.
End ConditionSystem.

Module MacroIntegration.
Record t := mk { macros : list string; flags : option Fields.t }.
End MacroIntegration.

Module RechargeSystem.
Record t := mk {
  hasRecharge : bool;
  itemUpdates : option Fields.t;
  macros : option (list string);
  flags : option Fields.t
}.
End RechargeSystem.

Module ReactionSystem.
Record t := mk {
  isReaction : bool;
  macros : option (list string);
  flags : option Fields.t
}.
End ReactionSystem.

Module OngoingSystem.
Record t := mk {
  hasOngoingEffects : bool;
  effects : option (list ActiveEffectData.t);
  macros : option (list string);
  flags : option Fields.t
}.
End OngoingSystem.

(** The analyzer passes the orchestrator calls, each on the enhanced
    ability; a pass may read the environment and may throw. *)
Module Subsystems.
Record t := mk {
  conditionEngine : EnhancedAbilityData.t → M (Exn ConditionSystem.t);
  professionalFlags : EnhancedAbilityData.t → M (Exn Fields.t);
  macroSystem : EnhancedAbilityData.t → M (Exn MacroIntegration.t);
  rechargeSystem : EnhancedAbilityData.t → M (Exn RechargeSystem.t);
  reactionSystem : EnhancedAbilityData.t → M (Exn ReactionSystem.t);
  ongoingSystem : EnhancedAbilityData.t → M (Exn OngoingSystem.t);
  movementAttackSystem : EnhancedAbilityData.t → M (Exn (option string))
}.
End Subsystems.

Module Phase2EnhancementResult.
Record t := mk {
  enhancedItem : FoundryItemData.t;
  finalComplexity : Z;
  professionalGrade : Z;
  systemsApplied : list string;
  macros : list string;
  additionalEffects : list ActiveEffectData.t;
  professionalFlags : Fields.t
}.
End Phase2EnhancementResult.

Module Phase2Enhancement.
Record t := mk {
  applied : bool;
  reason : option string;
  complexity : option Z;
  professionalGrade : option Z;
  automationSystems : option (list string);
  macros : option (list string);
  additionalEffects : option (list ActiveEffectData.t);
  professionalFlags : option Fields.t
}.
Definition notApplied (reason : string) : t :=
  mk false (Some reason) None None None None None None.
End Phase2Enhancement.

Module EnhancedConversionResult.
Record t := mk {
  success : bool;
  error : option string;
  originalRaw : string;
  originalParsed : option ParsedAbility.t;
  automation : option AutomationResult.t;
  foundryItem : option FoundryItemData.t;
  parsedAbility : option ParsedAbility.t;
  phase2Enhancement : Phase2Enhancement.t
}.
End EnhancedConversionResult.

Module Phase2Converter.

(** Code that reads the environment and may throw. *)
Definition bindMX {A B} (m : M (Exn A)) (k : A → M (Exn B)) : M (Exn B) :=
  let* r := m in
  match r with
  | Ok a => k a
  | Throw e => ret (Throw e)
  end.

Notation "'let!' x ':=' m 'in' k" := (bindMX m (λ x, k))
  (at level 10, x name, m at level 100, k at level 200, only parsing).

(** [JSON.parse(JSON.stringify(v))], as the value reads afterwards where
    [v] stood: a function and [undefined] are dropped from an object (the
    field then reads [undefined]) and become [null] in an array; an
    infinity and NaN become [null]. *)
Fixpoint jsonClone (v : Json) : Json :=
  match v with
  | JUndefined | JFunction _ => JUndefined
  | JInfinity | JNegInfinity | JNaN => JNull
  | JArr items =>
      JArr ((λ x, match jsonClone x with JUndefined => JNull | y => y end) <$> items)
  | JObj fields =>
      JObj ((fix cloneFields (l : list (string * Json)) : list (string * Json) :=
               match l with
               | [] => []
               | (k, x) :: l' =>
                   match jsonClone x with
                   | JUndefined => cloneFields l'
                   | y => (k, y) :: cloneFields l'
                   end
               end) fields)
  | _ => v
  end.

Definition cloneFields (o : Fields.t) : Fields.t :=
  match jsonClone (JObj o) with
  | JObj o' => o'
  | _ => []
  end.

Definition cloneArray (items : list Json) : list Json :=
  match jsonClone (JArr items) with
  | JArr items' => items'
  | _ => []
  end.

(** A number or [null], after the round trip. *)
Definition cloneNumber (n : option number) : option number :=
  match n with
  | Some (Int z) => Some (Int z)
  | _ => None
  end.

Definition cloneDamagePart (part : DamagePart.t) : DamagePart.t :=
  DamagePart.mk (cloneNumber (DamagePart.number part))
    (cloneNumber (DamagePart.denomination part))
    (DamagePart.bonus part) (DamagePart.types part) (DamagePart.customEnabled part)
    (DamagePart.customFormula part) (DamagePart.scalingNumber part).

(** The other fields of an activity hold strings, booleans and integers. *)
Definition cloneActivity (a : Activity.t) : Activity.t :=
  Activity.mk (Activity._id a) (Activity.type a) (Activity.activationType a)
    (Activity.activationValue a) (Activity.concentration a) (Activity.durationUnits a)
    (Activity.effects a) (Activity.rangeUnits a) (Activity.affectsCount a)
    (Activity.affectsType a) (Activity.attack a) (Activity.damageOnSave a)
    (cloneDamagePart <$> Activity.damageParts a)
    (Activity.saveAbility a) (Activity.saveDcFormula a).

Definition cloneEffect (e : ActiveEffectData.t) : ActiveEffectData.t :=
  ActiveEffectData.mk (ActiveEffectData._id e) (ActiveEffectData.name e)
    (jsonClone (ActiveEffectData.img e)) (ActiveEffectData.changes e)
    (cloneFields (ActiveEffectData.duration e))
    (cloneFields (ActiveEffectData.flags e)) (cloneArray (ActiveEffectData.statuses e))
    (ActiveEffectData.transfer e) (ActiveEffectData.disabled e).

Definition cloneSlot {A} (f : A → A) (slot : Slot A) : Slot A :=
  match slot with
  | Built a => Built (f a)
  | Assigned v => Assigned (jsonClone v)
  end.

Definition cloneItem (item : FoundryItemData.t) : FoundryItemData.t :=
  let system := FoundryItemData.system item in
  FoundryItemData.mk (FoundryItemData._id item) (FoundryItemData.name item)
    (FoundryItemData.type item) (FoundryItemData.img item)
    (SystemData.mk (cloneSlot id (SystemData.description system))
       (cloneSlot (fmap cloneActivity) (SystemData.activities system))
       (SystemData.weaponFields system) (cloneFields (SystemData.assigned system)))
    (cloneEffect <$> FoundryItemData.effects item)
    (cloneFields (FoundryItemData.flags item)).

(** [Object.assign(system, itemUpdates)]: every field of [itemUpdates],
    in order, is written to [system], over the field of that name if there
    is one. *)
Definition assignField (system : SystemData.t) (field : string * Json) : SystemData.t :=
  let '(key, value) := field in
  if bool_decide (key = "description")
  then SystemData.mk (Assigned value) (SystemData.activities system)
         (SystemData.weaponFields system) (SystemData.assigned system)
  else if bool_decide (key = "activities")
  then SystemData.mk (SystemData.description system) (Assigned value)
         (SystemData.weaponFields system) (SystemData.assigned system)
  else SystemData.mk (SystemData.description system) (SystemData.activities system)
         (SystemData.weaponFields system) (Fields.set key value (SystemData.assigned system)).

Definition assignSystem (system : SystemData.t) (itemUpdates : Fields.t) : SystemData.t :=
  foldl assignField system itemUpdates.

(** The first pass of a merge, into the empty object: a field is kept
    unless it holds [undefined] or an empty object; [Object.keys(null)]
    throws. *)
Fixpoint mergeIntoEmpty (source : Fields.t) (result : Fields.t) : Exn Fields.t :=
  match source with
  | [] => Ok result
  | (key, sourceValue) :: source' =>
      match sourceValue with
      | JUndefined => mergeIntoEmpty source' result
      | JNull => Throw (ErrorObj "Cannot convert undefined or null to object")
      | JObj [] => mergeIntoEmpty source' result
      | _ => mergeIntoEmpty source' (Fields.set key sourceValue result)
      end
  end.

(** One round of [deepMergeFlags]: the fields of the object [source] merged
    into [result]. *)
Fixpoint mergeInto (source : Json) (result : Fields.t) : Exn Fields.t :=
  match source with
  | JObj fields =>
      (fix keys (l : list (string * Json)) (result : Fields.t) : Exn Fields.t :=
         match l with
         | [] => Ok result
         | (key, sourceValue) :: l' =>
             match Fields.get key result, sourceValue with
             | JObj existing, JObj [] => keys l' result
             | JObj existing, JObj (_ :: _) =>
                 let? start := mergeIntoEmpty existing [] in
                 let? merged := mergeInto sourceValue start in
                 keys l' (Fields.set key (JObj merged) result)
             | _, JUndefined => keys l' result
             | _, JNull => Throw (ErrorObj "Cannot convert undefined or null to object")
             | _, JObj [] => keys l' result
             | _, _ => keys l' (Fields.set key sourceValue result)
             end
         end) fields result
  | _ => Ok result
  end.

(** [deepMergeFlags(...flagSources)]; a source that is [undefined] is
    skipped. *)
Fixpoint mergeSources (flagSources : list (option Fields.t)) (result : Fields.t)
  : Exn Fields.t :=
  match flagSources with
  | [] => Ok result
  | None :: rest => mergeSources rest result
  | Some source :: rest =>
      let? result' := mergeInto (JObj source) result in
      mergeSources rest result'
  end.
Definition deepMergeFlags (flagSources : list (option Fields.t)) : Exn Fields.t :=
  mergeSources flagSources [].

Definition getAppliedSystems (conditionSystem : ConditionSystem.t)
    (macroIntegration : MacroIntegration.t) (rechargeSystem : RechargeSystem.t)
    (reactionSystem : ReactionSystem.t) (ongoingSystem : OngoingSystem.t) : list string :=
  (if 0 <? length (ConditionSystem.effects conditionSystem) then ["condition-engine"] else [])
  ++ (if 0 <? length (MacroIntegration.macros macroIntegration)
      then ["macro-templates"] else [])
  ++ (if RechargeSystem.hasRecharge rechargeSystem then ["recharge-automation"] else [])
  ++ (if ReactionSystem.isReaction reactionSystem then ["reaction-tracking"] else [])
  ++ (if OngoingSystem.hasOngoingEffects ongoingSystem then ["ongoing-effects"] else []).

(** [{...v}] for the value under [flags.automancy]. *)
Definition spreadOf (v : Json) : Fields.t :=
  match v with
  | JObj fields => fields
  | JArr items => imap (λ i x, (numberToString (Int (Z.of_nat i)), x)) items
  | JStr s => imap (λ i u, (numberToString (Int (Z.of_nat i)), JStr [u])) s
  | _ => []
  end.

Definition integrateAllSystems (baseItem : FoundryItemData.t)
    (conditionSystem : ConditionSystem.t) (professionalFlags : Fields.t)
    (macroIntegration : MacroIntegration.t) (rechargeSystem : RechargeSystem.t)
    (reactionSystem : ReactionSystem.t) (ongoingSystem : OngoingSystem.t)
  : M (Exn FoundryItemData.t) :=
  λ w,
    let enhancedItem := cloneItem baseItem in
    let result :=
      let? flags :=
        deepMergeFlags
          [ Some (FoundryItemData.flags enhancedItem);
            Some professionalFlags;
            MacroIntegration.flags macroIntegration;
            RechargeSystem.flags rechargeSystem;
            ReactionSystem.flags reactionSystem;
            OngoingSystem.flags ongoingSystem;
            ConditionSystem.flags conditionSystem ] in
      let system := FoundryItemData.system enhancedItem in
      let system :=
        match RechargeSystem.itemUpdates rechargeSystem with
        | Some itemUpdates =>
            if RechargeSystem.hasRecharge rechargeSystem
            then assignSystem system itemUpdates
            else system
        | None => system
        end in
      let effects := FoundryItemData.effects enhancedItem in
      let effects :=
        if 0 <? length (ConditionSystem.effects conditionSystem) then
          let hasExistingConditionEffects :=
            existsb (λ e, 0 <? length (ActiveEffectData.statuses e)) effects in
          if negb hasExistingConditionEffects
          then effects ++ ConditionSystem.effects conditionSystem
          else effects
        else effects in
      let effects :=
        match OngoingSystem.effects ongoingSystem with
        | Some ongoing =>
            if OngoingSystem.hasOngoingEffects ongoingSystem
            then effects ++ ongoing else effects
        | None => effects
        end in
      let automancy :=
        Fields.spread (spreadOf (Fields.get "automancy" flags))
          [ ("phase2", JBool true);
            ("professionalGrade", JBool true);
            ("enhancementTimestamp", JStr (isoTime w));
            ("systemsIntegrated",
             jstrings (getAppliedSystems conditionSystem macroIntegration rechargeSystem
                         reactionSystem ongoingSystem));
            ("requiresNoManualWork", JBool true) ] in
      Ok (FoundryItemData.mk (FoundryItemData._id enhancedItem)
            (FoundryItemData.name enhancedItem) (FoundryItemData.type enhancedItem)
            (FoundryItemData.img enhancedItem) system effects
            (Fields.set "automancy" (JObj automancy) flags)) in
    (result, w).

Definition calculateFinalComplexity (analysis : EnhancedAbilityData.t)
    (hasConditions hasMacros hasRecharge isReaction hasOngoing : bool) : Z :=
  let complexity := EnhancedAbilityData.complexity analysis in
  let complexity :=
    if hasConditions then Z.max complexity AutomationComplexity.MODERATE else complexity in
  let complexity :=
    if hasMacros || hasOngoing
    then Z.max complexity AutomationComplexity.COMPLEX else complexity in
  let complexity :=
    if isReaction then Z.max complexity AutomationComplexity.REACTION else complexity in
  let complexity :=
    if (0 <? length (EnhancedAbilityData.requirements analysis))
       || (0 <? length (EnhancedAbilityData.linkedEffects analysis))
    then Z.max complexity AutomationComplexity.COMPLEX else complexity in
  complexity.

Module Metrics.
Record t := mk {
  flagQuality : nat;
  macroQuality : nat;
  automationCoverage : Q;
  errorHandling : bool;
  performanceOptimization : bool
}.
End Metrics.

Definition flagPoints (metrics : Metrics.t) : Z :=
  if 4 <=? Metrics.flagQuality metrics then 3
  else if 2 <=? Metrics.flagQuality metrics then 2
  else if 1 <=? Metrics.flagQuality metrics then 1
  else 0.

Definition macroPoints (metrics : Metrics.t) : Z :=
  if 3 <=? Metrics.macroQuality metrics then 2
  else if 1 <=? Metrics.macroQuality metrics then 1
  else 0.

Definition coveragePoints (metrics : Metrics.t) : Z :=
  if Qle_bool (9 # 10) (Metrics.automationCoverage metrics) then 3
  else if Qle_bool (7 # 10) (Metrics.automationCoverage metrics) then 2
  else if Qle_bool (5 # 10) (Metrics.automationCoverage metrics) then 1
  else 0.

Definition assessProfessionalGrade (item : FoundryItemData.t) (metrics : Metrics.t) : Z :=
  let grade := 0%Z in
  let grade := (grade + flagPoints metrics)%Z in
  let grade := (grade + macroPoints metrics)%Z in
  let grade := (grade + coveragePoints metrics)%Z in
  let grade := if Metrics.errorHandling metrics then (grade + 1)%Z else grade in
  let grade := if Metrics.performanceOptimization metrics then (grade + 1)%Z else grade in
  Z.min grade 10.

(** One counted feature: [if (xs?.length > 0) { total += n; automated += n }]. *)
Definition countFeature {A} (xs : list A) (counts : nat * nat) : nat * nat :=
  if 0 <? length xs
  then (fst counts + length xs, snd counts + length xs)
  else counts.

(** The counts are integers, and the quotient of two integers is taken
    exactly. *)
Definition calculateAutomationCoverage (analysis : EnhancedAbilityData.t) : Q :=
  let ability := EnhancedAbilityData.ability analysis in
  let counts := (0, 0) in
  let counts := countFeature (ParsedAbility.damage ability) counts in
  let counts := countFeature (ParsedAbility.saves ability) counts in
  let counts := countFeature (ParsedAbility.effects ability) counts in
  let counts := countFeature (ParsedAbility.conditions ability) counts in
  let counts := countFeature (EnhancedAbilityData.requirements analysis) counts in
  let counts := countFeature (EnhancedAbilityData.linkedEffects analysis) counts in
  let '(totalFeatures, automatedFeatures) := counts in
  if 0 <? totalFeatures
  then Qred (inject_Z (Z.of_nat automatedFeatures) / inject_Z (Z.of_nat totalFeatures))
  else 1%Q.

Definition consolidateAllMacros (conditionSystem : ConditionSystem.t)
    (macroIntegration : MacroIntegration.t) (rechargeSystem : RechargeSystem.t)
    (reactionSystem : ReactionSystem.t) (ongoingSystem : OngoingSystem.t) : list string :=
  ConditionSystem.macros conditionSystem
  ++ MacroIntegration.macros macroIntegration
  ++ default [] (RechargeSystem.macros rechargeSystem)
  ++ default [] (ReactionSystem.macros reactionSystem)
  ++ default [] (OngoingSystem.macros ongoingSystem).

Definition consolidateAllEffects (conditionSystem : ConditionSystem.t)
    (ongoingSystem : OngoingSystem.t) : list ActiveEffectData.t :=
  ConditionSystem.effects conditionSystem
  ++ default [] (OngoingSystem.effects ongoingSystem).

Section Orchestrator.

Variable passes : Subsystems.t.

Definition applyPhase2Enhancement (ability : ParsedAbility.t)
    (foundryItem : FoundryItemData.t) : M (Exn Phase2EnhancementResult.t) :=
  let complexAnalysis := ComplexAbilityParser.parseComplexAbility ability in
  let! conditionSystem := Subsystems.conditionEngine passes complexAnalysis in
  let! professionalFlags := Subsystems.professionalFlags passes complexAnalysis in
  let! macroIntegration := Subsystems.macroSystem passes complexAnalysis in
  let! rechargeSystem := Subsystems.rechargeSystem passes complexAnalysis in
  let! reactionSystem := Subsystems.reactionSystem passes complexAnalysis in
  let! ongoingSystem := Subsystems.ongoingSystem passes complexAnalysis in
  let! movementAttackData := Subsystems.movementAttackSystem passes complexAnalysis in
  let! enhancedItem :=
    integrateAllSystems foundryItem conditionSystem professionalFlags macroIntegration
      rechargeSystem reactionSystem ongoingSystem in
  let finalComplexity :=
    calculateFinalComplexity complexAnalysis
      (0 <? length (ConditionSystem.effects conditionSystem))
      (0 <? length (MacroIntegration.macros macroIntegration))
      (RechargeSystem.hasRecharge rechargeSystem)
      (ReactionSystem.isReaction reactionSystem)
      (OngoingSystem.hasOngoingEffects ongoingSystem) in
  let professionalGrade :=
    assessProfessionalGrade enhancedItem
      (Metrics.mk (length professionalFlags)
         (length (MacroIntegration.macros macroIntegration))
         (calculateAutomationCoverage complexAnalysis) true true) in
  ret (Ok (Phase2EnhancementResult.mk enhancedItem finalComplexity professionalGrade
             (getAppliedSystems conditionSystem macroIntegration rechargeSystem
                reactionSystem ongoingSystem)
             (consolidateAllMacros conditionSystem macroIntegration rechargeSystem
                reactionSystem ongoingSystem)
             (consolidateAllEffects conditionSystem ongoingSystem)
             professionalFlags)).

(** The base conversion inside the first [try]. *)
Definition baseConversion (abilityText : string)
  : World → option (Exn (ParsedAbility.t * AutomationResult.t) * World) :=
  λ w,
    match TextAnalyzer.analyzeText abilityText None with
    | None => None
    | Some (Throw e) => Some (Throw e, w)
    | Some (Ok abilityDescription) =>
        let parsed := AbilityDescription.parsed abilityDescription in
        let '(automation, w') := RuleEngine.generateAutomation parsed w in
        Some (let? automation := automation in Ok (parsed, automation), w')
    end.

(** [{ ...automation.item, effects: automation.effects, flags: automation.flags }] *)
Definition baseFoundryItem (automation : AutomationResult.t) : FoundryItemData.t :=
  let item := AutomationResult.item automation in
  FoundryItemData.mk (FoundryItemData._id item) (FoundryItemData.name item)
    (FoundryItemData.type item) (FoundryItemData.img item) (FoundryItemData.system item)
    (AutomationResult.effects automation) (AutomationResult.flags automation).

(** [convertAbility(abilityText)]; [None] only if the matcher's loop does
    not end. *)
Definition convertAbility (abilityText : string)
  : World → option (EnhancedConversionResult.t * World) :=
  λ w,
    match baseConversion abilityText w with
    | None => None
    | Some (Throw err, w') =>
        Some (EnhancedConversionResult.mk false
                (Some (match err with
                       | ErrorObj message => message
                       | OtherValue _ => "Base conversion error"
                       end))
                abilityText None None None None
                (Phase2Enhancement.notApplied "Base analysis failed"), w')
    | Some (Ok (parsed, automation), w') =>
        let foundryItem := baseFoundryItem automation in
        let baseResult (item : FoundryItemData.t) (enhancement : Phase2Enhancement.t) :=
          EnhancedConversionResult.mk true None abilityText (Some parsed)
            (Some automation) (Some item) (Some parsed) enhancement in
        let '(outcome, w'') := applyPhase2Enhancement parsed foundryItem w' in
        Some (tryCatchValue outcome
                (λ enhancedResult,
                   baseResult (Phase2EnhancementResult.enhancedItem enhancedResult)
                     (Phase2Enhancement.mk true None
                        (Some (Phase2EnhancementResult.finalComplexity enhancedResult))
                        (Some (Phase2EnhancementResult.professionalGrade enhancedResult))
                        (Some (Phase2EnhancementResult.systemsApplied enhancedResult))
                        (Some (Phase2EnhancementResult.macros enhancedResult))
                        (Some (Phase2EnhancementResult.additionalEffects enhancedResult))
                        (Some (Phase2EnhancementResult.professionalFlags enhancedResult))))
                (λ error,
                   baseResult foundryItem
                     (Phase2Enhancement.notApplied
                        ("Enhancement failed: " +:+ errorText error))), w'')
    end.

End Orchestrator.

End Phase2Converter.

(* ===================================================================== *)
(** ** automation/professional-flags.ts *)
(* ===================================================================== *)

Module ProfessionalFlags.

Import RegExp.

(** A line break inside a template string. *)
Definition nl : string := String "010" "".

(** [/advantage against (\w+)/i] *)
Definition advantageAgainstPattern : RegExp.t :=
  RegExp.mk (Lit "advantage against " ⋅⋅ Group 1 (Plus WordChar)) true false.

Definition parseAdvantageCondition (text : string) : string :=
  if includes text "advantage on attack rolls" then "always"
  else if includes text "advantage against" then
    match firstMatch advantageAgainstPattern text with
    | Some targetMatch =>
        "@target.actor.system.details.type.value === "
        +:+ quoted (toLowerCase (default "" (group targetMatch 1)))
    | None => "conditional"
    end
  else "conditional".

(** [/(?:leaps?|jumps?) at least (\d+) (?:feet|ft)/i] *)
Definition leapDistancePattern : RegExp.t :=
  RegExp.mk (Alt (Lit "leap" ⋅⋅ Opt (Lit "s")) (Lit "jump" ⋅⋅ Opt (Lit "s"))
             ⋅⋅ Lit " at least " ⋅⋅ Group 1 (Plus Digit) ⋅⋅ Lit " "
             ⋅⋅ Alt (Lit "feet") (Lit "ft"))
    true false.

Definition generateItemCondition (ability : ParsedAbility.t) : option string :=
  let raw := ParsedAbility.raw ability in
  let conditions :=
    (if includes raw "can see"
     then ["game.canvas.sight.testVisibility(@token, @target)"] else [])
    ++ (match firstMatch leapDistancePattern raw with
        | Some distanceMatch =>
            [ "@token.getFlag(" +:+ quoted "automancy" +:+ ", "
              +:+ quoted "leapDistance" +:+ ") >= "
              +:+ default "" (group distanceMatch 1) ]
        | None => []
        end)
    ++ (if includes raw "humanoid"
        then ["@target.actor.system.details.type.value === " +:+ quoted "humanoid"]
        else [])
    ++ (if includes raw "bloodied" || includes raw "half hit points"
        then ["@target.actor.system.attributes.hp.value <= (@target.actor.system.attributes.hp.max / 2)"]
        else []) in
  if 0 <? length conditions then Some (join " && " conditions) else None.

(** Returns [null]: no macro is referenced. *)
Definition generateMacroIntegration (ability : ParsedAbility.t) : option Fields.t := None.

Definition generateMidiQOLProfessionalFlags (ability : ParsedAbility.t) : Fields.t :=
  let raw := ParsedAbility.raw ability in
  let target := ParsedAbility.target ability in
  let midiFlags : Fields.t := [] in
  let midiFlags :=
    match ParsedAbility.saves ability with
    | save :: _ =>
        let midiFlags :=
          Fields.set "saveDC"
            (match SaveData.dc save with Some dc => jnumber dc | None => JNull end)
            midiFlags in
        let midiFlags := Fields.set "saveScaling" (JStr (SaveData.scaling save)) midiFlags in
        let midiFlags :=
          if includes raw "half damage on save"
          then Fields.set "halfdam" (JBool true) midiFlags else midiFlags in
        if includes raw "no damage on save"
        then Fields.set "nodam" (JBool true) midiFlags else midiFlags
    | [] => midiFlags
    end in
  let midiFlags :=
    if bool_decide (ParsedAbility.type ability = WEAPON_ATTACK)
       || bool_decide (ParsedAbility.type ability = SPELL_ATTACK) then
      let midiFlags :=
        Fields.set "rollAttackPerTarget"
          (JStr (match TargetData.value target with
                 | Some v => if truthy v && greater v 1 then "default" else "never"
                 | None => "never"
                 end)) midiFlags in
      if includes raw "critical"
      then Fields.set "critical"
             (JObj [("threshold", jint 20); ("damage", JStr "")]) midiFlags
      else midiFlags
    else midiFlags in
  let midiFlags :=
    if includes raw "advantage on"
    then Fields.set "grants.advantage.attack.all" (JStr (parseAdvantageCondition raw))
           midiFlags
    else midiFlags in
  let midiFlags :=
    match generateItemCondition ability with
    | Some itemCondition =>
        if bool_decide (itemCondition = "") then midiFlags
        else Fields.set "itemCondition" (JStr itemCondition) midiFlags
    | None => midiFlags
    end in
  let midiFlags :=
    match generateMacroIntegration ability with
    | Some macroIntegration => Fields.spread midiFlags macroIntegration
    | None => midiFlags
    end in
  let midiFlags :=
    if existsb (λ e, bool_decide (EffectData.type e = "damage_resistance"))
         (ParsedAbility.effects ability)
    then Fields.set "ignoreTotalCover" (JBool false) midiFlags else midiFlags in
  let midiFlags :=
    if bool_decide (TargetData.type target = "space")
    then Fields.set "rangeTarget" (JStr "template")
           (Fields.set "templateRequired" (JBool true) midiFlags)
    else midiFlags in
  let midiFlags :=
    Fields.set "effectActivation"
      (JBool (AutomationComplexity.MODERATE <=? ParsedAbility.complexity ability)%Z)
      midiFlags in
  let midiFlags :=
    Fields.set "selfTarget" (JBool (bool_decide (TargetData.type target = "self")))
      midiFlags in
  let midiFlags :=
    Fields.set "selfTargetAlways" (JBool (bool_decide (TargetData.type target = "self")))
      midiFlags in
  [("midi-qol", JObj midiFlags)].

Definition generateGenericConfig (ability : ParsedAbility.t) : list Json :=
  let name := ParsedAbility.name ability in
  (match ParsedAbility.saves ability with
   | save :: _ =>
       [ JObj [ ("value", JStr "saveDC");
                ("label", JStr (name +:+ " Save DC"));
                ("type", JStr "number");
                ("default", match SaveData.dc save with
                            | Some dc => jnumber dc
                            | None => JNull
                            end) ] ]
   | [] => []
   end)
  ++ (match ParsedAbility.damage ability with
      | damage :: _ =>
          [ JObj [ ("value", JStr "damageFormula");
                   ("label", JStr (name +:+ " Damage"));
                   ("type", JStr "text");
                   ("default", JStr (DamageData.formula damage)) ] ]
      | [] => []
      end)
  ++ (match RuleEngine.truthyNumber (DurationData.value (ParsedAbility.duration ability)) with
      | Some value =>
          [ JObj [ ("value", JStr "duration");
                   ("label", JStr (name +:+ " Duration"));
                   ("type", JStr "number");
                   ("default", jnumber value) ] ]
      | None => []
      end).

Definition shouldHaveAnimation (ability : ParsedAbility.t) : bool :=
  (0 <? length (ParsedAbility.damage ability))
  || bool_decide (TargetData.type (ParsedAbility.target ability) = "space")
  || bool_decide (ParsedAbility.type ability = SPELL_ATTACK)
  || (AutomationComplexity.COMPLEX <=? ParsedAbility.complexity ability)%Z.

Definition generateAnimationConfig (ability : ParsedAbility.t) : Json :=
  let damageOfType (t : string) :=
    existsb (λ d, bool_decide (DamageData.type d = t)) (ParsedAbility.damage ability) in
  if damageOfType "fire" then JObj [("type", JStr "fire"); ("color", JStr "#ff4500")]
  else if damageOfType "lightning"
  then JObj [("type", JStr "lightning"); ("color", JStr "#00ffff")]
  else if bool_decide (ParsedAbility.type ability = WEAPON_ATTACK)
  then JObj [("type", JStr "physical"); ("color", JStr "#ffffff")]
  else JObj [("type", JStr "generic"); ("color", JStr "#8a2be2")].

Definition generateItemHint (ability : ParsedAbility.t) : Text :=
  if (AutomationComplexity.REACTION <=? ParsedAbility.complexity ability)%Z
  then wide "This is a complex reaction that will be automatically triggered."
  else
    match ParsedAbility.saves ability with
    | save :: _ =>
        wide "Targets must make a " ++ toUpperCase (SaveData.ability save)
        ++ wide " save or suffer the effects."
    | [] =>
        if 0 <? length (ParsedAbility.damage ability)
        then wide ("Deals "
                   +:+ join " + " ((λ d, DamageData.formula d +:+ " " +:+ DamageData.type d)
                                   <$> ParsedAbility.damage ability)
                   +:+ " damage.")
        else wide "This ability will be automatically handled."
    end.

Definition generateChrisPremadesFlags (ability : ParsedAbility.t) : Fields.t :=
  let name := ParsedAbility.name ability in
  let cpFlags : Fields.t :=
    [("info",
      JObj [ ("name", JStr name);
             ("version", JStr "2.0.0");
             ("mutation", JObj [("self", JStr (removeWhitespace (toLowerCase name)))]) ])] in
  let cpFlags :=
    if (AutomationComplexity.MODERATE <=? ParsedAbility.complexity ability)%Z
    then Fields.set "config" (JArr (generateGenericConfig ability)) cpFlags
    else cpFlags in
  let cpFlags := Fields.set "hasAnimation" (JBool (shouldHaveAnimation ability)) cpFlags in
  let cpFlags :=
    if shouldHaveAnimation ability
    then Fields.set "animationConfig" (generateAnimationConfig ability) cpFlags
    else cpFlags in
  let cpFlags :=
    if (AutomationComplexity.COMPLEX <=? ParsedAbility.complexity ability)%Z
    then Fields.set "medkit"
           (JObj [ ("enable", JBool true);
                   ("autoApply", JBool true);
                   ("itemHint", JStr (generateItemHint ability)) ]) cpFlags
    else cpFlags in
  [("chris-premades", JObj cpFlags)].

Definition extractReactionTrigger (text : string) : string :=
  if includes text "takes damage" then "isDamaged"
  else if includes text "attacked" then "preAttackRoll"
  else if includes text "spell cast" then "preCastSpell"
  else if includes text "moves" then "preMove"
  else "manual".

Definition generateSpecificValidation (ability : ParsedAbility.t) : string :=
  if includes (ParsedAbility.name ability) "Rush"
     && includes (ParsedAbility.raw ability) "takes damage"
  then nl +:+ "  // Must have taken damage this turn" +:+ nl
       +:+ "  const damageTaken = workflow.actor.getFlag('automancy', 'damageTakenThisTurn');"
       +:+ nl +:+ "  if (!damageTaken) return false;" +:+ nl +:+ "  "
  else "// No specific validation required".

Definition generateReactionValidation (ability : ParsedAbility.t) : string :=
  nl +:+ "// Reaction validation for " +:+ ParsedAbility.name ability +:+ nl
  +:+ "function validateReaction(workflow) {" +:+ nl
  +:+ "  // Check if reaction already used" +:+ nl
  +:+ "  if (workflow.actor.getFlag('gambits-premades', 'reactionUsed')) {" +:+ nl
  +:+ "    return false;" +:+ nl
  +:+ "  }" +:+ nl
  +:+ "  " +:+ nl
  +:+ "  // Ability-specific validation" +:+ nl
  +:+ "  " +:+ generateSpecificValidation ability +:+ nl
  +:+ "  " +:+ nl
  +:+ "  return true;" +:+ nl
  +:+ "}" +:+ nl.

Definition calculateReactionPriority (ability : ParsedAbility.t) : Z :=
  let raw := ParsedAbility.raw ability in
  if includes raw "takes damage" || includes raw "attacked" then 100
  else if includes raw "opportunity" then 50
  else 25.

Definition generateGambitsPremadesFlags (ability : ParsedAbility.t) : Fields.t :=
  if negb (bool_decide (ParsedAbility.type ability = REACTION)) then []
  else
    let raw := ParsedAbility.raw ability in
    let gpsFlags : Fields.t :=
      [("reaction",
        JObj [ ("trigger", JStr (extractReactionTrigger raw));
               ("enabled", JBool true);
               ("consumed", JBool false) ])] in
    let gpsFlags :=
      Fields.set "reactionValidation" (JStr (generateReactionValidation ability)) gpsFlags in
    let gpsFlags :=
      if includes raw "another creature"
      then Fields.set "reactionRange"
             (jnumber (default (Int 30)
                         (RuleEngine.truthyNumber
                            (RangeData.value (ParsedAbility.range ability)))))
             (Fields.set "thirdPartyReaction" (JBool true) gpsFlags)
      else gpsFlags in
    let gpsFlags := Fields.set "priority" (jint (calculateReactionPriority ability)) gpsFlags in
    [("gambits-premades", JObj gpsFlags)].

Definition generateSpecialDuration (ability : ParsedAbility.t) : list string :=
  let raw := ParsedAbility.raw ability in
  (if includes raw "until grapple ends" then ["isGrappled"] else [])
  ++ (if includes raw "start of turn" then ["turnStart"] else [])
  ++ (if includes raw "end of turn" then ["turnEnd"] else [])
  ++ (if includes raw "unconscious" then ["isUnconscious"] else [])
  ++ (if default false (DurationData.concentration (ParsedAbility.duration ability))
      then ["isConcentrating"] else []).

Definition determineMacroRepeat (ability : ParsedAbility.t) : string :=
  let raw := ParsedAbility.raw ability in
  if includes raw "start of each turn" then "startEveryTurn"
  else if includes raw "end of each turn" then "endEveryTurn"
  else if includes raw "ongoing" || includes raw "at the start" then "startEveryTurn"
  else "none".

Definition generateDAEProfessionalFlags (ability : ParsedAbility.t) : Fields.t :=
  let daeFlags : Fields.t :=
    if bool_decide (ParsedAbility.type ability = PASSIVE)
    then [("transfer", JBool true); ("stackable", JStr "multi")]
    else [("transfer", JBool false); ("stackable", JStr "noneName")] in
  let specialDuration := generateSpecialDuration ability in
  let daeFlags :=
    if 0 <? length specialDuration
    then Fields.set "specialDuration" (jstrings specialDuration) daeFlags else daeFlags in
  let daeFlags :=
    if (AutomationComplexity.MODERATE <=? ParsedAbility.complexity ability)%Z
    then Fields.set "macroRepeat" (JStr (determineMacroRepeat ability)) daeFlags
    else daeFlags in
  let daeFlags :=
    if bool_decide (TargetData.type (ParsedAbility.target ability) = "self")
    then Fields.set "selfTargetAlways" (JBool true)
           (Fields.set "selfTarget" (JBool true) daeFlags)
    else daeFlags in
  [("dae", JObj daeFlags)].

(** Reads the clock for [generatedAt]. *)
Definition generateAutomancyMetadata (ability : ParsedAbility.t) : M Fields.t :=
  λ w,
    ([("automancy",
       JObj [ ("generated", JBool true);
              ("version", JStr "2.0.0");
              ("phase", jint 2);
              ("complexity", jint (ParsedAbility.complexity ability));
              ("sourceType", JStr (abilityTypeValue (ParsedAbility.type ability)));
              ("enhancedAutomation", JBool true);
              ("generatedAt", JStr (isoTime w));
              ("professionalGrade", JBool true);
              ("requiresNoManualWork", JBool true) ])], w).

Definition generateAllProfessionalFlags (ability : ParsedAbility.t) : M Fields.t :=
  let* metadata := generateAutomancyMetadata ability in
  ret (foldl Fields.spread []
         [ generateMidiQOLProfessionalFlags ability;
           generateChrisPremadesFlags ability;
           generateGambitsPremadesFlags ability;
           generateDAEProfessionalFlags ability;
           metadata ]).

(** The pass as the orchestrator calls it, on the enhanced ability. *)
Definition pass (analysis : EnhancedAbilityData.t) : M (Exn Fields.t) :=
  let* flags := generateAllProfessionalFlags (EnhancedAbilityData.ability analysis) in
  ret (Ok flags).

End ProfessionalFlags.

(* ===================================================================== *)
(** ** The command line of phase2-converter.ts *)
(* ===================================================================== *)

Module AutomancyCLI.

(** An entry of a batch file: [{ text, name? }]. *)
Record InputAbility := mkInput {
  text : string;
  name : option string
}.

(** [abilities.push({ text: currentAbility.trim(), name: currentName || undefined })] *)
Definition pushed (currentAbility currentName : string) : InputAbility :=
  mkInput (trim currentAbility)
    (if bool_decide (currentName = "") then None else Some currentName).

(** The [for] loop over the lines, with [abilities], [currentAbility] and
    [currentName] as they stand. *)
Fixpoint readLines (lines : list string) (abilities : list InputAbility)
    (currentAbility currentName : string) : list InputAbility * string * string :=
  match lines with
  | [] => (abilities, currentAbility, currentName)
  | line :: lines' =>
      let trimmed := trim line in
      if bool_decide (trimmed = "") && negb (bool_decide (currentAbility = "")) then
        readLines lines' (abilities ++ [pushed currentAbility currentName]) "" ""
      else if startsWith trimmed "# " then
        readLines lines' abilities currentAbility (trim (substringFrom 2 trimmed))
      else if negb (bool_decide (trimmed = "")) && negb (startsWith trimmed "#") then
        readLines lines' abilities
          (currentAbility +:+ (if bool_decide (currentAbility = "") then "" else " ")
           +:+ trimmed)
          currentName
      else readLines lines' abilities currentAbility currentName
  end.

Definition parseInputFile (content : string) : list InputAbility :=
  let '(abilities, currentAbility, currentName) :=
    readLines (split content "010") [] "" "" in
  if negb (bool_decide (currentAbility = ""))
  then abilities ++ [pushed currentAbility currentName]
  else abilities.

End AutomancyCLI.

(* ===================================================================== *)
(** * Notions used to state the properties *)
(* ===================================================================== *)

Module RegExpSpec.

Import RegExp.

(** [st'] is [st] after the matcher consumed [consumed]. *)
Definition advances (st st' : mstate) (consumed : list ascii) : Prop :=
  rest st = consumed ++ rest st' ∧ pos st' = pos st + length consumed.

(** Expressions that match no empty text. *)
Fixpoint nonempty (r : node) : bool :=
  match r with
  | Lit s => negb (bool_decide (s = ""))
  | AnyChar | Digit | WordChar | Space | OneOf _ | NoneOf _ => true
  | Seq a b => nonempty a || nonempty b
  | Alt a b => nonempty a && nonempty b
  | Plus a | Group _ a => nonempty a
  | Eps | WordB | Bol | Star _ | Opt _ => false
  end.

End RegExpSpec.

Module PatternMatcherSpec.

Import RegExp PatternMatcher.

(** The matches the [while] loop of [extractPatterns] sees, in order:
    every match of a global expression, the first one of another. *)
Fixpoint successiveMatches (fuel : nat) (regex : RegExp.t) (text : string)
    (lastIndex : nat) : option (list RegExp.Match) :=
  match fuel with
  | O => None
  | S fuel' =>
      match exec regex text lastIndex with
      | None => Some []
      | Some m =>
          if negb (global regex) then Some [m]
          else (m ::.) <$> successiveMatches fuel' regex text (endIndex m)
      end
  end.

(** The entry a match contributes, if its extractor returns. *)
Definition kept (p : ParsingPattern) (m : RegExp.Match) : option Matched :=
  match extractor p m with
  | Ok e => Some (mkMatched e (matched m) (RegExp.index m))
  | Throw _ => None
  end.

(** The warning a match contributes, if its extractor throws. *)
Definition warned (p : ParsingPattern) (m : RegExp.Match) : option Warning :=
  match extractor p m with
  | Ok _ => None
  | Throw e => Some (name p, e)
  end.

(** The result map and the warnings, pattern by pattern. *)
Fixpoint collect (fuel : nat) (sorted : list ParsingPattern) (text : string)
    (results : gmap string (list Matched)) (warnings : list Warning)
  : option (gmap string (list Matched) * list Warning) :=
  match sorted with
  | [] => Some (results, warnings)
  | p :: sorted' =>
      all ← successiveMatches fuel (regex p) text 0;
      collect fuel sorted' text
        (if 0 <? length (omap (kept p) all)
         then <[name p := omap (kept p) all]> results else results)
        (warnings ++ omap (warned p) all)
  end.

(** A global pattern progresses on [text] when none of its matches is
    empty: then the loop's [lastIndex] grows with every round. *)
Definition progresses (text : string) (p : ParsingPattern) : Prop :=
  global (regex p) = true →
  ∀ lastIndex m, exec (regex p) text lastIndex = Some m → RegExp.index m < endIndex m.

(** Two patterns that differ at most in the extractor, and only if they
    are registered under [n]. *)
Definition sameBut (n : string) (p p' : ParsingPattern) : Prop :=
  name p = name p' ∧ regex p = regex p' ∧ priority p = priority p'
  ∧ (name p ≠ n → extractor p = extractor p').

End PatternMatcherSpec.

Module TextAnalyzerSpec.

Import RegExp PatternMatcher TextAnalyzer.

(** The complexity tier as the specification words it: start at 1; one
    more for any condition; one more for more than one damage entry; 4 for
    a reaction; one more for more than one effect; one more for a save
    together with an effect; one more for a consumed resource; at most 4. *)
Definition complexityTier (ability : ParsedAbility.t) : Z :=
  let anyCondition := negb (bool_decide (ParsedAbility.conditions ability = [])) in
  let severalDamages := bool_decide (1 < length (ParsedAbility.damage ability)) in
  let severalEffects := bool_decide (1 < length (ParsedAbility.effects ability)) in
  let saveWithEffect :=
    bool_decide (1 ≤ length (ParsedAbility.saves ability)
                 ∧ 1 ≤ length (ParsedAbility.effects ability)) in
  let consumes := ResourceData.consumesResource (ParsedAbility.resources ability) in
  let plus (b : bool) (tier : Z) : Z := if b then Z.succ tier else tier in
  let tier := 1%Z in
  let tier := plus anyCondition tier in
  let tier := plus severalDamages tier in
  let tier :=
    match decide (ActivationData.type (ParsedAbility.activation ability) = "reaction") with
    | left _ => 4%Z
    | right _ => tier
    end in
  let tier := plus severalEffects tier in
  let tier := plus saveWithEffect tier in
  let tier := plus consumes tier in
  if (4 <? tier)%Z then 4%Z else tier.

(** The damage entry of a match of the averaged format "avg (dice) type":
    the dice with the whitespace removed, the type in lower case. *)
Definition averagedEntry (m : RegExp.Match) : option DamageData.t :=
  formula ← group m 2;
  type ← group m 3;
  Some (DamageData.mk (removeWhitespace formula) (toLowerCase type) false).

(** The damage entry of a match of the simple format "dice type". *)
Definition simpleEntry (m : RegExp.Match) : option DamageData.t :=
  formula ← group m 1;
  type ← group m 2;
  Some (DamageData.mk (removeWhitespace formula) (toLowerCase type) false).

(** The entries of [simple] whose formula is not yet present: [seen] lists
    the formulas present so far. *)
Fixpoint firstByFormula (seen : list string) (simple : list DamageData.t)
  : list DamageData.t :=
  match simple with
  | [] => []
  | d :: simple' =>
      if bool_decide (DamageData.formula d ∈ seen) then firstByFormula seen simple'
      else d :: firstByFormula (seen ++ [DamageData.formula d]) simple'
  end.

(** Averaged entries first, then the simple entries that bring a new
    formula. *)
Definition unionByFormula (averaged simple : list DamageData.t) : list DamageData.t :=
  averaged ++ firstByFormula (DamageData.formula <$> averaged) simple.

(** The activation as the specification orders it. *)
Definition activationByPriority (text : string) : ActivationData.t :=
  let reaction := test (regex activation_reaction) text in
  let bonusWithinFirst50 :=
    match firstMatch (regex activation_bonus) text with
    | Some m => bool_decide (RegExp.index m < 50)
    | None => false
    end in
  let action := test (regex activation_action) text in
  if reaction then ActivationData.mk "reaction" 1
  else if bonusWithinFirst50 then ActivationData.mk "bonus" 1
  else if action then ActivationData.mk "action" 1
  else ActivationData.mk "action" 1.

End TextAnalyzerSpec.

Module RuleEngineSpec.

Import EffectGenerator RuleEngine.

(** The activities the engine built for an item; none when a later pass
    assigned the field. *)
Definition activitiesOf (item : FoundryItemData.t) : gmap string Activity.t :=
  match SystemData.activities (FoundryItemData.system item) with
  | Built activities => activities
  | Assigned _ => ∅
  end.

(** The effect identifiers the activities of an item refer to. *)
Definition referencedIds (item : FoundryItemData.t) : list string :=
  entry ← map_to_list (activitiesOf item);
  EffectRef._id <$> Activity.effects (snd entry).

(** The identifiers of a list of effects. *)
Definition listedIds (effects : list ActiveEffectData.t) : list string :=
  ActiveEffectData._id <$> effects.

(** The identifier correlation invariant: every effect an activity refers
    to is in the artifact's effect list. *)
Definition correlated (result : AutomationResult.t) : Prop :=
  ∀ id, id ∈ referencedIds (AutomationResult.item result) →
        id ∈ listedIds (AutomationResult.effects result).

(** The effects of the conditions, the condition at index [i] under the
    identifier at index [i]. *)
Definition conditionEffectsOf (ability : ParsedAbility.t) (ids : list string)
  : list ActiveEffectData.t :=
  omap (λ i, id ← ids !! i; createConditionEffect ability id i)
       (seq 0 (length (ParsedAbility.conditions ability))).

(** The artifact, given what was drawn: the identifiers of the conditions,
    the effects of the parsed effects, the identifier of the item. *)
Definition assemble (ability : ParsedAbility.t) (ids : list string)
    (fromEffects : list ActiveEffectData.t) (itemId : string) : Exn AutomationResult.t :=
  let effects := fromEffects ++ conditionEffectsOf ability ids in
  let effects := if bool_decide (ParsedAbility.type ability = PASSIVE)
                 then setTransfer <$> effects else effects in
  let itemType := determineItemType (ParsedAbility.type ability) in
  let? system := generateSystemData ability itemType ids in
  let? flags := generateFlags ability in
  Ok (AutomationResult.mk
        (FoundryItemData.mk itemId (ParsedAbility.name ability) itemType
           (getIconPath (ParsedAbility.type ability)) system [] [])
        effects (generateMacros ability) flags (ParsedAbility.complexity ability)).

(** A condition that [createConditionEffect] turns into an effect. *)
Definition yieldsEffect (condition : ConditionData.t) : Prop :=
  ConditionData.type condition ≠ "advantage"
  ∧ ConditionData.type condition ≠ "disadvantage"
  ∧ is_Some (mapConditionToStatus (ConditionData.type condition)).

(** An artifact with its generated identifiers blanked. *)
Definition blankEffect (e : ActiveEffectData.t) : ActiveEffectData.t :=
  ActiveEffectData.mk "" (ActiveEffectData.name e) (ActiveEffectData.img e)
    (ActiveEffectData.changes e) (ActiveEffectData.duration e)
    (ActiveEffectData.flags e) (ActiveEffectData.statuses e)
    (ActiveEffectData.transfer e) (ActiveEffectData.disabled e).

Definition blankRef (r : EffectRef.t) : EffectRef.t :=
  EffectRef.mk "" (EffectRef.onSave r).

Definition blankActivity (a : Activity.t) : Activity.t :=
  Activity.mk (Activity._id a) (Activity.type a) (Activity.activationType a)
    (Activity.activationValue a) (Activity.concentration a) (Activity.durationUnits a)
    (blankRef <$> Activity.effects a)
    (Activity.rangeUnits a) (Activity.affectsCount a) (Activity.affectsType a)
    (Activity.attack a) (Activity.damageOnSave a) (Activity.damageParts a)
    (Activity.saveAbility a) (Activity.saveDcFormula a).

Definition blankActivities (activities : Slot (gmap string Activity.t))
  : Slot (gmap string Activity.t) :=
  match activities with
  | Built activities => Built (blankActivity <$> activities)
  | Assigned v => Assigned v
  end.

Definition blankItem (item : FoundryItemData.t) : FoundryItemData.t :=
  let system := FoundryItemData.system item in
  FoundryItemData.mk "" (FoundryItemData.name item) (FoundryItemData.type item)
    (FoundryItemData.img item)
    (SystemData.mk (SystemData.description system)
       (blankActivities (SystemData.activities system))
       (SystemData.weaponFields system) (SystemData.assigned system))
    (blankEffect <$> FoundryItemData.effects item)
    (FoundryItemData.flags item).

Definition blankIds (result : AutomationResult.t) : AutomationResult.t :=
  AutomationResult.mk (blankItem (AutomationResult.item result))
    (blankEffect <$> AutomationResult.effects result)
    (AutomationResult.macros result) (AutomationResult.flags result)
    (AutomationResult.complexity result).

(** The outcome of the base conversion with the identifiers blanked. *)
Definition blankOutcome (outcome : Exn (ParsedAbility.t * AutomationResult.t))
  : Exn (ParsedAbility.t * AutomationResult.t) :=
  match outcome with
  | Ok (parsed, automation) => Ok (parsed, blankIds automation)
  | Throw e => Throw e
  end.

(** An attack that grants advantage: the text and its reading. *)
Definition advantageText : string :=
  "Melee Weapon Attack: +5 to hit, reach 5 ft., one target. Hit: 8 (1d8 + 4) slashing damage. The attacker has advantage on attack rolls.".

End RuleEngineSpec.

Module Phase2Spec.

Import Phase2Converter.

(** Passes that find nothing to add. *)
Definition quietPasses : Subsystems.t :=
  Subsystems.mk
    (λ _, ret (Ok (ConditionSystem.mk [] [] (Some []))))
    (λ _, ret (Ok []))
    (λ _, ret (Ok (MacroIntegration.mk [] (Some []))))
    (λ _, ret (Ok (RechargeSystem.mk false (Some []) (Some []) None)))
    (λ _, ret (Ok (ReactionSystem.mk false (Some []) (Some []))))
    (λ _, ret (Ok (OngoingSystem.mk false None (Some []) (Some []))))
    (λ _, ret (Ok None)).

(** The same passes, with a reaction tracker that fails. *)
Definition failingPasses : Subsystems.t :=
  Subsystems.mk
    (Subsystems.conditionEngine quietPasses)
    (Subsystems.professionalFlags quietPasses)
    (Subsystems.macroSystem quietPasses)
    (Subsystems.rechargeSystem quietPasses)
    (λ _, ret (Throw (ErrorObj "reaction tracking failed")))
    (Subsystems.ongoingSystem quietPasses)
    (Subsystems.movementAttackSystem quietPasses).

(** Passes with the professional flags of the source. *)
Definition withProfessionalFlags (passes : Subsystems.t) : Subsystems.t :=
  Subsystems.mk
    (Subsystems.conditionEngine passes)
    ProfessionalFlags.pass
    (Subsystems.macroSystem passes)
    (Subsystems.rechargeSystem passes)
    (Subsystems.reactionSystem passes)
    (Subsystems.ongoingSystem passes)
    (Subsystems.movementAttackSystem passes).





(** A source of random numbers and a clock. *)
Definition someWorld : World := mkWorld (λ n, 7 * n + 3) 0 "2026-01-01T00:00:00.000Z".

(** The scenario of the specification: a melee weapon attack. *)
Definition clawText : string :=
  "Melee Weapon Attack: +5 to hit, reach 5 ft., one target. Hit: 8 (1d8 + 4) slashing damage.".

End Phase2Spec.

Module Samples.

(** A passive trait with nothing to automate, and its item. *)
Definition plainAbility : ParsedAbility.t :=
  ParsedAbility.mk "Keen Senses" "Keen Senses." PASSIVE None None
    (ActivationData.mk "action" 1)
    (TargetData.mk (Some (Int 1)) "creature" None (Some "any"))
    [] [] [] []
    (ResourceData.mk false None None None)
    (DurationData.mk None "inst" None)
    (RangeData.mk (Some (Int 5)) None "ft")
    1 [].

Definition plainItem : FoundryItemData.t :=
  FoundryItemData.mk "AAAAAAAAAAAAAAAA" "Keen Senses" "feat" "icons/svg/eye.svg"
    (SystemData.mk (Built (wide "<p>Keen Senses</p>")) (Built ∅) false [])
    [] [("midi-qol", JObj [])].

(** A weapon attack followed by a save against being dazed. *)
Definition dazingStrike : ParsedAbility.t :=
  ParsedAbility.mk "Dazing Strike"
    "Dazing Strike. Melee Weapon Attack: +5 to hit. Hit: 7 (1d8 + 3) slashing damage. DC 13 Wisdom saving throw or be dazed (save ends)."
    WEAPON_ATTACK (Some "mwak") (Some (Int 5))
    (ActivationData.mk "action" 1)
    (TargetData.mk (Some (Int 1)) "creature" None (Some "any"))
    [DamageData.mk "1d8+3" "slashing" false]
    [SaveData.mk "wis" (Some (Int 13)) "flat"]
    []
    [ConditionData.mk "dazed" "dazed" (AnyBool true) None (Some true)
       (Some "start_of_turn")]
    (ResourceData.mk false None None None)
    (DurationData.mk None "inst" None)
    (RangeData.mk (Some (Int 5)) None "ft")
    2 [].

End Samples.

Module MatcherSpec.

Import RegExp PatternMatcher.

(** [m] ends before [m'] begins. *)
Definition precedes (m m' : RegExp.Match) : Prop := endIndex m ≤ RegExp.index m'.

(** [p] is tried no later than [q]. *)
Definition byPriority (p q : ParsingPattern) : Prop := (priority q ≤ priority p)%Z.

End MatcherSpec.

Module AnalyzerSpec.

Import PatternMatcher TextAnalyzer.

(** No list of the map is empty. *)
Definition populated (patterns : Patterns) : Prop :=
  ∀ k entries, patterns !! k = Some entries → entries ≠ [].

(** The name the analysis gives the ability. *)
Definition nameOf (text : string) (name : option string) : string :=
  match name with
  | Some n => if bool_decide (n = "") then extractName text else n
  | None => extractName text
  end.

(** The conditions that modify rolls name their target by a string. *)
Definition rollTargetsAreStrings (conditions : list ConditionData.t) : Prop :=
  Forall (λ c, ConditionData.type c = "advantage" ∨ ConditionData.type c = "disadvantage" →
               ∃ target, ConditionData.value c = AnyString target) conditions.

End AnalyzerSpec.

Module SynthesisSpec.

(** A letter or a digit. *)
Definition alphanumeric (c : ascii) : bool := isDigit c || isUpper c || isLower c.

End SynthesisSpec.

Module MergeSpec.

(** A boolean, a number, a string, an array or a function. *)
Definition plain (v : Json) : Prop :=
  match v with
  | JBool _ | JNum _ | JInfinity | JNegInfinity | JNaN | JStr _ | JArr _
  | JFunction _ => True
  | JUndefined | JNull | JObj _ => False
  end.

End MergeSpec.

Module BatchSpec.

Import AutomancyCLI.

(** The whitespace that [trim] takes from the front of a text. *)
Fixpoint dropSpaces (l : list ascii) : list ascii :=
  match l with
  | c :: l' => if isSpace c then dropSpaces l' else l
  | [] => []
  end.

(** A text of whitespace only. *)
Definition blank (s : string) : bool := forallb isSpace (chars s).

(** An entry with a text that is not blank and, if it has a name, a name
    that is not empty. *)
Definition wellRead (a : InputAbility) : Prop :=
  blank (text a) = false ∧ name a ≠ Some "".

End BatchSpec.

(* ===================================================================== *)
(** * Properties *)
(* ===================================================================== *)

(** ** The matcher consumes the text it matched *)

Module RegExpFacts.

Import RegExp RegExpSpec.

Lemma length_str (l : list ascii) : String.length (str l) = length l.
Proof. induction l as [|c l IH]; simpl; [done | by rewrite IH]. Qed.

Lemma length_chars (s : string) : length (chars s) = String.length s.
Proof. induction s as [|c s IH]; simpl; [done | by rewrite IH]. Qed.

Lemma advances_refl st : advances st st [].
Proof. split; simpl; [done | lia]. Qed.

Lemma advances_trans st1 st2 st3 c1 c2 :
  advances st1 st2 c1 → advances st2 st3 c2 → advances st1 st3 (c1 ++ c2).
Proof.
  intros [H1 H2] [H3 H4]. split.
  - by rewrite H1, H3, app_assoc.
  - rewrite H4, H2, length_app. lia.
Qed.

Lemma step_advances p st st' :
  st' ∈ step p st → ∃ c, advances st st' [c].
Proof.
  unfold step. destruct (rest st) as [|c l] eqn:E; [set_solver|].
  destruct (p c); [|set_solver].
  intros ->%list_elem_of_singleton. exists c. split; simpl; [done | lia].
Qed.

Lemma lit_advances ic s : ∀ st st',
  st' ∈ lit ic s st → ∃ consumed, advances st st' consumed ∧ length consumed = length s.
Proof.
  induction s as [|c s IH]; intros st st'; simpl.
  - intros ->%list_elem_of_singleton. exists []. split; [apply advances_refl | done].
  - intros (st1 & H1 & H2)%list_elem_of_bind.
    apply step_advances in H2 as [c' H2].
    apply IH in H1 as (consumed & H1 & Hlen).
    exists ([c'] ++ consumed). split; [by eapply advances_trans|].
    simpl. by rewrite Hlen.
Qed.

Lemma star_advances f :
  (∀ st st', st' ∈ f st → ∃ consumed, advances st st' consumed) →
  ∀ fuel st st', st' ∈ star f fuel st → ∃ consumed, advances st st' consumed.
Proof.
  intros Hf. induction fuel as [|fuel IH]; intros st st'; simpl.
  - intros ->%list_elem_of_singleton. exists []. apply advances_refl.
  - intros [H| ->%list_elem_of_singleton]%elem_of_app;
      [|exists []; apply advances_refl].
    apply list_elem_of_bind in H as (st1 & H1 & H2).
    destruct (pos st1 =? pos st); [set_solver|].
    apply Hf in H2 as [c1 H2]. apply IH in H1 as [c2 H1].
    exists (c1 ++ c2). by eapply advances_trans.
Qed.

(** Whatever [r] matches is a prefix of the text ahead. *)
Lemma ms_advances ic r : ∀ st st',
  st' ∈ ms ic r st → ∃ consumed, advances st st' consumed.
Proof.
  induction r as [| s | | | | | cs | cs | | | a IHa b IHb | a IHa b IHb
                 | a IHa | a IHa | a IHa | n a IHa]; intros st st'; cbn [ms].
  - intros ->%list_elem_of_singleton. exists []. apply advances_refl.
  - intros (consumed & H & _)%lit_advances. eauto.
  - intros [c H]%step_advances. eauto.
  - intros [c H]%step_advances. eauto.
  - intros [c H]%step_advances. eauto.
  - intros [c H]%step_advances. eauto.
  - intros [c H]%step_advances. eauto.
  - intros [c H]%step_advances. eauto.
  - destruct (xorb _ _); [|set_solver].
    intros ->%list_elem_of_singleton. exists []. apply advances_refl.
  - destruct (pos st =? 0); [|set_solver].
    intros ->%list_elem_of_singleton. exists []. apply advances_refl.
  - intros (st1 & H1 & H2)%list_elem_of_bind.
    apply IHa in H2 as [c1 H2]. apply IHb in H1 as [c2 H1].
    exists (c1 ++ c2). by eapply advances_trans.
  - intros [H|H]%elem_of_app; eauto.
  - by apply star_advances.
  - intros (st1 & H1 & H2)%list_elem_of_bind.
    apply IHa in H2 as [c1 H2].
    apply (star_advances _ IHa) in H1 as [c2 H1].
    exists (c1 ++ c2). by eapply advances_trans.
  - intros [H| ->%list_elem_of_singleton]%elem_of_app; eauto.
    exists []. apply advances_refl.
  - intros (st1 & -> & H)%list_elem_of_fmap.
    apply IHa in H as [c [H1 H2]]. exists c. by split.
Qed.

Lemma ms_nonempty ic r : ∀ st st',
  nonempty r = true → st' ∈ ms ic r st → pos st < pos st'.
Proof.
  induction r as [| s | | | | | cs | cs | | | a IHa b IHb | a IHa b IHb
                 | a IHa | a IHa | a IHa | n a IHa]; intros st st'; cbn [ms nonempty];
    try discriminate.
  - intros Hs (consumed & [_ H] & Hlen)%lit_advances.
    destruct s; [done|]. simpl in Hlen. lia.
  - intros _ [c [_ H]]%step_advances. simpl in H. lia.
  - intros _ [c [_ H]]%step_advances. simpl in H. lia.
  - intros _ [c [_ H]]%step_advances. simpl in H. lia.
  - intros _ [c [_ H]]%step_advances. simpl in H. lia.
  - intros _ [c [_ H]]%step_advances. simpl in H. lia.
  - intros _ [c [_ H]]%step_advances. simpl in H. lia.
  - intros Hne (st1 & H1 & H2)%list_elem_of_bind.
    pose proof (ms_advances _ _ _ _ H2) as [c2 [_ Ha]].
    pose proof (ms_advances _ _ _ _ H1) as [c1 [_ Hb]].
    apply orb_true_iff in Hne as [Hne|Hne].
    + specialize (IHa _ _ Hne H2). lia.
    + specialize (IHb _ _ Hne H1). lia.
  - intros [Ha Hb]%andb_true_iff [H|H]%elem_of_app; eauto.
  - intros Hne (st1 & H1 & H2)%list_elem_of_bind.
    specialize (IHa _ _ Hne H2).
    apply (star_advances _ (ms_advances ic a)) in H1 as [c [_ H1]]. lia.
  - intros Hne (st1 & -> & H)%list_elem_of_fmap. simpl. eauto.
Qed.

Lemma matchAt_span r st m :
  matchAt r st = Some m →
  index m = pos st ∧ endIndex m ≤ pos st + length (rest st)
  ∧ (nonempty (re r) = true → index m < endIndex m).
Proof.
  unfold matchAt. destruct (ms _ _ _) as [|st' l] eqn:E; [done|].
  intros [= <-]. unfold endIndex, matched, group. simpl.
  assert (st' ∈ ms (ignoreCase r) (re r) st) as Hin by (rewrite E; left).
  pose proof (ms_advances _ _ _ _ Hin) as [c [Hrest Hpos]].
  rewrite length_str, length_take, Hrest, length_app.
  split_and!; [done | lia |].
  intros Hne. pose proof (ms_nonempty _ _ _ _ Hne Hin). lia.
Qed.

Lemma scan_span r : ∀ l p i m,
  scan r p l i = Some m →
  i ≤ index m ∧ endIndex m ≤ i + length l
  ∧ (nonempty (re r) = true → index m < endIndex m).
Proof.
  induction l as [|c l IH]; intros p i m; simpl.
  - destruct (matchAt _ _) as [m'|] eqn:E; [|done].
    intros [= ->]. apply matchAt_span in E as (-> & H & Hne). simpl in *.
    split_and!; [lia | lia | done].
  - destruct (matchAt _ _) as [m'|] eqn:E.
    + intros [= ->]. apply matchAt_span in E as (-> & H & Hne). simpl in *.
      split_and!; [lia | lia | done].
    + intros (H1 & H2 & H3)%IH. split_and!; [lia | lia | done].
Qed.

Lemma search_span r : ∀ from l p i m,
  search r p l i from = Some m →
  i + from ≤ index m ∧ endIndex m ≤ i + length l
  ∧ (nonempty (re r) = true → index m < endIndex m).
Proof.
  induction from as [|from IH]; intros l p i m; simpl.
  - intros (H1 & H2 & H3)%scan_span. split_and!; [lia | lia | done].
  - destruct l as [|c l]; [done|].
    intros (H1 & H2 & H3)%IH. simpl. split_and!; [lia | lia | done].
Qed.

(** A match lies inside the text, at or after the index the search
    started from, and is not empty when the expression is [nonempty]. *)
Lemma exec_span r text lastIndex m :
  exec r text lastIndex = Some m →
  endIndex m ≤ String.length text
  ∧ (global r = true → lastIndex ≤ index m)
  ∧ (nonempty (re r) = true → index m < endIndex m).
Proof.
  unfold exec. intros (H1 & H2 & H3)%search_span.
  rewrite length_chars in H2. split_and!; [lia | | done].
  intros Hg. rewrite Hg in H1. lia.
Qed.

End RegExpFacts.

(** ** The pattern matcher *)

Module PatternMatcherFacts.

Import RegExp RegExpSpec RegExpFacts PatternMatcher PatternMatcherSpec.

(** The loop keeps the entries of the matches whose extractor returns,
    turns the others into warnings, and goes on. *)
Lemma matchLoop_spec p text : ∀ fuel lastIndex matches warnings,
  matchLoop fuel p text lastIndex matches warnings
  = (λ all, Ok (matches ++ omap (kept p) all, warnings ++ omap (warned p) all))
    <$> successiveMatches fuel (regex p) text lastIndex.
Proof.
  induction fuel as [|fuel IH]; intros lastIndex matches warnings; simpl; [done|].
  destruct (exec (regex p) text lastIndex) as [m|]; simpl;
    [|by rewrite !app_nil_r].
  unfold kept, warned.
  destruct (extractor p m) as [e|err] eqn:E; simpl;
    destruct (global (regex p)); simpl; rewrite ?E, ?app_nil_r; try done.
  - rewrite IH. destruct (successiveMatches _ _ _ _) as [all|]; simpl; [|done].
    by rewrite E, <-app_assoc.
  - rewrite IH. destruct (successiveMatches _ _ _ _) as [all|]; simpl; [|done].
    by rewrite E, <-app_assoc.
Qed.

Lemma patternLoop_spec text fuel : ∀ sorted results warnings,
  patternLoop fuel sorted text results warnings
  = Ok <$> collect fuel sorted text results warnings.
Proof.
  induction sorted as [|p sorted IH]; intros results warnings; simpl; [done|].
  rewrite matchLoop_spec.
  destruct (successiveMatches _ _ _ _) as [all|]; simpl; [|done].
  by rewrite IH.
Qed.

Lemma successiveMatches_total text p : progresses text p →
  ∀ fuel lastIndex,
    lastIndex ≤ String.length text → String.length text < lastIndex + fuel →
    is_Some (successiveMatches fuel (regex p) text lastIndex).
Proof.
  intros Hp. induction fuel as [|fuel IH]; intros lastIndex Hle Hlt; simpl; [lia|].
  destruct (exec (regex p) text lastIndex) as [m|] eqn:E; [|done].
  destruct (global (regex p)) eqn:G; simpl; [|done].
  pose proof (exec_span _ _ _ _ E) as (Hend & Hidx & _).
  specialize (Hidx G). specialize (Hp G _ _ E).
  destruct (IH (endIndex m)) as [all Hall]; [lia | lia |].
  rewrite Hall. done.
Qed.

Lemma collect_total text fuel : String.length text < fuel →
  ∀ sorted results warnings,
    Forall (progresses text) sorted →
    is_Some (collect fuel sorted text results warnings).
Proof.
  intros Hfuel. induction sorted as [|p sorted IH]; intros results warnings Hall;
    simpl; [done|].
  apply Forall_cons in Hall as [Hp Hall].
  destruct (successiveMatches_total text p Hp fuel 0) as [all ->]; [lia | lia |].
  simpl. by apply IH.
Qed.

Lemma insertByPriority_Forall (P : ParsingPattern → Prop) p : ∀ sorted,
  P p → Forall P sorted → Forall P (insertByPriority p sorted).
Proof.
  induction sorted as [|q sorted IH]; intros Hp Hs; simpl.
  - by constructor.
  - destruct (priority p <? priority q)%Z.
    + apply Forall_cons in Hs as [Hq Hs]. constructor; auto.
    + by constructor.
Qed.

Lemma sortByPriority_Forall (P : ParsingPattern → Prop) patterns :
  Forall P patterns → Forall P (sortByPriority patterns).
Proof.
  induction 1 as [|p patterns Hp _ IH]; simpl; [constructor|].
  by apply insertByPriority_Forall.
Qed.

Lemma insertByPriority_Forall2 n p p' : ∀ sorted sorted',
  sameBut n p p' → Forall2 (sameBut n) sorted sorted' →
  Forall2 (sameBut n) (insertByPriority p sorted) (insertByPriority p' sorted').
Proof.
  intros sorted sorted' Hp Hs. induction Hs as [|q q' sorted sorted' Hq Hs IH]; simpl.
  - constructor; [done | constructor].
  - pose proof Hp as (? & ? & Hpp & ?). pose proof Hq as (? & ? & Hqq & ?).
    rewrite <-Hpp, <-Hqq.
    destruct (priority p <? priority q)%Z; constructor; try done.
    by constructor.
Qed.

Lemma sortByPriority_Forall2 n patterns patterns' :
  Forall2 (sameBut n) patterns patterns' →
  Forall2 (sameBut n) (sortByPriority patterns) (sortByPriority patterns').
Proof.
  induction 1 as [|p p' patterns patterns' Hp _ IH]; simpl; [constructor|].
  by apply insertByPriority_Forall2.
Qed.

(** Patterns that differ only in the extractor registered under [n] yield
    the same entries under every other name. *)
Lemma collect_sameBut n text fuel : ∀ sorted sorted',
  Forall2 (sameBut n) sorted sorted' →
  ∀ results results' warnings warnings',
    (∀ k, k ≠ n → results !! k = results' !! k) →
    match collect fuel sorted text results warnings,
          collect fuel sorted' text results' warnings' with
    | Some (r, _), Some (r', _) => ∀ k, k ≠ n → r !! k = r' !! k
    | None, None => True
    | _, _ => False
    end.
Proof.
  induction 1 as [|p p' sorted sorted' Hp _ IH];
    intros results results' warnings warnings' Hres; simpl; [done|].
  destruct Hp as (Hname & Hregex & _ & Hext). rewrite <-Hregex.
  destruct (successiveMatches _ _ _ _) as [all|]; simpl; [|done].
  apply IH. intros k Hk.
  destruct (decide (name p = n)) as [Hn|Hn].
  - rewrite <-Hname.
    destruct (0 <? _), (0 <? _); rewrite ?lookup_insert_ne by congruence; auto.
  - assert (omap (kept p) all = omap (kept p') all) as <-.
    { unfold kept. by rewrite (Hext Hn). }
    rewrite <-Hname. destruct (0 <? _); [|by auto].
    destruct (decide (name p = k)) as [->|Hk'].
    + by rewrite !lookup_insert_eq.
    + rewrite !lookup_insert_ne by done. auto.
Qed.

Lemma collect_lookup_other text fuel k : ∀ sorted results warnings r ws,
  k ∉ name <$> sorted →
  collect fuel sorted text results warnings = Some (r, ws) →
  r !! k = results !! k.
Proof.
  induction sorted as [|p sorted IH]; intros results warnings r ws Hk; simpl.
  - by intros [= -> _].
  - rewrite fmap_cons in Hk. apply not_elem_of_cons in Hk as [Hne Hk].
    destruct (successiveMatches _ _ _ _) as [all|]; simpl; [|done].
    intros H. apply IH in H; [|done]. rewrite H.
    destruct (0 <? _); [|done]. by rewrite lookup_insert_ne.
Qed.

(** Under its name, a pattern's entries: the map has the name only if
    there is an entry. *)
Lemma collect_lookup text fuel p : ∀ sorted results warnings r ws,
  NoDup (name <$> sorted) → p ∈ sorted →
  collect fuel sorted text results warnings = Some (r, ws) →
  ∃ all, successiveMatches fuel (regex p) text 0 = Some all
    ∧ r !! name p = if 0 <? length (omap (kept p) all)
                    then Some (omap (kept p) all) else results !! name p.
Proof.
  induction sorted as [|q sorted IH]; intros results warnings r ws Hnd Hin; simpl;
    [by apply not_elem_of_nil in Hin|].
  rewrite fmap_cons in Hnd. apply NoDup_cons in Hnd as [Hq Hnd].
  destruct (successiveMatches fuel (regex q) text 0) as [all|] eqn:E; simpl; [|done].
  intros H. apply elem_of_cons in Hin as [->|Hin].
  - exists all. split; [done|].
    apply (collect_lookup_other _ _ (name q)) in H; [|done]. rewrite H.
    destruct (0 <? _); [|done]. by rewrite lookup_insert_eq.
  - destruct (IH _ _ _ _ Hnd Hin H) as (all' & Hall' & Hl).
    exists all'. split; [done|]. rewrite Hl.
    destruct (0 <? length (omap (kept p) all')); [done|].
    destruct (0 <? _); [|done].
    rewrite lookup_insert_ne; [done|].
    intros Heq. apply Hq. rewrite Heq. by apply list_elem_of_fmap_2.
Qed.

End PatternMatcherFacts.

(** ** The registry of [initializePatterns] *)

Module RegistryFacts.

Import RegExp RegExpSpec RegExpFacts PatternMatcher PatternMatcherSpec PatternMatcherFacts.

Lemma addPattern_fresh p : ∀ patterns,
  name p ∉ name <$> patterns → addPattern p patterns = patterns ++ [p].
Proof.
  induction patterns as [|q patterns IH]; simpl; [done|].
  rewrite not_elem_of_cons. intros [Hne Hnotin].
  rewrite bool_decide_false by congruence. by rewrite IH.
Qed.

Lemma foldl_addPattern : ∀ new patterns,
  NoDup (name <$> patterns ++ new) →
  foldl (λ patterns p, addPattern p patterns) patterns new = patterns ++ new.
Proof.
  induction new as [|p new IH]; intros patterns Hnd; simpl; [by rewrite app_nil_r|].
  rewrite addPattern_fresh.
  - rewrite IH; rewrite <-app_assoc; done.
  - rewrite fmap_app, fmap_cons in Hnd.
    apply NoDup_app in Hnd as (_ & Hdisj & _).
    intros Hin. apply (Hdisj _ Hin). left.
Qed.

Lemma registered_names_NoDup : NoDup (name <$> registered).
Proof. apply (bool_decide_unpack _). by vm_compute. Qed.

(** Every pattern of the source is registered, under its own name. *)
Lemma initializePatterns_registered : initializePatterns = registered.
Proof. apply (foldl_addPattern registered []), registered_names_NoDup. Qed.

Lemma insertByPriority_Permutation p : ∀ sorted,
  insertByPriority p sorted ≡ₚ p :: sorted.
Proof.
  induction sorted as [|q sorted IH]; simpl; [done|].
  destruct (priority p <? priority q)%Z; [|done].
  rewrite IH. apply Permutation_swap.
Qed.

Lemma sortByPriority_Permutation patterns : sortByPriority patterns ≡ₚ patterns.
Proof.
  induction patterns as [|p patterns IH]; simpl; [done|].
  by rewrite insertByPriority_Permutation, IH.
Qed.

Lemma registry_names_NoDup : NoDup (name <$> sortByPriority initializePatterns).
Proof.
  rewrite sortByPriority_Permutation, initializePatterns_registered.
  apply registered_names_NoDup.
Qed.

Lemma registry_elem_of p :
  p ∈ registered → p ∈ sortByPriority initializePatterns.
Proof. by rewrite sortByPriority_Permutation, initializePatterns_registered. Qed.

Lemma nonempty_progresses text p :
  (global (regex p) = true → nonempty (re (regex p)) = true) → progresses text p.
Proof.
  intros Hne G lastIndex m E.
  apply exec_span in E as (_ & _ & H). by apply H, Hne.
Qed.

Lemma registry_progresses text :
  Forall (progresses text) (sortByPriority initializePatterns).
Proof.
  apply sortByPriority_Forall. rewrite initializePatterns_registered.
  repeat (constructor; [by apply nonempty_progresses; vm_compute|]).
  constructor.
Qed.

(** The converter's matcher returns, with the result map [collect]
    describes. *)
Lemma extractPatterns_returns text :
  ∃ results warnings,
    extractPatterns text = Some (Ok (results, warnings))
    ∧ collect (S (String.length text)) (sortByPriority initializePatterns) text ∅ []
      = Some (results, warnings).
Proof.
  unfold extractPatterns, extractPatternsWith. rewrite patternLoop_spec.
  destruct (collect_total text (S (String.length text)) (Nat.lt_succ_diag_r _)
              (sortByPriority initializePatterns) ∅ [] (registry_progresses text))
    as [[results warnings] H].
  exists results, warnings. by rewrite H.
Qed.

(** What the result map holds under the name of a registered pattern. *)
Lemma registry_lookup text results warnings p :
  p ∈ sortByPriority initializePatterns →
  extractPatterns text = Some (Ok (results, warnings)) →
  ∃ all, successiveMatches (S (String.length text)) (regex p) text 0 = Some all
    ∧ results !! name p = if 0 <? length (omap (kept p) all)
                          then Some (omap (kept p) all) else None.
Proof.
  intros Hin. unfold extractPatterns, extractPatternsWith. rewrite patternLoop_spec.
  destruct (collect _ _ _ _ _) as [[r ws]|] eqn:E; simpl; [|done].
  intros [= -> ->].
  destruct (collect_lookup _ _ p _ _ _ _ _ registry_names_NoDup Hin E)
    as (all & Hall & Hl).
  exists all. by rewrite Hl, lookup_empty.
Qed.

End RegistryFacts.

(** ** Claims about the parser *)

Module ParserClaims.

Import RegExp RegExpSpec RegExpFacts.
Import PatternMatcher PatternMatcherSpec PatternMatcherFacts RegistryFacts.
Import TextAnalyzer TextAnalyzerSpec.

Lemma succ_ltb_length {A} (l : list A) n :
  (n <? length l) = bool_decide (n < length l).
Proof.
  destruct (Nat.ltb_spec n (length l)).
  - by rewrite bool_decide_true.
  - by rewrite bool_decide_false by lia.
Qed.

Lemma assessComplexity_tier ability : assessComplexity ability = complexityTier ability.
Proof.
  unfold assessComplexity, complexityTier.
  rewrite !succ_ltb_length.
  destruct (ParsedAbility.conditions ability) as [|c cs]; simpl;
    destruct (decide (ActivationData.type (ParsedAbility.activation ability) = "reaction"))
      as [Hr|Hr];
    rewrite ?(bool_decide_true _ Hr), ?(bool_decide_false _ Hr);
    destruct (ParsedAbility.saves ability) as [|s ss],
             (ParsedAbility.effects ability) as [|e [|e' es]],
             (ParsedAbility.damage ability) as [|d [|d' ds]],
             (ResourceData.consumesResource (ParsedAbility.resources ability));
    reflexivity.
Qed.

Lemma complexityTier_setComplexity c ability :
  complexityTier (ParsedAbility.setComplexity c ability) = complexityTier ability.
Proof. reflexivity. Qed.

Lemma analyzeWith_complexity patterns text name d :
  analyzeWith patterns text name = Ok d →
  ParsedAbility.complexity (AbilityDescription.parsed d)
  = complexityTier (AbilityDescription.parsed d).
Proof.
  unfold analyzeWith.
  repeat match goal with
         | |- bindE ?m _ = _ → _ => destruct m; simpl; [|discriminate]
         end.
  intros [= <-]. simpl. by rewrite assessComplexity_tier.
Qed.

(** C5. The baseline complexity tier of every parsed ability is the value
    of the specification's computation: 1, plus one for any condition, plus
    one for several damage entries, set to 4 for a reaction, plus one for
    several effects, plus one for a save with an effect, plus one for a
    consumed resource, clamped to 4.  This holds of [assessComplexity] on
    every ability, and of the tier [analyzeText] stores. *)
Theorem baseline_complexity_tier :
  (∀ ability, assessComplexity ability = complexityTier ability)
  ∧ (∀ text name d,
       analyzeText text name = Some (Ok d) →
       ParsedAbility.complexity (AbilityDescription.parsed d)
       = complexityTier (AbilityDescription.parsed d)).
Proof.
  split; [apply assessComplexity_tier|].
  intros text name d. unfold analyzeText.
  destruct (extractPatterns text) as [[[patterns warnings]|e]|]; simpl; try discriminate.
  intros [= H]. by eapply analyzeWith_complexity.
Qed.

Lemma baseline_complexity_tier_witness :
  match analyzeText "Bear Hug (Recharge 4-6). DC 15 Dex save or be grappled." None with
  | Some (Ok d) =>
      ParsedAbility.complexity (AbilityDescription.parsed d)
      = complexityTier (AbilityDescription.parsed d)
  | _ => False
  end.
Proof.
  destruct (analyzeText _ None) as [[d|e]|] eqn:E.
  - exact (proj2 baseline_complexity_tier _ _ _ E).
  - vm_compute in E. discriminate E.
  - vm_compute in E. discriminate E.
Defined.

(** *** Extractor failures *)

Lemma extractPatternsWith_spec fuel patterns text :
  extractPatternsWith fuel patterns text
  = Ok <$> collect fuel (sortByPriority patterns) text ∅ [].
Proof. apply patternLoop_spec. Qed.

(** The warnings of a run: those it started with, and one for every match
    whose extractor throws. *)
Lemma collect_warned text fuel : ∀ sorted results warnings r ws,
  collect fuel sorted text results warnings = Some (r, ws) →
  (∀ w, w ∈ warnings → w ∈ ws)
  ∧ ∀ p all m e,
      p ∈ sorted → successiveMatches fuel (regex p) text 0 = Some all →
      m ∈ all → extractor p m = Throw e → (name p, e) ∈ ws.
Proof.
  induction sorted as [|q sorted IH]; intros results warnings r ws; simpl.
  - intros [= _ ->]. split; [done|]. by intros p all m e ?%not_elem_of_nil.
  - destruct (successiveMatches fuel (regex q) text 0) as [allq|] eqn:E; simpl; [|done].
    intros H. apply IH in H as [Hkeep Hwarn]. split.
    + intros w Hw. apply Hkeep, elem_of_app. by left.
    + intros p all m e [->|Hp]%elem_of_cons Hall Hm He; [|by eapply Hwarn].
      rewrite E in Hall. injection Hall as ->.
      apply Hkeep, elem_of_app. right.
      apply list_elem_of_omap. exists m. split; [done|].
      unfold warned. by rewrite He.
Qed.

(** Every warning of a run is one it started with, or comes from a match
    whose extractor throws. *)
Lemma collect_warnings_origin text fuel : ∀ sorted results warnings r ws,
  collect fuel sorted text results warnings = Some (r, ws) →
  ∀ w, w ∈ ws →
    w ∈ warnings
    ∨ ∃ p all m,
        p ∈ sorted ∧ successiveMatches fuel (regex p) text 0 = Some all
        ∧ m ∈ all ∧ extractor p m = Throw (snd w) ∧ name p = fst w.
Proof.
  induction sorted as [|q sorted IH]; intros results warnings r ws; simpl.
  - intros [= _ ->] w Hw. by left.
  - destruct (successiveMatches fuel (regex q) text 0) as [allq|] eqn:E; simpl; [|done].
    intros H w Hw. destruct (IH _ _ _ _ H w Hw) as [Hin|(p & all & m & Hp & ?)].
    + apply elem_of_app in Hin as [Hin|Hin]; [by left|]. right.
      apply list_elem_of_omap in Hin as (m & Hm & Hwarned).
      unfold warned in Hwarned.
      destruct (extractor q m) as [?|e] eqn:He; [done|]. injection Hwarned as <-.
      exists q, allq, m. split_and!; [left | done | done | done | done].
    + right. exists p, all, m. split; [by right | done].
Qed.

(** C6. Whatever the registered patterns and the text: [extractPatterns]
    and [getFirstMatch] never pass an extractor's exception on; the loop
    over a pattern's matches keeps the entry of every match whose extractor
    returns, records a warning for every match whose extractor throws, and
    goes on with the matches that remain; with patterns whose global
    expressions match no empty text it returns a result; and registries
    that differ only in the extractor under one name give the same entries
    under every other name.  The run as a whole does the same, pattern by
    pattern ([collect]): in what [extractPatterns] returns for patterns
    with distinct names, every match of a pattern whose extractor throws
    has its warning, the map holds under the pattern's name exactly the
    entries of the matches whose extractor returns, in order, those after
    a failure included, and every warning comes from a match whose
    extractor throws. *)
Theorem extractor_errors_are_skipped (patterns : list ParsingPattern) (text : string) :
  (∀ fuel e, extractPatternsWith fuel patterns text ≠ Some (Throw e))
  ∧ (∀ patternName e, getFirstMatchWith patterns text patternName ≠ Throw e)
  ∧ (∀ fuel p lastIndex matches warnings,
       matchLoop fuel p text lastIndex matches warnings
       = (λ all, Ok (matches ++ omap (kept p) all, warnings ++ omap (warned p) all))
         <$> successiveMatches fuel (regex p) text lastIndex)
  ∧ (Forall (progresses text) patterns →
     ∃ results warnings,
       extractPatternsWith (S (String.length text)) patterns text
       = Some (Ok (results, warnings)))
  ∧ (∀ fuel n patterns' results warnings,
       Forall2 (sameBut n) patterns patterns' →
       extractPatternsWith fuel patterns text = Some (Ok (results, warnings)) →
       ∃ results' warnings',
         extractPatternsWith fuel patterns' text = Some (Ok (results', warnings'))
         ∧ ∀ k, k ≠ n → results' !! k = results !! k)
  ∧ (∀ fuel,
       extractPatternsWith fuel patterns text
       = Ok <$> collect fuel (sortByPriority patterns) text ∅ [])
  ∧ (∀ fuel results warnings,
       extractPatternsWith fuel patterns text = Some (Ok (results, warnings)) →
       (∀ p, p ∈ patterns →
          ∃ all, successiveMatches fuel (regex p) text 0 = Some all
            ∧ (∀ m e, m ∈ all → extractor p m = Throw e → (name p, e) ∈ warnings)
            ∧ (NoDup (name <$> patterns) →
               results !! name p
               = if bool_decide (omap (kept p) all = []) then None
                 else Some (omap (kept p) all)))
       ∧ (∀ n e, (n, e) ∈ warnings →
            ∃ p all m,
              p ∈ patterns ∧ name p = n
              ∧ successiveMatches fuel (regex p) text 0 = Some all
              ∧ m ∈ all ∧ extractor p m = Throw e)).
Proof.
  split_and!.
  - intros fuel e. rewrite extractPatternsWith_spec.
    by destruct (collect _ _ _ _ _).
  - intros patternName e. unfold getFirstMatchWith.
    destruct (list_find _ _) as [[i p]|]; [|done].
    destruct (exec _ _ _) as [m|]; [|done].
    by destruct (extractor p m).
  - intros. apply matchLoop_spec.
  - intros Hp. rewrite extractPatternsWith_spec.
    destruct (collect_total text (S (String.length text)) (Nat.lt_succ_diag_r _)
                (sortByPriority patterns) ∅ [] (sortByPriority_Forall _ _ Hp))
      as [[results warnings] H].
    exists results, warnings. by rewrite H.
  - intros fuel n patterns' results warnings Hsame.
    rewrite !extractPatternsWith_spec.
    pose proof (collect_sameBut n text fuel _ _ (sortByPriority_Forall2 _ _ _ Hsame)
                  ∅ ∅ [] [] (λ k _, eq_refl)) as H.
    destruct (collect fuel (sortByPriority patterns) _ _ _) as [[r ws]|]; simpl;
      [|done].
    destruct (collect fuel (sortByPriority patterns') _ _ _) as [[r' ws']|]; [|done].
    intros [= -> ->]. exists r', ws'. split; [done|].
    intros k Hk. symmetry. by apply H.
  - intros fuel. apply extractPatternsWith_spec.
  - intros fuel results warnings. rewrite extractPatternsWith_spec.
    destruct (collect fuel (sortByPriority patterns) text ∅ []) as [[r ws]|] eqn:E;
      simpl; [|done].
    intros [= -> ->]. split.
    + intros p Hp.
      assert (p ∈ sortByPriority patterns) as Hsorted
        by by rewrite sortByPriority_Permutation.
      assert (is_Some (successiveMatches fuel (regex p) text 0)) as [all Hall].
      { clear -E Hsorted. revert E. generalize (∅ : gmap string (list Matched)).
        generalize (@nil Warning).
        induction (sortByPriority patterns) as [|q sorted IH]; intros ws0 r0;
          [by apply not_elem_of_nil in Hsorted|].
        simpl. destruct (successiveMatches fuel (regex q) text 0) as [allq|] eqn:Eq;
          simpl; [|done].
        apply elem_of_cons in Hsorted as [->|Hsorted]; [by rewrite Eq|].
        by apply IH. }
      exists all. split; [done|]. split.
      * intros m e Hm He.
        by apply (proj2 (collect_warned _ _ _ _ _ _ _ E) p all m e).
      * intros Hnd.
        destruct (collect_lookup text fuel p (sortByPriority patterns) ∅ [] results
                    warnings) as (all' & Hall' & Hl); [|done|done|].
        { by rewrite sortByPriority_Permutation. }
        rewrite Hall in Hall'. injection Hall' as <-. rewrite Hl, lookup_empty.
        by destruct (omap (kept p) all).
    + intros n e Hw.
      destruct (collect_warnings_origin _ _ _ _ _ _ _ E _ Hw)
        as [?%not_elem_of_nil|(p & all & m & Hp & Hall & Hm & He & Hn)]; [done|].
      exists p, all, m. split_and!; try done.
      by rewrite sortByPriority_Permutation in Hp.
Qed.

(** A registry whose first pattern reads dice and always fails. *)
Definition failingDice : ParsingPattern :=
  mkPattern "damage_simple" (regex damage_simple)
    (λ _, Throw (ErrorObj "extractor failed")) 85.

Lemma extractor_errors_are_skipped_witness :
  ∃ results warnings,
    extractPatternsWith 33 [failingDice; save_dc] "DC 15 Dex save, 2d6 fire damage."
    = Some (Ok (results, warnings))
    ∧ results !! "save_dc" = Some [mkMatched (Save (Int 15) "dex") "DC 15 Dex save" 0]
    ∧ results !! "damage_simple" = None
    ∧ ("damage_simple", ErrorObj "extractor failed") ∈ warnings.
Proof.
  pose proof (extractor_errors_are_skipped [failingDice; save_dc]
                "DC 15 Dex save, 2d6 fire damage.")
    as (_ & _ & _ & Hreturns & _ & _ & Hrun).
  destruct Hreturns as (results & warnings & E).
  { repeat constructor; apply nonempty_progresses; reflexivity. }
  exists results, warnings. split; [exact E|].
  destruct (Hrun _ _ _ E) as [Hpatterns _].
  destruct (Hpatterns save_dc) as (saves & Hsaves & _ & Hkept).
  { right. left. }
  destruct (Hpatterns failingDice) as (dice & Hdice & Hwarned & Hskipped).
  { left. }
  assert (NoDup (name <$> [failingDice; save_dc])) as Hnd.
  { apply (bool_decide_unpack _). vm_compute. exact I. }
  vm_compute in Hsaves. injection Hsaves as <-.
  vm_compute in Hdice. injection Hdice as <-.
  split; [exact (Hkept Hnd)|]. split; [exact (Hskipped Hnd)|].
  refine (Hwarned _ _ _ eq_refl). left.
Defined.

(** What the matcher returns there: the save is read, the dice are not,
    and one warning is recorded. *)
Example failing_extractor_run :
  match extractPatternsWith 33 [failingDice; save_dc]
          "DC 15 Dex save, 2d6 fire damage." with
  | Some (Ok (results, warnings)) =>
      map_to_list results
      = [("save_dc", [mkMatched (Save (Int 15) "dex") "DC 15 Dex save" 0])]
      ∧ warnings = [("damage_simple", ErrorObj "extractor failed")]
  | _ => False
  end.
Proof. vm_compute. split; reflexivity. Qed.

End ParserClaims.

Module DamageClaims.

Import RegExp RegExpSpec RegExpFacts.
Import PatternMatcher PatternMatcherSpec PatternMatcherFacts RegistryFacts.
Import TextAnalyzer TextAnalyzerSpec.

Ltac registered :=
  apply registry_elem_of;
  repeat first [apply list_elem_of_here | apply list_elem_of_further].

(** What [patterns.get(name) || []] reads for a registered pattern. *)
Lemma getOrEmpty_registered text results warnings p :
  p ∈ sortByPriority initializePatterns →
  extractPatterns text = Some (Ok (results, warnings)) →
  ∃ all, successiveMatches (S (String.length text)) (regex p) text 0 = Some all
    ∧ getOrEmpty results (name p) = omap (kept p) all.
Proof.
  intros Hin H. destruct (registry_lookup _ _ _ _ Hin H) as (all & Hall & Hl).
  exists all. split; [done|]. unfold getOrEmpty. rewrite Hl.
  destruct (omap (kept p) all); done.
Qed.

Lemma averaged_entries (all : list RegExp.Match) :
  toDamage <$> omap (kept damage_with_average) all = omap averagedEntry all.
Proof.
  rewrite list_fmap_omap. apply list_omap_ext, Forall2_same_length_lookup_2; [done|].
  intros i m m' H1 H2. assert (m = m') as <- by congruence.
  unfold kept, averagedEntry. simpl. unfold grp.
  destruct (group m 2); [|done]. simpl. by destruct (group m 3).
Qed.

Lemma simple_entries (all : list RegExp.Match) :
  toDamage <$> omap (kept damage_simple) all = omap simpleEntry all.
Proof.
  rewrite list_fmap_omap. apply list_omap_ext, Forall2_same_length_lookup_2; [done|].
  intros i m m' H1 H2. assert (m = m') as <- by congruence.
  unfold kept, simpleEntry. simpl. unfold grp.
  destruct (group m 1); [|done]. simpl. by destruct (group m 2).
Qed.

Lemma existsb_formula (damage : list DamageData.t) f :
  existsb (λ existing, bool_decide (DamageData.formula existing = f)) damage
  = bool_decide (f ∈ DamageData.formula <$> damage).
Proof.
  induction damage as [|d damage IH]; [done|].
  cbn [existsb]. rewrite IH, fmap_cons.
  destruct (decide (DamageData.formula d = f)) as [<-|Hne].
  - rewrite (bool_decide_true (DamageData.formula d = _)) by done.
    symmetry. apply bool_decide_eq_true. left.
  - rewrite (bool_decide_false _ Hne). cbn [orb].
    apply bool_decide_ext. rewrite elem_of_cons.
    split; [by right | intros [Heq|Hin]; [congruence | exact Hin]].
Qed.

(** The loop over the simple matches adds the entries that bring a new
    formula. *)
Lemma fold_simple (simple : list Matched) : ∀ damage : list DamageData.t,
  foldl
    (λ damage d,
       if negb (existsb
                  (λ existing, bool_decide (DamageData.formula existing = Fact.formula d))
                  damage)
       then damage ++ [toDamage d]
       else damage)
    damage simple
  = damage ++ firstByFormula (DamageData.formula <$> damage) (toDamage <$> simple).
Proof.
  induction simple as [|d simple IH]; intros damage; simpl; [by rewrite app_nil_r|].
  rewrite IH, existsb_formula.
  change (DamageData.formula (toDamage d)) with (Fact.formula d).
  destruct (bool_decide (Fact.formula d ∈ DamageData.formula <$> damage)); simpl; [done|].
  by rewrite fmap_app, <-app_assoc.
Qed.

(** C8. For every text the matcher returns, and the damage list extracted
    from its result is the entries of the averaged-format matches
    ("avg (dice) type") followed by those of the simple-format matches
    ("dice type") whose formula is not already present; an entry is the
    formula with whitespace removed, the damage type in lower case. *)
Theorem damage_list_is_deduplicated_union (text : string) :
  ∃ patterns warnings averaged simple,
    extractPatterns text = Some (Ok (patterns, warnings))
    ∧ successiveMatches (S (String.length text)) (regex damage_with_average) text 0
      = Some averaged
    ∧ successiveMatches (S (String.length text)) (regex damage_simple) text 0
      = Some simple
    ∧ extractDamage patterns
      = unionByFormula (omap averagedEntry averaged) (omap simpleEntry simple).
Proof.
  destruct (extractPatterns_returns text) as (patterns & warnings & H & _).
  destruct (getOrEmpty_registered text _ _ damage_with_average ltac:(registered) H)
    as (averaged & Ha & Hga).
  destruct (getOrEmpty_registered text _ _ damage_simple ltac:(registered) H)
    as (simple & Hs & Hgs).
  exists patterns, warnings, averaged, simple. split_and!; try done.
  unfold extractDamage, unionByFormula. simpl in Hga, Hgs.
  by rewrite Hga, Hgs, fold_simple, averaged_entries, simple_entries.
Qed.

End DamageClaims.

Module ActivationClaims.

Import RegExp RegExpSpec RegExpFacts.
Import PatternMatcher PatternMatcherSpec PatternMatcherFacts RegistryFacts.
Import TextAnalyzer TextAnalyzerSpec.

(** Under the name of a registered pattern without the global flag whose
    extractor returns the constant [c]: the entry of the first match. *)
Lemma lookup_constant text patterns warnings p c :
  p ∈ registered → global (regex p) = false → extractor p = (λ _, Ok c) →
  extractPatterns text = Some (Ok (patterns, warnings)) →
  patterns !! name p
  = (λ m, [mkMatched c (matched m) (RegExp.index m)]) <$> exec (regex p) text 0.
Proof.
  intros Hin Hg Hc H.
  destruct (registry_lookup _ _ _ p (registry_elem_of _ Hin) H) as (all & Hall & ->).
  simpl in Hall. rewrite Hg in Hall. unfold kept. rewrite Hc.
  destruct (exec (regex p) text 0) as [m|]; simpl in Hall; by injection Hall as <-.
Qed.

Ltac in_registered :=
  repeat first [apply list_elem_of_here | apply list_elem_of_further].

(** C9. For every text the activation is resolved in this order: a match
    of the reaction pattern gives a reaction; otherwise a match of the
    bonus-action pattern that begins within the first 50 characters gives a
    bonus action; otherwise a match of the action pattern gives an action;
    otherwise the default, an action of cost 1. *)
Theorem activation_priority_order (text : string) :
  ∃ patterns warnings,
    extractPatterns text = Some (Ok (patterns, warnings))
    ∧ extractActivation patterns = Ok (activationByPriority text).
Proof.
  destruct (extractPatterns_returns text) as (patterns & warnings & H & _).
  exists patterns, warnings. split; [done|].
  pose proof (lookup_constant text _ _ activation_reaction (Activation "reaction" 1)
                ltac:(in_registered) eq_refl eq_refl H) as Hr.
  pose proof (lookup_constant text _ _ activation_bonus (Activation "bonus" 1)
                ltac:(in_registered) eq_refl eq_refl H) as Hb.
  pose proof (lookup_constant text _ _ activation_action (Activation "action" 1)
                ltac:(in_registered) eq_refl eq_refl H) as Ha.
  change (name activation_reaction) with "activation_reaction" in Hr.
  change (name activation_bonus) with "activation_bonus" in Hb.
  change (name activation_action) with "activation_action" in Ha.
  unfold extractActivation, actionOrDefault, activationByPriority, has, getFirst,
    test, firstMatch.
  rewrite Hr, Hb, Ha.
  destruct (exec (regex activation_reaction) text 0) as [mr|],
           (exec (regex activation_bonus) text 0) as [mb|],
           (exec (regex activation_action) text 0) as [ma|];
    simpl; try done;
    destruct (Nat.ltb_spec (RegExp.index mb) 50) as [Hlt|Hge];
    first [ by rewrite (bool_decide_true (RegExp.index mb < 50)) by done
          | by rewrite (bool_decide_false (RegExp.index mb < 50)) by lia ].
Qed.

End ActivationClaims.

(** ** The base synthesis engine *)

Module RuleEngineFacts.

Import EffectGenerator RuleEngine RuleEngineSpec.

Lemma length_append (a b : string) :
  String.length (a +:+ b) = String.length a + String.length b.
Proof. induction a as [|c a IH]; simpl; [done | by rewrite IH]. Qed.

Lemma charAt_idChars k : k < 62 → String.length (charAt idChars k) = 1.
Proof.
  intros Hk. do 62 (destruct k as [|k]; [reflexivity|]). lia.
Qed.

Lemma drawChars_length : ∀ n id w,
  String.length (fst (drawChars n id w)) = String.length id + n.
Proof.
  induction n as [|n IH]; intros id w; simpl; [lia|].
  unfold bind, randomBelow. rewrite IH, length_append, charAt_idChars; [lia|].
  apply Nat.mod_upper_bound. done.
Qed.

(** A generated identifier has sixteen characters. *)
Lemma generateFoundryId_length w : String.length (fst (generateFoundryId w)) = 16.
Proof. apply drawChars_length. Qed.

Lemma mapM_ids {A} (xs : list A) : ∀ w,
  length (fst (mapM (λ _, generateFoundryId) xs w)) = length xs
  ∧ Forall (λ id, String.length id = 16) (fst (mapM (λ _, generateFoundryId) xs w)).
Proof.
  induction xs as [|x xs IH]; intros w; cbn [mapM]; [by split|].
  unfold bind, ret.
  pose proof (generateFoundryId_length w) as Hid.
  destruct (generateFoundryId w) as [id w1]. specialize (IH w1).
  destruct (mapM _ xs w1) as [ids w2]. cbn [fst length] in *.
  destruct IH as [-> Hall].
  split; [done | by constructor].
Qed.

(** One identifier per condition is drawn first. *)
Lemma generateEffectIds_spec ability w :
  length (fst (generateEffectIds ability w)) = length (ParsedAbility.conditions ability)
  ∧ Forall (λ id, String.length id = 16) (fst (generateEffectIds ability w)).
Proof. apply mapM_ids. Qed.

(** With an identifier provided for every condition, the condition effects
    draw nothing and carry the provided identifiers. *)
Lemma conditionEffects_provided ability ids : ∀ todo idx w,
  (∀ i, idx ≤ i < idx + length todo → ∃ id, ids !! i = Some id ∧ id ≠ "") →
  conditionEffects ability (Some ids) todo idx w
  = (omap (λ i, id ← ids !! i; createConditionEffect ability id i)
          (seq idx (length todo)), w).
Proof.
  induction todo as [|c todo IH]; intros idx w Hids; simpl; [done|].
  simpl in Hids. destruct (Hids idx) as (id & Hid & Hne); [lia|].
  rewrite Hid. rewrite bool_decide_false by done.
  unfold bind, ret. rewrite IH by (intros i Hi; apply Hids; lia). simpl.
  by destruct (createConditionEffect ability id idx).
Qed.

(** The artifact is assembled from what is drawn, in this order: the
    identifiers of the conditions, those of the parsed effects, that of the
    item. *)
Lemma generateAutomation_assemble ability w :
  ∃ ids w1 fromEffects w2 itemId w3,
    generateEffectIds ability w = (ids, w1)
    ∧ parsedEffects ability (ParsedAbility.effects ability) w1 = (fromEffects, w2)
    ∧ generateFoundryId w2 = (itemId, w3)
    ∧ generateAutomation ability w = (assemble ability ids fromEffects itemId, w3).
Proof.
  pose proof (generateEffectIds_spec ability w) as [Hlen Hall].
  destruct (generateEffectIds ability w) as [ids w1] eqn:E1. simpl in Hlen, Hall.
  destruct (parsedEffects ability (ParsedAbility.effects ability) w1)
    as [fromEffects w2] eqn:E2.
  destruct (generateFoundryId w2) as [itemId w3] eqn:E3.
  exists ids, w1, fromEffects, w2, itemId, w3.
  split; [reflexivity|]. split; [exact E2|]. split; [exact E3|].
  unfold generateAutomation, generateEffects, generateActiveEffects, generateItemData,
    bind, ret.
  rewrite E1, E2.
  rewrite conditionEffects_provided.
  - rewrite E3. unfold assemble, conditionEffectsOf.
    by destruct (generateSystemData _ _ _), (generateFlags ability).
  - intros i [_ Hi]. simpl in Hi. rewrite <-Hlen in Hi.
    destruct (lookup_lt_is_Some_2 ids i Hi) as [id Hid].
    exists id. split; [done|].
    rewrite Forall_forall in Hall.
    specialize (Hall id (list_elem_of_lookup_2 _ _ _ Hid)).
    intros ->. discriminate Hall.
Qed.

End RuleEngineFacts.

Module SynthesisClaims.

Import TextAnalyzer EffectGenerator RuleEngine RuleEngineSpec RuleEngineFacts.

(** C1, at the failing input.  The attack that grants advantage is read
    as a weapon attack with one condition, of type advantage.  Whatever
    identifiers are drawn, the attack activity then refers to the
    identifier generated for that condition while the effect list is
    empty: the identifier correlation invariant fails. *)
Theorem advantage_reference_dangles :
  ∃ d, analyzeText advantageText None = Some (Ok d)
    ∧ ∀ w, ∃ result w' id,
        generateAutomation (AbilityDescription.parsed d) w = (Ok result, w')
        ∧ AutomationResult.effects result = []
        ∧ referencedIds (AutomationResult.item result) = [id]
        ∧ ¬ correlated result.
Proof.
  eexists. split; [vm_compute; reflexivity|].
  intros w.
  match goal with |- context [generateAutomation ?a w] => set (ability := a) end.
  destruct (generateAutomation_assemble ability w)
    as (ids & w1 & fromEffects & w2 & itemId & w3 & E1 & E2 & E3 & ->).
  pose proof (generateEffectIds_spec ability w) as [Hlen _].
  rewrite E1 in Hlen. simpl in Hlen.
  destruct ids as [|id [|id' ids]]; try discriminate Hlen.
  injection E2 as <- <-.
  eexists _, w3, id. split; [vm_compute; reflexivity|].
  repeat split.
  intros Hcorr. specialize (Hcorr id). simpl in Hcorr.
  apply not_elem_of_nil in Hcorr; [done|].
  vm_compute. left.
Qed.

Lemma generateActivityDamageParts_types ability :
  DamagePart.types <$> generateActivityDamageParts ability
  = (λ d, [DamageData.type d]) <$> ParsedAbility.damage ability.
Proof.
  unfold generateActivityDamageParts. rewrite <-list_fmap_compose.
  apply list_fmap_ext. intros i d _. simpl.
  by destruct (RegExp.firstMatch _ _).
Qed.

(** C2.  For every parsed ability (and identifiers) the activities are
    generated, and: with an attack classification, a save and a condition,
    the save activity has damage-on-save mode "none" while the attack
    activity carries the ability's damage parts, one per damage entry with
    its type; with a save but without attack-and-condition, the save
    activity has mode "half" and carries the ability's damage parts. *)
Theorem save_damage_suppressed_beside_attack
    (ability : ParsedAbility.t) (effectIds : list string) :
  let hasAttack := ParsedAbility.type ability = SPELL_ATTACK
                   ∨ ParsedAbility.type ability = WEAPON_ATTACK in
  let hasSave := ParsedAbility.saves ability ≠ [] in
  let hasCondition := ParsedAbility.conditions ability ≠ [] in
  ∃ activities,
    generateActivities ability effectIds = Ok activities
    ∧ (hasAttack → hasSave → hasCondition →
       ∃ save attack,
         activities !! "dnd5eactivity100" = Some save
         ∧ Activity.damageOnSave save = Some "none"
         ∧ activities !! "dnd5eactivity000" = Some attack
         ∧ Activity.damageParts attack = generateActivityDamageParts ability
         ∧ DamagePart.types <$> Activity.damageParts attack
           = (λ d, [DamageData.type d]) <$> ParsedAbility.damage ability)
    ∧ (hasSave → ¬ (hasAttack ∧ hasCondition) →
       ∃ save,
         activities !! "dnd5eactivity100" = Some save
         ∧ Activity.damageOnSave save = Some "half"
         ∧ Activity.damageParts save = generateActivityDamageParts ability).
Proof.
  intros hasAttack hasSave hasCondition. subst hasAttack hasSave hasCondition.
  unfold generateActivities, generateSaveActivity.
  destruct (ParsedAbility.saves ability) as [|save saves] eqn:Es; simpl.
  - eexists. split; [done|]. split; [intros _ H; done | intros H; done].
  - eexists. split; [done|]. split.
    + intros Ha _ Hc.
      assert (bool_decide (ParsedAbility.type ability = SPELL_ATTACK)
              || bool_decide (ParsedAbility.type ability = WEAPON_ATTACK) = true) as ->.
      { destruct Ha as [-> | ->]; done. }
      destruct (ParsedAbility.conditions ability) as [|c cs]; [done|]. simpl.
      eexists _, _. rewrite lookup_insert_eq.
      rewrite lookup_insert_ne by done. rewrite lookup_insert_eq.
      split_and!; try done. simpl. apply generateActivityDamageParts_types.
    + intros _ Hn. eexists. rewrite lookup_insert_eq. split; [done|].
      assert ((bool_decide (ParsedAbility.type ability = SPELL_ATTACK)
               || bool_decide (ParsedAbility.type ability = WEAPON_ATTACK))
              && (0 <? length (ParsedAbility.conditions ability)) = false) as ->;
        [|done].
      apply not_true_is_false. intros [Ha Hc]%andb_true_iff. apply Hn. split.
      * apply orb_true_iff in Ha as [Ha|Ha]; apply bool_decide_eq_true in Ha; auto.
      * by destruct (ParsedAbility.conditions ability).
Qed.

End SynthesisClaims.

(** ** The enhancement orchestrator *)

Module OrchestratorClaims.

Import RegistryFacts TextAnalyzer RuleEngine RuleEngineSpec.
Import ComplexAbilityParser Phase2Converter Phase2Spec.

Lemma assessEnhancedComplexity_ge enhanced :
  (EnhancedAbilityData.complexity enhanced ≤ assessEnhancedComplexity enhanced)%Z.
Proof.
  unfold assessEnhancedComplexity.
  repeat match goal with |- context [if ?b then _ else _] => destruct b end; lia.
Qed.

Lemma parseComplexAbility_ge ability :
  (ParsedAbility.complexity ability
   ≤ EnhancedAbilityData.complexity (parseComplexAbility ability))%Z.
Proof.
  unfold parseComplexAbility, EnhancedAbilityData.complexity. simpl.
  match goal with |- (_ ≤ assessEnhancedComplexity ?e)%Z =>
    exact (assessEnhancedComplexity_ge e) end.
Qed.

Lemma calculateFinalComplexity_ge analysis hc hm hr ir ho :
  (EnhancedAbilityData.complexity analysis
   ≤ calculateFinalComplexity analysis hc hm hr ir ho)%Z.
Proof.
  unfold calculateFinalComplexity.
  repeat match goal with |- context [if ?b then _ else _] => destruct b end; lia.
Qed.

(** The result of the pipeline, when it returns one, carries the final
    complexity of the analysis. *)
Lemma applyPhase2Enhancement_complexity passes ability item w result w' :
  applyPhase2Enhancement passes ability item w = (Ok result, w') →
  ∃ hc hm hr ir ho,
    Phase2EnhancementResult.finalComplexity result
    = calculateFinalComplexity (parseComplexAbility ability) hc hm hr ir ho.
Proof.
  unfold applyPhase2Enhancement, bindMX, bind, ret.
  repeat match goal with
         | |- context [let '(_, _) := ?m ?x ?w in _] =>
             destruct (m x w) as [[?|?] ?]; [|discriminate]
         end.
  intros [= <- _]. simpl. eauto 10.
Qed.

(** C3.  The final complexity tier is at least the base tier: the
    enhanced analysis never lowers the tier of the parsed ability, the
    final computation never lowers that of the analysis, whatever the
    subsystems report; so every result of the enhancement pipeline, for
    every choice of passes, reports a tier at least that of the parsed
    ability. *)
Theorem final_complexity_at_least_base :
  (∀ ability hasConditions hasMacros hasRecharge isReaction hasOngoing,
     (ParsedAbility.complexity ability
      ≤ calculateFinalComplexity (parseComplexAbility ability)
          hasConditions hasMacros hasRecharge isReaction hasOngoing)%Z)
  ∧ (∀ passes ability item w result w',
       applyPhase2Enhancement passes ability item w = (Ok result, w') →
       (ParsedAbility.complexity ability
        ≤ Phase2EnhancementResult.finalComplexity result)%Z).
Proof.
  assert (∀ ability hc hm hr ir ho,
            (ParsedAbility.complexity ability
             ≤ calculateFinalComplexity (parseComplexAbility ability) hc hm hr ir ho)%Z)
    as Hpure.
  { intros. etrans; [apply parseComplexAbility_ge | apply calculateFinalComplexity_ge]. }
  split; [exact Hpure|].
  intros passes ability item w result w' H.
  apply applyPhase2Enhancement_complexity in H as (hc & hm & hr & ir & ho & ->).
  apply Hpure.
Qed.

Lemma final_complexity_at_least_base_witness :
  ∃ result w',
    applyPhase2Enhancement quietPasses Samples.plainAbility Samples.plainItem someWorld
    = (Ok result, w')
    ∧ (ParsedAbility.complexity Samples.plainAbility
       ≤ Phase2EnhancementResult.finalComplexity result)%Z.
Proof.
  destruct (applyPhase2Enhancement quietPasses Samples.plainAbility Samples.plainItem
              someWorld) as [[result|e] w'] eqn:E.
  - exists result, w'. split; [reflexivity|].
    exact (proj2 final_complexity_at_least_base _ _ _ _ _ _ E).
  - vm_compute in E. discriminate E.
Defined.

(** *** The fallback *)

Lemma baseConversion_returns text w : is_Some (baseConversion text w).
Proof.
  unfold baseConversion, analyzeText.
  destruct (extractPatterns_returns text) as (patterns & warnings & -> & _). simpl.
  destruct (analyzeWith patterns text None); [|done].
  by destruct (generateAutomation _ w).
Qed.

(** C7.  [convertAbility] returns a result for every text, passes and
    environment; and when the base conversion succeeds and the enhancement
    pipeline throws, the result is the base result: success, the base
    item unchanged, and an enhancement record that is not applied and
    whose reason is "Enhancement failed: " followed by the error's
    message. *)
Theorem enhancement_failure_returns_base
    (passes : Subsystems.t) (text : string) (w : World) :
  is_Some (convertAbility passes text w)
  ∧ ∀ parsed automation w1 e w2,
      baseConversion text w = Some (Ok (parsed, automation), w1) →
      applyPhase2Enhancement passes parsed (baseFoundryItem automation) w1
      = (Throw e, w2) →
      convertAbility passes text w
      = Some (EnhancedConversionResult.mk true None text (Some parsed) (Some automation)
                (Some (baseFoundryItem automation)) (Some parsed)
                (Phase2Enhancement.mk false
                   (Some ("Enhancement failed: " +:+ errorText e))
                   None None None None None None),
              w2).
Proof.
  split.
  - unfold convertAbility.
    destruct (baseConversion_returns text w) as [[[[parsed automation]|e] w1] ->];
      [|done].
    by destruct (applyPhase2Enhancement _ _ _ _).
  - intros parsed automation w1 e w2 Hbase Henh.
    unfold convertAbility. by rewrite Hbase, Henh.
Qed.

(** With the failing reaction tracker the pipeline throws, whatever the
    ability. *)
Lemma failingPasses_throw ability item w :
  applyPhase2Enhancement failingPasses ability item w
  = (Throw (ErrorObj "reaction tracking failed"), w).
Proof. reflexivity. Qed.

Lemma enhancement_failure_returns_base_witness :
  ∃ parsed automation w',
    convertAbility failingPasses clawText someWorld
    = Some (EnhancedConversionResult.mk true None clawText (Some parsed) (Some automation)
              (Some (baseFoundryItem automation)) (Some parsed)
              (Phase2Enhancement.mk false
                 (Some "Enhancement failed: reaction tracking failed")
                 None None None None None None),
            w').
Proof.
  destruct (baseConversion clawText someWorld)
    as [[[[parsed automation]|e] w1]|] eqn:E.
  - exists parsed, automation, w1.
    exact (proj2 (enhancement_failure_returns_base failingPasses clawText someWorld)
             parsed automation w1 _ w1 E (failingPasses_throw _ _ _)).
  - vm_compute in E. discriminate E.
  - vm_compute in E. discriminate E.
Defined.

(** *** The coverage ratio *)

Lemma countFeature_balanced {A} (xs : list A) counts :
  fst counts = snd counts → fst (countFeature xs counts) = snd (countFeature xs counts).
Proof. unfold countFeature. destruct (0 <? length xs); simpl; lia. Qed.

Lemma Qred_self n : 0 < n →
  Qred (inject_Z (Z.of_nat n) / inject_Z (Z.of_nat n)) = 1%Q.
Proof.
  intros Hn. change 1%Q with (Qred 1). apply Qred_complete.
  apply Qmult_inv_r. unfold Qeq. simpl. lia.
Qed.

Lemma calculateAutomationCoverage_full analysis :
  calculateAutomationCoverage analysis = 1%Q.
Proof.
  unfold calculateAutomationCoverage.
  match goal with |- (let '(_, _) := ?c in _) = _ =>
    assert (fst c = snd c) as Hbal by (repeat apply countFeature_balanced; done);
    destruct c as [total automated]
  end.
  simpl in Hbal. subst automated.
  destruct (Nat.ltb_spec 0 total); [by apply Qred_self | done].
Qed.

(** C10.  The automation-coverage ratio is exactly 1 for every analysis:
    each counted feature adds the same number to the automated count and
    to the total, and without features the ratio is 1.  So the coverage
    component of the grade is always its maximum, 3 points. *)
Theorem coverage_is_always_full (analysis : EnhancedAbilityData.t) :
  calculateAutomationCoverage analysis = 1%Q
  ∧ ∀ item flagQuality macroQuality errorHandling performanceOptimization,
      let metrics :=
        Metrics.mk flagQuality macroQuality (calculateAutomationCoverage analysis)
          errorHandling performanceOptimization in
      coveragePoints metrics = 3%Z
      ∧ assessProfessionalGrade item metrics
        = Z.min (flagPoints metrics + macroPoints metrics + 3
                 + (if errorHandling then 1 else 0)
                 + (if performanceOptimization then 1 else 0)) 10.
Proof.
  split; [apply calculateAutomationCoverage_full|].
  intros item fq mq eh po metrics. subst metrics.
  unfold assessProfessionalGrade, coveragePoints. simpl.
  rewrite calculateAutomationCoverage_full. simpl.
  split; [done|]. destruct eh, po; f_equal; lia.
Qed.

End OrchestratorClaims.

(** ** What the identifiers do not touch *)

Module IdentifierFacts.

Import EffectGenerator RuleEngine RuleEngineSpec RuleEngineFacts.

Lemma createActiveEffect_blank effect ability w w' :
  blankEffect <$> fst (createActiveEffect effect ability w)
  = blankEffect <$> fst (createActiveEffect effect ability w').
Proof.
  unfold createActiveEffect.
  destruct (bool_decide (length (generateChanges effect) = 0)); [done|].
  unfold bind, ret.
  by destruct (generateFoundryId w), (generateFoundryId w').
Qed.

Lemma parsedEffects_blank ability : ∀ todo w w',
  blankEffect <$> fst (parsedEffects ability todo w)
  = blankEffect <$> fst (parsedEffects ability todo w').
Proof.
  induction todo as [|effect todo IH]; intros w w'; simpl; [done|].
  unfold bind, ret.
  pose proof (createActiveEffect_blank effect ability w w') as Hhead.
  destruct (createActiveEffect effect ability w) as [e1 w1],
           (createActiveEffect effect ability w') as [e1' w1'].
  specialize (IH w1 w1').
  destruct (parsedEffects ability todo w1) as [l w2],
           (parsedEffects ability todo w1') as [l' w2'].
  cbn [fst] in *.
  destruct e1 as [a|], e1' as [a'|]; try discriminate Hhead; [|exact IH].
  apply (inj Some) in Hhead. rewrite !fmap_cons. by f_equal.
Qed.

Lemma createConditionEffect_blank ability id id' i :
  blankEffect <$> createConditionEffect ability id i
  = blankEffect <$> createConditionEffect ability id' i.
Proof.
  unfold createConditionEffect.
  destruct (ParsedAbility.conditions ability !! i) as [condition|]; [|done].
  destruct (_ || _); [done|].
  by destruct (_ && _).
Qed.

Lemma conditionEffectsOf_blank ability ids ids' :
  length ids = length ids' →
  blankEffect <$> conditionEffectsOf ability ids
  = blankEffect <$> conditionEffectsOf ability ids'.
Proof.
  intros Hlen. unfold conditionEffectsOf. rewrite !list_fmap_omap.
  apply list_omap_ext, Forall2_same_length_lookup_2; [done|].
  intros i k k' H1 H2. assert (k = k') as <- by congruence.
  destruct (ids !! k) as [id|] eqn:E.
  - destruct (lookup_lt_is_Some_2 ids' k) as [id' ->].
    { rewrite <-Hlen. by eapply lookup_lt_Some. }
    simpl. apply createConditionEffect_blank.
  - rewrite (lookup_ge_None_2 ids' k); [done|].
    rewrite <-Hlen. by apply lookup_ge_None.
Qed.

Lemma setTransfer_blank e : blankEffect (setTransfer e) = setTransfer (blankEffect e).
Proof. reflexivity. Qed.

Lemma refs_blank (o : option bool) (ids : list string) :
  blankRef <$> ((λ id, EffectRef.mk id o) <$> ids)
  = replicate (length ids) (EffectRef.mk "" o).
Proof.
  induction ids as [|id ids IH]; [done|].
  rewrite !fmap_cons. cbn [length replicate]. by rewrite IH.
Qed.

Lemma attackActivity_blank ability ids ids' :
  length ids = length ids' →
  blankActivity (generateAttackActivity ability ids)
  = blankActivity (generateAttackActivity ability ids').
Proof.
  intros Hlen. unfold generateAttackActivity, blankActivity. simpl.
  by rewrite !refs_blank, Hlen.
Qed.

(** The outcome with its activities blanked. *)
Definition blankSystem (system : Exn SystemData.t) : Exn SystemData.t :=
  let? s := system in
  Ok (SystemData.mk (SystemData.description s)
        (blankActivities (SystemData.activities s))
        (SystemData.weaponFields s) (SystemData.assigned s)).

Lemma generateSystemData_blank ability itemType ids ids' :
  length ids = length ids' →
  blankSystem (generateSystemData ability itemType ids)
  = blankSystem (generateSystemData ability itemType ids').
Proof.
  intros Hlen. unfold generateSystemData, generateActivities, generateSaveActivity.
  pose proof (attackActivity_blank ability ids ids' Hlen) as Hattack.
  destruct (0 <? length (ParsedAbility.saves ability)),
           (bool_decide (ParsedAbility.type ability = SPELL_ATTACK)
            || bool_decide (ParsedAbility.type ability = WEAPON_ATTACK));
    simpl; rewrite ?fmap_insert, ?fmap_empty, ?Hattack; try done;
    destruct (head (ParsedAbility.saves ability)); simpl; try done;
    rewrite ?fmap_insert, ?fmap_empty, ?Hattack; unfold blankActivity; simpl;
    by rewrite !refs_blank, Hlen.
Qed.

Lemma assemble_blank ability ids ids' effects effects' itemId itemId' :
  length ids = length ids' →
  blankEffect <$> effects = blankEffect <$> effects' →
  (let? r := assemble ability ids effects itemId in Ok (blankIds r))
  = (let? r := assemble ability ids' effects' itemId' in Ok (blankIds r)).
Proof.
  intros Hlen Heffects. unfold assemble.
  pose proof (generateSystemData_blank ability
                (determineItemType (ParsedAbility.type ability)) ids ids' Hlen) as Hsys.
  pose proof (conditionEffectsOf_blank ability ids ids' Hlen) as Hcond.
  assert (∀ l l' : list ActiveEffectData.t,
            blankEffect <$> l = blankEffect <$> l' →
            blankEffect <$> (setTransfer <$> l) = blankEffect <$> (setTransfer <$> l'))
    as Htransfer.
  { intros l l' H. rewrite <-!list_fmap_compose.
    rewrite (list_fmap_ext (blankEffect ∘ setTransfer) (setTransfer ∘ blankEffect) l)
      by done.
    rewrite (list_fmap_ext (blankEffect ∘ setTransfer) (setTransfer ∘ blankEffect) l')
      by done.
    by rewrite !list_fmap_compose, H. }
  assert (blankEffect <$> (effects ++ conditionEffectsOf ability ids)
          = blankEffect <$> (effects' ++ conditionEffectsOf ability ids')) as Hall.
  { by rewrite !fmap_app, Heffects, Hcond. }
  destruct (generateSystemData _ _ ids) as [s|e], (generateSystemData _ _ ids') as [s'|e'];
    simpl in Hsys; try discriminate Hsys; simpl; [|congruence].
  destruct (generateFlags ability); simpl; [|done].
  unfold blankIds, blankItem. simpl.
  injection Hsys as Hd Ha Hw Hu. rewrite Hd, Ha, Hw, Hu.
  destruct (bool_decide (ParsedAbility.type ability = PASSIVE));
    by rewrite ?(Htransfer _ _ Hall), ?Hall.
Qed.

(** Two runs of the base synthesis differ at most in the identifiers. *)
Lemma generateAutomation_blank ability w w' :
  (let? r := fst (generateAutomation ability w) in Ok (blankIds r))
  = (let? r := fst (generateAutomation ability w') in Ok (blankIds r)).
Proof.
  destruct (generateAutomation_assemble ability w)
    as (ids & w1 & effects & w2 & itemId & w3 & E1 & E2 & _ & ->).
  destruct (generateAutomation_assemble ability w')
    as (ids' & w1' & effects' & w2' & itemId' & w3' & E1' & E2' & _ & ->).
  simpl. apply assemble_blank.
  - pose proof (generateEffectIds_spec ability w) as [H _].
    pose proof (generateEffectIds_spec ability w') as [H' _].
    rewrite E1 in H. rewrite E1' in H'. simpl in *. congruence.
  - pose proof (parsedEffects_blank ability (ParsedAbility.effects ability) w1 w1') as H.
    by rewrite E2, E2' in H.
Qed.

End IdentifierFacts.

Module DeterminismClaims.

Import RegistryFacts TextAnalyzer EffectGenerator RuleEngine RuleEngineSpec.
Import RuleEngineFacts IdentifierFacts Phase2Converter Phase2Spec.

(** C4, as the code has it.  For every text, two runs of the base
    conversion, from any two states of the random source and the clock,
    both return; they read the same ability off the text, fail alike or
    succeed alike, and their artifacts are equal once the generated
    identifiers (the item's, the effects', and the activities' references
    to them) are blanked. *)
Theorem base_conversion_same_up_to_identifiers (text : string) (w1 w2 : World) :
  ∃ outcome1 w1' outcome2 w2',
    baseConversion text w1 = Some (outcome1, w1')
    ∧ baseConversion text w2 = Some (outcome2, w2')
    ∧ blankOutcome outcome1 = blankOutcome outcome2.
Proof.
  unfold baseConversion, analyzeText.
  destruct (extractPatterns_returns text) as (patterns & warnings & -> & _). simpl.
  destruct (analyzeWith patterns text None) as [d|e]; [|by eexists _, _, _, _].
  pose proof (generateAutomation_blank (AbilityDescription.parsed d) w1 w2) as H.
  destruct (generateAutomation _ w1) as [r1 w1'], (generateAutomation _ w2) as [r2 w2'].
  exists (let? automation := r1 in Ok (AbilityDescription.parsed d, automation)), w1',
         (let? automation := r2 in Ok (AbilityDescription.parsed d, automation)), w2'.
  split_and!; try done. simpl in H.
  destruct r1, r2; simpl in *; congruence.
Qed.

(** C4, as stated, fails: converting the same text twice in a row gives
    two different artifacts, the second run drawing other identifiers. *)
Lemma conversion_twice_differs :
  ∃ r1 w1 r2 w2,
    convertAbility quietPasses clawText someWorld = Some (r1, w1)
    ∧ convertAbility quietPasses clawText w1 = Some (r2, w2)
    ∧ r1 ≠ r2.
Proof.
  eexists _, _, _, _. split; [vm_compute; reflexivity|].
  split; [vm_compute; reflexivity|].
  intros Heq.
  apply (f_equal (λ r, FoundryItemData._id <$> EnhancedConversionResult.foundryItem r))
    in Heq.
  vm_compute in Heq. congruence.
Qed.

End DeterminismClaims.

(** ** Where the identifier correlation holds *)

Module CorrelationFacts.

Import EffectGenerator RuleEngine RuleEngineSpec RuleEngineFacts.

(** Every generated activity refers to exactly the identifiers drawn for
    the conditions. *)
Lemma generateActivities_refs ability ids activities k activity :
  generateActivities ability ids = Ok activities →
  activities !! k = Some activity →
  EffectRef._id <$> Activity.effects activity = ids.
Proof.
  assert (∀ o, EffectRef._id <$> ((λ id, EffectRef.mk id o) <$> ids) = ids) as Hrefs.
  { intros o. rewrite <-list_fmap_compose. apply list_fmap_id. }
  unfold generateActivities, generateSaveActivity.
  destruct (0 <? length (ParsedAbility.saves ability)),
           (bool_decide (ParsedAbility.type ability = SPELL_ATTACK)
            || bool_decide (ParsedAbility.type ability = WEAPON_ATTACK)); simpl;
    try destruct (head (ParsedAbility.saves ability)); simpl; try discriminate;
    intros [= <-]; rewrite ?lookup_insert; repeat case_decide;
    rewrite ?lookup_empty; intros [= <-]; apply Hrefs.
Qed.

(** A condition that yields an effect yields it under the identifier
    given. *)
Lemma createConditionEffect_yields ability id i condition :
  ParsedAbility.conditions ability !! i = Some condition →
  yieldsEffect condition →
  ∃ e, createConditionEffect ability id i = Some e ∧ ActiveEffectData._id e = id.
Proof.
  intros Hc (Ha & Hd & [status Hs]). unfold createConditionEffect.
  rewrite Hc, Hs.
  rewrite (bool_decide_false _ Ha), (bool_decide_false _ Hd). simpl.
  eexists. split; reflexivity.
Qed.

Lemma setTransfer_id e : ActiveEffectData._id (setTransfer e) = ActiveEffectData._id e.
Proof. reflexivity. Qed.

(** When every condition yields an effect, every identifier an activity
    refers to is the identifier of a listed effect. *)
Lemma references_resolve_when_conditions_yield_effects ability w result w' :
  Forall yieldsEffect (ParsedAbility.conditions ability) →
  generateAutomation ability w = (Ok result, w') →
  correlated result.
Proof.
  intros Hall.
  destruct (generateAutomation_assemble ability w)
    as (ids & w1 & fromEffects & w2 & itemId & w3 & E1 & _ & _ & ->).
  pose proof (generateEffectIds_spec ability w) as [Hlen _].
  rewrite E1 in Hlen. simpl in Hlen.
  unfold assemble, generateSystemData.
  destruct (generateActivities ability ids) as [activities|] eqn:Hact; simpl;
    [|discriminate].
  destruct (generateFlags ability); simpl; [|discriminate].
  intros [= <- _] id. unfold referencedIds, listedIds. simpl.
  intros (entry & Hid & Hentry)%list_elem_of_bind.
  destruct entry as [k activity]. apply elem_of_map_to_list in Hentry.
  simpl in Hid. rewrite (generateActivities_refs _ _ _ _ _ Hact Hentry) in Hid.
  apply list_elem_of_lookup in Hid as [i Hi].
  destruct (lookup_lt_is_Some_2 (ParsedAbility.conditions ability) i) as [c Hc].
  { rewrite <-Hlen. by eapply lookup_lt_Some. }
  rewrite Forall_forall in Hall.
  destruct (createConditionEffect_yields ability id i c Hc
              (Hall c (list_elem_of_lookup_2 _ _ _ Hc))) as (e & He & Heid).
  assert (e ∈ conditionEffectsOf ability ids) as Hin.
  { unfold conditionEffectsOf. apply list_elem_of_omap. exists i. split.
    - apply elem_of_seq. split; [lia|]. simpl. by eapply lookup_lt_Some.
    - by rewrite Hi. }
  destruct (bool_decide (ParsedAbility.type ability = PASSIVE)).
  - apply list_elem_of_fmap. exists (setTransfer e). split; [by rewrite setTransfer_id|].
    apply list_elem_of_fmap_2, elem_of_app. by right.
  - apply list_elem_of_fmap. exists e. split; [done|]. apply elem_of_app. by right.
Qed.

End CorrelationFacts.

(** ** The scenarios of the specification *)

Module Scenarios.

Import PatternMatcher TextAnalyzer RuleEngine RuleEngineSpec Phase2Spec.
Import SynthesisClaims.

(** A melee weapon attack: weapon item, attack bonus 5, damage 1d8+4
    slashing, complexity tier 1. *)
Example claw_scenario :
  match analyzeText clawText None with
  | Some (Ok d) =>
      let parsed := AbilityDescription.parsed d in
      ParsedAbility.type parsed = WEAPON_ATTACK
      ∧ determineItemType (ParsedAbility.type parsed) = "weapon"
      ∧ ParsedAbility.attackBonus parsed = Some (Int 5)
      ∧ ParsedAbility.damage parsed = [DamageData.mk "1d8+4" "slashing" false]
      ∧ ParsedAbility.complexity parsed = 1%Z
  | _ => False
  end.
Proof. vm_compute. repeat split. Qed.

(** A save against a line of lightning: save dex 15, area a line of 60. *)
Example lightning_scenario :
  match analyzeText
          "DC 15 Dex save, 60-foot line. 28 (8d6) lightning damage, half on save." None with
  | Some (Ok d) =>
      let parsed := AbilityDescription.parsed d in
      ParsedAbility.saves parsed = [SaveData.mk "dex" (Some (Int 15)) "flat"]
      ∧ ParsedAbility.target parsed
        = TargetData.mk (Some (Int 60)) "space" (Some (Int 60)) (Some "ft")
      ∧ ParsedAbility.damage parsed = [DamageData.mk "8d6" "lightning" false]
  | _ => False
  end.
Proof. vm_compute. repeat split. Qed.

Lemma save_damage_suppressed_beside_attack_witness :
  ∃ activities save attack,
    generateActivities Samples.dazingStrike ["AAAAAAAAAAAAAAAA"] = Ok activities
    ∧ activities !! "dnd5eactivity100" = Some save
    ∧ Activity.damageOnSave save = Some "none"
    ∧ activities !! "dnd5eactivity000" = Some attack
    ∧ Activity.damageParts attack = generateActivityDamageParts Samples.dazingStrike.
Proof.
  destruct (save_damage_suppressed_beside_attack Samples.dazingStrike
              ["AAAAAAAAAAAAAAAA"]) as (activities & Hgen & Hboth & _).
  destruct Hboth as (save & attack & H1 & H2 & H3 & H4 & _);
    [right; reflexivity | discriminate | discriminate |].
  exists activities, save, attack. repeat split; assumption.
Defined.

End Scenarios.
(* ===================================================================== *)
(** * Further properties of the converter *)
(* ===================================================================== *)

(** ** The pattern matcher's results *)

Module MatcherFacts.

Import RegExp RegExpSpec RegExpFacts PatternMatcher PatternMatcherSpec PatternMatcherFacts.
Import RegistryFacts MatcherSpec.

(** Every list the result map holds is the kept entries of the successive
    matches of a pattern registered under that name, and is not empty. *)
Lemma collect_values text fuel : ∀ sorted results warnings r ws,
  collect fuel sorted text results warnings = Some (r, ws) →
  ∀ k entries, r !! k = Some entries →
    results !! k = Some entries
    ∨ ∃ p all, p ∈ sorted ∧ name p = k
        ∧ successiveMatches fuel (regex p) text 0 = Some all
        ∧ entries = omap (kept p) all ∧ entries ≠ [].
Proof.
  induction sorted as [|p sorted IH]; intros results warnings r ws; simpl.
  - intros [= -> _] k entries H. by left.
  - destruct (successiveMatches fuel (regex p) text 0) as [all|] eqn:E; simpl; [|done].
    intros H k entries Hk.
    destruct (IH _ _ _ _ H k entries Hk) as [Hin|(q & all' & Hq & Hn & Hs & He & Hne)].
    + destruct (0 <? length (omap (kept p) all)) eqn:L; [|by left].
      destruct (decide (name p = k)) as [<-|Hne].
      * rewrite lookup_insert_eq in Hin. injection Hin as <-.
        right. exists p, all. split_and!; [left | done | done | done |].
        intros Heq. rewrite Heq in L. done.
      * rewrite lookup_insert_ne in Hin by done. by left.
    + right. exists q, all'. split_and!; [by right | done..].
Qed.

Lemma extractPatternsWith_values fuel patterns text results warnings k entries :
  extractPatternsWith fuel patterns text = Some (Ok (results, warnings)) →
  results !! k = Some entries →
  ∃ p all, p ∈ patterns ∧ name p = k
    ∧ successiveMatches fuel (regex p) text 0 = Some all
    ∧ entries = omap (kept p) all ∧ entries ≠ [].
Proof.
  unfold extractPatternsWith. rewrite patternLoop_spec.
  destruct (collect _ _ _ _ _) as [[r ws]|] eqn:E; simpl; [|done].
  intros [= -> ->] Hk.
  destruct (collect_values _ _ _ _ _ _ _ E k entries Hk)
    as [Hin|(p & all & Hp & Hrest)]; [by rewrite lookup_empty in Hin|].
  exists p, all. split; [|done].
  by rewrite sortByPriority_Permutation in Hp.
Qed.

(** Each of the successive matches is what [exec] found from some index. *)
Lemma successiveMatches_exec regex text : ∀ fuel lastIndex all m,
  successiveMatches fuel regex text lastIndex = Some all → m ∈ all →
  ∃ from, exec regex text from = Some m.
Proof.
  induction fuel as [|fuel IH]; intros lastIndex all m; simpl; [done|].
  destruct (exec regex text lastIndex) as [m'|] eqn:E.
  - destruct (global regex); simpl.
    + destruct (successiveMatches fuel regex text (endIndex m')) as [rest|] eqn:R;
        simpl; [|done].
      intros [= <-] [->|Hin]%elem_of_cons; [eauto|]. eapply IH; eauto.
    + intros [= <-] ->%list_elem_of_singleton. eauto.
  - intros [= <-] Hin. by apply not_elem_of_nil in Hin.
Qed.

Lemma kept_elem_of p (all : list RegExp.Match) (e : Matched) :
  e ∈ omap (kept p) all →
  ∃ m, m ∈ all ∧ extractor p m = Ok (extracted e)
    ∧ matchText e = matched m ∧ PatternMatcher.index e = RegExp.index m.
Proof.
  intros (m & Hm & Hk)%list_elem_of_omap. exists m. split; [done|].
  unfold kept in Hk. destruct (extractor p m) as [x|]; [|done].
  by injection Hk as <-.
Qed.

(** *** Where a match lies *)

Lemma substring_take_drop : ∀ (s : string) (n m : nat),
  String.substring n m s = str (take m (drop n (chars s))).
Proof.
  induction s as [|c s IH]; intros [|n] [|m]; simpl; try done.
  f_equal. apply (IH 0 m).
Qed.

Lemma take_length_take {A} (l : list A) d : take (length (take d l)) l = take d l.
Proof.
  rewrite length_take. destruct (decide (d ≤ length l)).
  - by rewrite Nat.min_l.
  - rewrite Nat.min_r by lia. by rewrite !take_ge by lia.
Qed.

Lemma matchAt_located r st m :
  matchAt r st = Some m →
  RegExp.index m = pos st
  ∧ matched m = str (take (String.length (matched m)) (rest st)).
Proof.
  unfold matchAt. destruct (ms _ _ _) as [|st' l]; [done|].
  intros [= <-]. unfold matched, group. simpl. split; [done|].
  by rewrite length_str, take_length_take.
Qed.

Lemma scan_located r : ∀ l p i m,
  scan r p l i = Some m →
  i ≤ RegExp.index m
  ∧ matched m = str (take (String.length (matched m)) (drop (RegExp.index m - i) l)).
Proof.
  induction l as [|c l IH]; intros p i m; simpl.
  - destruct (matchAt _ _) as [m'|] eqn:E; [|done].
    intros [= ->]. apply matchAt_located in E as [-> E]. simpl in *.
    by rewrite Nat.sub_diag.
  - destruct (matchAt _ _) as [m'|] eqn:E.
    + intros [= ->]. apply matchAt_located in E as [-> E]. simpl in *.
      by rewrite Nat.sub_diag.
    + intros [H1 H2]%IH. split; [lia|].
      replace (RegExp.index m - i) with (S (RegExp.index m - S i)) by lia. done.
Qed.

Lemma search_located r : ∀ from l p i m,
  search r p l i from = Some m →
  i ≤ RegExp.index m
  ∧ matched m = str (take (String.length (matched m)) (drop (RegExp.index m - i) l)).
Proof.
  induction from as [|from IH]; intros l p i m; simpl.
  - apply scan_located.
  - destruct l as [|c l]; [done|].
    intros [H1 H2]%IH. split; [lia|].
    replace (RegExp.index m - i) with (S (RegExp.index m - S i)) by lia. done.
Qed.

(** The text of a match is the text found at its index. *)
Lemma exec_located r text lastIndex m :
  exec r text lastIndex = Some m →
  String.substring (RegExp.index m) (String.length (matched m)) text = matched m.
Proof.
  unfold exec. intros [_ H]%search_located.
  rewrite Nat.sub_0_r in H. by rewrite substring_take_drop.
Qed.

(** *** The order of the successive matches *)

Lemma successiveMatches_from regex text : global regex = true →
  ∀ fuel lastIndex all,
    successiveMatches fuel regex text lastIndex = Some all →
    Forall (λ m, lastIndex ≤ RegExp.index m) all ∧ StronglySorted precedes all.
Proof.
  intros G. induction fuel as [|fuel IH]; intros lastIndex all; simpl; [done|].
  destruct (exec regex text lastIndex) as [m|] eqn:E.
  - rewrite G. simpl.
    destruct (successiveMatches fuel regex text (endIndex m)) as [rest|] eqn:R;
      simpl; [|done].
    intros [= <-]. destruct (IH _ _ R) as [Hfrom Hsorted].
    pose proof (exec_span _ _ _ _ E) as (_ & Hidx & _). specialize (Hidx G).
    split.
    + constructor; [done|]. eapply Forall_impl; [exact Hfrom|].
      intros m' Hm'. simpl in Hm'. unfold endIndex in Hm'. lia.
    + constructor; [done|]. exact Hfrom.
  - intros [= <-]. split; constructor.
Qed.

Lemma successiveMatches_single regex text : global regex = false →
  ∀ fuel lastIndex all,
    successiveMatches fuel regex text lastIndex = Some all → length all ≤ 1.
Proof.
  intros G [|fuel] lastIndex all; simpl; [done|].
  destruct (exec regex text lastIndex) as [m|]; rewrite ?G; simpl.
  - intros [= <-]. simpl. lia.
  - intros [= <-]. simpl. lia.
Qed.

Lemma length_omap_le {A B} (f : A → option B) (l : list A) :
  length (omap f l) ≤ length l.
Proof.
  induction l as [|a l IH]; [done|]. change (omap f (a :: l)) with
    (match f a with Some b => b :: omap f l | None => omap f l end).
  destruct (f a); simpl; lia.
Qed.

Lemma StronglySorted_omap {A B} (R : A → A → Prop) (S : B → B → Prop)
    (f : A → option B) (l : list A) :
  (∀ a a' b b', f a = Some b → f a' = Some b' → R a a' → S b b') →
  StronglySorted R l → StronglySorted S (omap f l).
Proof.
  intros HRS. induction 1 as [|a l Hl IH Hall]; simpl; [constructor|].
  destruct (f a) as [b|] eqn:E; [|done].
  constructor; [done|].
  apply Forall_forall. intros b' (a' & Ha' & Hb')%list_elem_of_omap.
  rewrite Forall_forall in Hall. eauto.
Qed.

Lemma StronglySorted_lookup {A} (R : A → A → Prop) (l : list A) :
  StronglySorted R l →
  ∀ i j a b, i < j → l !! i = Some a → l !! j = Some b → R a b.
Proof.
  induction 1 as [|x l Hl IH Hall]; intros i j a b Hij Hi Hj; [done|].
  destruct j as [|j]; [lia|]. destruct i as [|i]; simpl in *.
  - injection Hi as <-. rewrite Forall_forall in Hall.
    apply Hall. by eapply list_elem_of_lookup_2.
  - eapply IH; [|done..]. lia.
Qed.

(** *** The registry seen as a map *)

Lemma list_find_name (patterns : list ParsingPattern) p :
  NoDup (name <$> patterns) → p ∈ patterns →
  ∃ i, list_find (λ q, name q = name p) patterns = Some (i, p).
Proof.
  induction patterns as [|q patterns IH]; intros Hnd Hin;
    [by apply not_elem_of_nil in Hin|].
  rewrite fmap_cons in Hnd. apply NoDup_cons in Hnd as [Hq Hnd]. simpl.
  apply elem_of_cons in Hin as [->|Hin].
  - rewrite decide_True by done. eauto.
  - rewrite decide_False.
    + destruct (IH Hnd Hin) as [i ->]. simpl. eauto.
    + intros Heq. apply Hq. rewrite Heq. by apply list_elem_of_fmap_2.
Qed.

Lemma list_find_unknown (patterns : list ParsingPattern) n :
  n ∉ name <$> patterns → list_find (λ q, name q = n) patterns = None.
Proof.
  intros Hn. apply list_find_None, Forall_forall. intros q Hq Heq.
  apply Hn. rewrite <-Heq. by apply list_elem_of_fmap_2.
Qed.

Lemma successiveMatches_first fuel regex text :
  successiveMatches (S fuel) regex text 0
  = match exec regex text 0 with
    | None => Some []
    | Some m =>
        if negb (global regex) then Some [m]
        else (m ::.) <$> successiveMatches fuel regex text (endIndex m)
    end.
Proof. done. Qed.

End MatcherFacts.

Module MatcherProperties.

Import RegExp RegExpSpec RegExpFacts PatternMatcher PatternMatcherSpec PatternMatcherFacts.
Import RegistryFacts MatcherSpec MatcherFacts.

Lemma insertByPriority_sorted p : ∀ sorted,
  StronglySorted byPriority sorted → StronglySorted byPriority (insertByPriority p sorted).
Proof.
  induction 1 as [|q sorted Hs IH Hall]; simpl; [repeat constructor|].
  destruct (priority p <? priority q)%Z eqn:E.
  - constructor; [done|].
    apply (insertByPriority_Forall (byPriority q)); [|done].
    unfold byPriority. lia.
  - constructor; [by constructor|].
    constructor; [unfold byPriority; lia|].
    eapply Forall_impl; [exact Hall|]. unfold byPriority. intros r Hr. lia.
Qed.

Lemma insertByPriority_filter z p : ∀ sorted,
  filter (λ q, priority q = z) (insertByPriority p sorted)
  = filter (λ q, priority q = z) (p :: sorted).
Proof.
  induction sorted as [|q sorted IH]; simpl; [done|].
  destruct (priority p <? priority q)%Z eqn:E; [|done].
  rewrite filter_cons, IH, !filter_cons.
  destruct (decide (priority q = z)) as [Hq|Hq];
    destruct (decide (priority p = z)) as [Hp|Hp]; try done.
  lia.
Qed.

(** X1: the patterns are tried from the highest priority down, and
    patterns of equal priority in the order they were registered: the
    sorted registry is a rearrangement of the registry, priorities never
    increase along it, and the patterns of any one priority keep their
    order. *)
Theorem patterns_are_tried_by_priority (patterns : list ParsingPattern) :
  sortByPriority patterns ≡ₚ patterns
  ∧ (∀ i j p q, i < j →
       sortByPriority patterns !! i = Some p → sortByPriority patterns !! j = Some q →
       (priority q ≤ priority p)%Z)
  ∧ (∀ z, filter (λ p, priority p = z) (sortByPriority patterns)
          = filter (λ p, priority p = z) patterns).
Proof.
  split_and!.
  - apply sortByPriority_Permutation.
  - apply (StronglySorted_lookup byPriority).
    induction patterns as [|p patterns IH]; simpl; [constructor|].
    by apply insertByPriority_sorted.
  - intros z. induction patterns as [|p patterns IH]; simpl; [done|].
    by rewrite insertByPriority_filter, !filter_cons, IH.
Qed.

(** X2: on every text the converter's matcher returns a result map, without
    throwing; the map holds no empty list, and every key is the name of a
    registered pattern. *)
Theorem extraction_returns_named_nonempty_lists (text : string) :
  ∃ results warnings,
    extractPatterns text = Some (Ok (results, warnings))
    ∧ ∀ k entries, results !! k = Some entries →
        entries ≠ [] ∧ k ∈ getPatternNames.
Proof.
  destruct (extractPatterns_returns text) as (results & warnings & H & _).
  exists results, warnings. split; [done|]. intros k entries Hk.
  destruct (extractPatternsWith_values _ _ _ _ _ _ _ H Hk)
    as (p & all & Hp & <- & _ & _ & Hne).
  split; [done|]. by apply list_elem_of_fmap_2.
Qed.

(** X3: an entry of the result map records where its text was found: the
    text has [matchText] at position [index]. *)
Theorem entry_text_is_found_at_its_index
    (fuel : nat) (patterns : list ParsingPattern) (text : string)
    (results : gmap string (list Matched)) (warnings : list Warning)
    (k : string) (entries : list Matched) (e : Matched) :
  extractPatternsWith fuel patterns text = Some (Ok (results, warnings)) →
  results !! k = Some entries → e ∈ entries →
  String.substring (PatternMatcher.index e) (String.length (matchText e)) text
  = matchText e.
Proof.
  intros H Hk He.
  destruct (extractPatternsWith_values _ _ _ _ _ _ _ H Hk)
    as (p & all & _ & _ & Hall & -> & _).
  apply kept_elem_of in He as (m & Hm & _ & -> & ->).
  destruct (successiveMatches_exec _ _ _ _ _ _ Hall Hm) as [from Hexec].
  by eapply exec_located.
Qed.

Lemma entry_text_is_found_at_its_index_witness :
  String.substring 11 5 "The lich's touch chills." = "touch".
Proof.
  refine (entry_text_is_found_at_its_index 25 [range_touch] "The lich's touch chills."
            {[ "range_touch" := [mkMatched (Range None None "touch") "touch" 11] ]} []
            "range_touch" [mkMatched (Range None None "touch") "touch" 11]
            (mkMatched (Range None None "touch") "touch" 11)
            _ eq_refl (list_elem_of_here _ _)).
  vm_compute. reflexivity.
Defined.

(** X4: the entries under one name follow one another in the text without
    overlapping, and a pattern without the global flag contributes at most
    one entry. *)
Theorem entries_follow_one_another
    (fuel : nat) (patterns : list ParsingPattern) (text : string)
    (results : gmap string (list Matched)) (warnings : list Warning)
    (k : string) (entries : list Matched) :
  extractPatternsWith fuel patterns text = Some (Ok (results, warnings)) →
  results !! k = Some entries →
  (∀ i j a b, i < j → entries !! i = Some a → entries !! j = Some b →
     PatternMatcher.index a + String.length (matchText a) ≤ PatternMatcher.index b)
  ∧ ((∀ p, p ∈ patterns → name p = k → global (regex p) = false) →
     length entries = 1).
Proof.
  intros H Hk.
  destruct (extractPatternsWith_values _ _ _ _ _ _ _ H Hk)
    as (p & all & Hp & Hn & Hall & -> & Hne).
  split.
  - destruct (global (regex p)) eqn:G.
    + apply (StronglySorted_lookup
               (λ a b, PatternMatcher.index a + String.length (matchText a)
                       ≤ PatternMatcher.index b)).
      destruct (successiveMatches_from _ text G _ _ _ Hall) as [_ Hsorted].
      eapply StronglySorted_omap; [|exact Hsorted].
      intros m m' a b Ha Hb Hmm'. unfold kept in Ha, Hb.
      destruct (extractor p m); [|done]. destruct (extractor p m'); [|done].
      injection Ha as <-. injection Hb as <-. exact Hmm'.
    + intros i j a b Hij Hi Hj.
      pose proof (successiveMatches_single _ text G _ _ _ Hall).
      pose proof (length_omap_le (kept p) all).
      apply lookup_lt_Some in Hj. lia.
  - intros Hflag. specialize (Hflag p Hp Hn).
    pose proof (successiveMatches_single _ text Hflag _ _ _ Hall).
    pose proof (length_omap_le (kept p) all).
    destruct (omap (kept p) all); [done|]. simpl in *. lia.
Qed.

Lemma entries_follow_one_another_witness :
  (∀ i j a b, i < j →
     [ mkMatched (Damage "1d6" "fire") "1d6 fire damage" 0;
       mkMatched (Damage "2d4" "cold") "2d4 cold damage" 20 ] !! i = Some a →
     [ mkMatched (Damage "1d6" "fire") "1d6 fire damage" 0;
       mkMatched (Damage "2d4" "cold") "2d4 cold damage" 20 ] !! j = Some b →
     PatternMatcher.index a + String.length (matchText a) ≤ PatternMatcher.index b)
  ∧ ((∀ p, p ∈ [damage_simple] → name p = "damage_simple" → global (regex p) = false) →
     length [ mkMatched (Damage "1d6" "fire") "1d6 fire damage" 0;
              mkMatched (Damage "2d4" "cold") "2d4 cold damage" 20 ] = 1).
Proof.
  refine (entries_follow_one_another 36 [damage_simple]
            "1d6 fire damage and 2d4 cold damage"
            {[ "damage_simple" :=
                 [ mkMatched (Damage "1d6" "fire") "1d6 fire damage" 0;
                   mkMatched (Damage "2d4" "cold") "2d4 cold damage" 20 ] ]} []
            "damage_simple" _ _ eq_refl).
  vm_compute. reflexivity.
Defined.

(** X5: the queries agree with the result map.  A name the map holds is a
    pattern the text has; a pattern whose extractor cannot throw is in the
    map whenever the text has it; a name that is not registered is in
    neither, and its first match is [null]. *)
Theorem queries_agree_with_result_map (text : string) :
  ∃ results warnings,
    extractPatterns text = Some (Ok (results, warnings))
    ∧ (∀ n, is_Some (results !! n) → hasPattern text n = true)
    ∧ (∀ p, p ∈ registered → (∀ m, ∃ e, extractor p m = Ok e) →
            hasPattern text (name p) = true → is_Some (results !! name p))
    ∧ (∀ n, n ∉ getPatternNames →
            results !! n = None ∧ hasPattern text n = false
            ∧ getFirstMatch text n = Ok (None, [])).
Proof.
  destruct (extractPatterns_returns text) as (results & warnings & H & _).
  exists results, warnings. split; [done|].
  assert (∀ p, p ∈ registered →
            hasPattern text (name p) = test (regex p) text) as Hhas.
  { intros p Hp. unfold hasPattern, hasPatternWith.
    rewrite initializePatterns_registered.
    destruct (list_find_name registered p registered_names_NoDup Hp) as [i ->].
    done. }
  split_and!.
  - intros n [entries Hn].
    destruct (extractPatternsWith_values _ _ _ _ _ _ _ H Hn)
      as (p & all & Hp & <- & Hall & -> & Hne).
    rewrite initializePatterns_registered in Hp. rewrite (Hhas p Hp).
    rewrite successiveMatches_first in Hall. unfold test.
    destruct (exec (regex p) text 0) as [m|]; [by apply bool_decide_eq_true|].
    injection Hall as <-. done.
  - intros p Hp Htotal. rewrite (Hhas p Hp). unfold test.
    intros [m Hm]%bool_decide_eq_true.
    destruct (registry_lookup text results warnings p (registry_elem_of p Hp) H)
      as (all & Hall & ->).
    rewrite successiveMatches_first, Hm in Hall.
    assert (∃ rest, all = m :: rest) as [rest ->].
    { destruct (negb (global (regex p))); [injection Hall as <-; eauto|].
      destruct (successiveMatches _ _ _ _) as [rest|]; [|done].
      injection Hall as <-. eauto. }
    change (omap (kept p) (m :: rest)) with
      (match kept p m with Some b => b :: omap (kept p) rest | None => omap (kept p) rest end).
    unfold kept at 1 3. destruct (Htotal m) as [e ->]. done.
  - intros n Hn. unfold getPatternNames in Hn. split_and!.
    + destruct (results !! n) as [entries|] eqn:E; [|done].
      destruct (extractPatternsWith_values _ _ _ _ _ _ _ H E)
        as (p & all & Hp & <- & _).
      destruct Hn. by apply list_elem_of_fmap_2.
    + unfold hasPattern, hasPatternWith. by rewrite list_find_unknown.
    + unfold getFirstMatch, getFirstMatchWith. by rewrite list_find_unknown.
Qed.

(** X6: what [getFirstMatch] extracts is the first entry that
    [extractPatterns] records under the same name. *)
Theorem first_match_heads_the_entries
    (text n : string) (e : Extracted) (ws : list Warning) :
  getFirstMatch text n = Ok (Some e, ws) →
  ∃ results warnings entries first,
    extractPatterns text = Some (Ok (results, warnings))
    ∧ results !! n = Some entries
    ∧ head entries = Some first
    ∧ extracted first = e.
Proof.
  unfold getFirstMatch, getFirstMatchWith.
  destruct (list_find _ _) as [[i p]|] eqn:F; [|done].
  apply list_find_Some in F as (Hi & Hname & _).
  apply list_elem_of_lookup_2 in Hi. rewrite initializePatterns_registered in Hi.
  destruct (exec (regex p) text 0) as [m|] eqn:Hm; [|done].
  destruct (extractor p m) as [x|err] eqn:Hx; simpl; [|done].
  intros [= -> <-].
  destruct (extractPatterns_returns text) as (results & warnings & H & _).
  destruct (registry_lookup text results warnings p (registry_elem_of p Hi) H)
    as (all & Hall & Hl).
  rewrite successiveMatches_first, Hm in Hall.
  assert (∃ rest, all = m :: rest) as [rest ->].
  { destruct (negb (global (regex p))); [injection Hall as <-; eauto|].
    destruct (successiveMatches _ _ _ _) as [rest|]; [|done].
    injection Hall as <-. eauto. }
  change (omap (kept p) (m :: rest)) with
    (match kept p m with Some b => b :: omap (kept p) rest | None => omap (kept p) rest end)
    in Hl.
  unfold kept in Hl. rewrite Hx in Hl. simpl in Hl. rewrite Hname in Hl.
  exists results, warnings. eexists _, _.
  split_and!; [done | exact Hl | reflexivity | reflexivity].
Qed.

Lemma first_match_heads_the_entries_witness :
  ∃ results warnings entries first,
    extractPatterns "Recharge 5-6" = Some (Ok (results, warnings))
    ∧ results !! "recharge" = Some entries
    ∧ head entries = Some first
    ∧ extracted first = Recharge "recharge" (Int 5) (Int 6).
Proof.
  refine (first_match_heads_the_entries "Recharge 5-6" "recharge"
            (Recharge "recharge" (Int 5) (Int 6)) [] _).
  vm_compute. reflexivity.
Defined.

End MatcherProperties.

(** ** The analysis of a text *)

Module AnalyzerFacts.

Import RegExp RegExpSpec RegExpFacts PatternMatcher PatternMatcherSpec PatternMatcherFacts.
Import RegistryFacts MatcherFacts TextAnalyzer AnalyzerSpec.

Lemma getFirst_returns patterns key :
  populated patterns → has patterns key = true →
  ∃ d entries, patterns !! key = Some (d :: entries) ∧ getFirst patterns key = Ok d.
Proof.
  intros Hpop [entries Hk]%bool_decide_eq_true. unfold getFirst. rewrite Hk.
  specialize (Hpop _ _ Hk). destruct entries as [|d entries]; [done|].
  exists d, entries. done.
Qed.

Ltac first_entry Hpop key :=
  let H := fresh "H" in
  destruct (has _ key) eqn:H;
  [ let d := fresh "d" in let l := fresh "l" in let E := fresh "E" in
    destruct (getFirst_returns _ key Hpop H) as (d & l & _ & E); rewrite E; simpl
  | ].

Lemma extractAttackType_returns patterns :
  populated patterns → ∃ r, extractAttackType patterns = Ok r.
Proof.
  intros Hpop. unfold extractAttackType.
  first_entry Hpop "weapon_attack"; [eauto|].
  first_entry Hpop "spell_attack"; eauto.
Qed.

Lemma extractAttackBonus_returns patterns :
  populated patterns → ∃ r, extractAttackBonus patterns = Ok r.
Proof.
  intros Hpop. unfold extractAttackBonus.
  first_entry Hpop "weapon_attack"; [eauto|].
  first_entry Hpop "spell_attack"; eauto.
Qed.

Lemma actionOrDefault_returns patterns :
  populated patterns → ∃ r, actionOrDefault patterns = Ok r.
Proof.
  intros Hpop. unfold actionOrDefault.
  first_entry Hpop "activation_action"; eauto.
Qed.

Lemma extractActivation_returns patterns :
  populated patterns → ∃ r, extractActivation patterns = Ok r.
Proof.
  intros Hpop. unfold extractActivation.
  first_entry Hpop "activation_reaction"; [eauto|].
  first_entry Hpop "activation_bonus"; [|by apply actionOrDefault_returns].
  destruct (_ <? 50); [eauto | by apply actionOrDefault_returns].
Qed.

Lemma firstArea_returns patterns : populated patterns →
  ∀ areas, ∃ r, firstArea patterns areas = Ok r.
Proof.
  intros Hpop. induction areas as [|a areas IH]; simpl; [eauto|].
  first_entry Hpop a; eauto.
Qed.

Lemma extractTarget_returns patterns text :
  populated patterns → ∃ r, extractTarget patterns text = Ok r.
Proof.
  intros Hpop. unfold extractTarget.
  destruct (firstMatch targetCount text); [eauto|].
  destruct (_ || _); [eauto|]. by apply firstArea_returns.
Qed.

Lemma extractResources_returns patterns :
  populated patterns → ∃ r, extractResources patterns = Ok r.
Proof.
  intros Hpop. unfold extractResources.
  first_entry Hpop "uses_per_day"; [eauto|].
  first_entry Hpop "uses_per_rest"; [eauto|].
  first_entry Hpop "recharge"; eauto.
Qed.

Lemma extractDuration_returns patterns :
  populated patterns → ∃ r, extractDuration patterns = Ok r.
Proof.
  intros Hpop. unfold extractDuration.
  destruct (has patterns "duration_instant"); [eauto|].
  first_entry Hpop "duration_concentration"; [eauto|].
  first_entry Hpop "duration_rounds"; eauto.
Qed.

Lemma extractRange_returns patterns :
  populated patterns → ∃ r, extractRange patterns = Ok r.
Proof.
  intros Hpop. unfold extractRange.
  destruct (has patterns "range_touch"); [eauto|].
  destruct (has patterns "range_self"); [eauto|].
  first_entry Hpop "range_distance"; eauto.
Qed.

(** On a populated map the analysis returns, with the fields its
    extractors compute. *)
Lemma analyzeWith_returns patterns text name :
  populated patterns →
  ∃ attackType attackBonus activation target resources duration range complexity,
    extractAttackType patterns = Ok attackType
    ∧ extractAttackBonus patterns = Ok attackBonus
    ∧ extractActivation patterns = Ok activation
    ∧ extractTarget patterns text = Ok target
    ∧ extractResources patterns = Ok resources
    ∧ extractDuration patterns = Ok duration
    ∧ extractRange patterns = Ok range
    ∧ analyzeWith patterns text name
      = Ok (AbilityDescription.mk text
              (ParsedAbility.mk (nameOf text name) text (determineAbilityType patterns)
                 attackType attackBonus activation target (extractDamage patterns)
                 (extractSaves patterns) (extractEffects patterns)
                 (extractConditions patterns text) resources duration range
                 complexity [])).
Proof.
  intros Hpop.
  destruct (extractAttackType_returns _ Hpop) as [attackType E1].
  destruct (extractAttackBonus_returns _ Hpop) as [attackBonus E2].
  destruct (extractActivation_returns _ Hpop) as [activation E3].
  destruct (extractTarget_returns _ text Hpop) as [target E4].
  destruct (extractResources_returns _ Hpop) as [resources E5].
  destruct (extractDuration_returns _ Hpop) as [duration E6].
  destruct (extractRange_returns _ Hpop) as [range E7].
  exists attackType, attackBonus, activation, target, resources, duration, range.
  eexists. split_and!; try done.
  unfold analyzeWith. rewrite E1, E2, E3, E4, E5, E6, E7. simpl. reflexivity.
Qed.

Lemma extractPatterns_populated text results warnings :
  extractPatterns text = Some (Ok (results, warnings)) → populated results.
Proof.
  intros H k entries Hk.
  by destruct (extractPatternsWith_values _ _ _ _ _ _ _ H Hk) as (? & ? & ? & ? & ? & ? & ?).
Qed.

(** The analysis of a text, in terms of the matcher's result map. *)
Lemma analyzeText_returns text name :
  ∃ results warnings attackType attackBonus activation target resources duration range
    complexity,
    extractPatterns text = Some (Ok (results, warnings))
    ∧ populated results
    ∧ extractAttackType results = Ok attackType
    ∧ extractAttackBonus results = Ok attackBonus
    ∧ extractActivation results = Ok activation
    ∧ extractTarget results text = Ok target
    ∧ extractResources results = Ok resources
    ∧ extractDuration results = Ok duration
    ∧ extractRange results = Ok range
    ∧ analyzeText text name
      = Some (Ok (AbilityDescription.mk text
              (ParsedAbility.mk (nameOf text name) text (determineAbilityType results)
                 attackType attackBonus activation target (extractDamage results)
                 (extractSaves results) (extractEffects results)
                 (extractConditions results text) resources duration range
                 complexity []))).
Proof.
  destruct (extractPatterns_returns text) as (results & warnings & H & _).
  pose proof (extractPatterns_populated _ _ _ H) as Hpop.
  destruct (analyzeWith_returns results text name Hpop)
    as (attackType & attackBonus & activation & target & resources & duration & range
        & complexity & E1 & E2 & E3 & E4 & E5 & E6 & E7 & E).
  exists results, warnings, attackType, attackBonus, activation, target, resources,
    duration, range, complexity.
  split_and!; try done.
  unfold analyzeText. rewrite H. simpl. by rewrite E.
Qed.

(** *** Registered patterns in the result map *)

Ltac is_registered :=
  unfold registered;
  repeat first [ apply list_elem_of_here | apply list_elem_of_further ].

Lemma hasPattern_registered text p :
  p ∈ registered → hasPattern text (name p) = test (regex p) text.
Proof.
  intros Hp. unfold hasPattern, hasPatternWith. rewrite initializePatterns_registered.
  by destruct (list_find_name registered p registered_names_NoDup Hp) as [i ->].
Qed.

Lemma getFirstMatch_registered text p :
  p ∈ registered →
  getFirstMatch text (name p)
  = match exec (regex p) text 0 with
    | Some m =>
        tryCatch (let? extracted := extractor p m in Ok (Some extracted, []))
                 (λ error, Ok (None, [(name p, error)]))
    | None => Ok (None, [])
    end.
Proof.
  intros Hp. unfold getFirstMatch, getFirstMatchWith.
  rewrite initializePatterns_registered.
  by destruct (list_find_name registered p registered_names_NoDup Hp) as [i ->].
Qed.

(** Under the name of a registered pattern: nothing when the text has no
    match, and the entry of the first match first when its extractor
    returns. *)
Lemma lookup_first text results warnings p :
  p ∈ registered →
  extractPatterns text = Some (Ok (results, warnings)) →
  match exec (regex p) text 0 with
  | None => results !! name p = None
  | Some m =>
      ∀ e, extractor p m = Ok e →
        ∃ rest, results !! name p
                = Some (mkMatched e (matched m) (RegExp.index m) :: rest)
  end.
Proof.
  intros Hp H.
  destruct (registry_lookup text results warnings p (registry_elem_of p Hp) H)
    as (all & Hall & Hl).
  rewrite successiveMatches_first in Hall.
  destruct (exec (regex p) text 0) as [m|].
  - intros e He.
    assert (∃ rest, all = m :: rest) as [rest ->].
    { destruct (negb (global (regex p))); [injection Hall as <-; eauto|].
      destruct (successiveMatches _ _ _ _) as [rest|]; [|done].
      injection Hall as <-. eauto. }
    change (omap (kept p) (m :: rest)) with
      (match kept p m with Some b => b :: omap (kept p) rest | None => omap (kept p) rest end)
      in Hl.
    unfold kept in Hl. rewrite He in Hl. simpl in Hl. eauto.
  - injection Hall as <-. done.
Qed.

Lemma has_registered text results warnings p :
  p ∈ registered → (∀ m, ∃ e, extractor p m = Ok e) →
  extractPatterns text = Some (Ok (results, warnings)) →
  has results (name p) = hasPattern text (name p).
Proof.
  intros Hp Htotal H. rewrite (hasPattern_registered _ _ Hp).
  pose proof (lookup_first _ _ _ _ Hp H) as Hl. unfold has, test.
  destruct (exec (regex p) text 0) as [m|].
  - destruct (Htotal m) as [e He]. destruct (Hl e He) as [rest ->].
    rewrite !bool_decide_true; done.
  - rewrite Hl. rewrite !bool_decide_false; [done | by intros [] | by intros []].
Qed.

End AnalyzerFacts.

Module AnalyzerProperties.

Import RegExp RegExpSpec RegExpFacts PatternMatcher PatternMatcherSpec PatternMatcherFacts.
Import RegistryFacts MatcherFacts TextAnalyzer AnalyzerSpec AnalyzerFacts.

(** X7: the analysis of a text never throws.  It returns an ability that
    keeps the text as its raw description and, when a name is given, bears
    that name. *)
Theorem analysis_always_returns (text : string) (name : option string) :
  ∃ d, analyzeText text name = Some (Ok d)
    ∧ AbilityDescription.raw d = text
    ∧ ParsedAbility.raw (AbilityDescription.parsed d) = text
    ∧ (∀ n, name = Some n → n ≠ "" →
            ParsedAbility.name (AbilityDescription.parsed d) = n).
Proof.
  destruct (analyzeText_returns text name)
    as (results & warnings & ? & ? & ? & ? & ? & ? & ? & ? & _ & _ & _ & _ & _ & _
        & _ & _ & _ & E).
  eexists. split; [exact E|]. simpl. split_and!; [done | done |].
  intros n -> Hn. simpl. by rewrite bool_decide_false.
Qed.

Lemma total_attackExtractor melee ranged :
  ∀ m, ∃ e, attackExtractor melee ranged m = Ok e.
Proof. intros m. eexists. reflexivity. Qed.

(** What the analysis reads from the first attack line of kind [p]. *)
Lemma first_attack text results warnings p melee ranged :
  p ∈ registered → extractor p = attackExtractor melee ranged →
  extractPatterns text = Some (Ok (results, warnings)) →
  hasPattern text (name p) = true →
  ∃ d, getFirst results (name p) = Ok d
    ∧ (Fact.type d = melee ∨ Fact.type d = ranged)
    ∧ is_Some (Fact.bonus d).
Proof.
  intros Hp Hx H. rewrite (hasPattern_registered _ _ Hp). unfold test.
  intros [m Hm]%bool_decide_eq_true.
  pose proof (lookup_first _ _ _ _ Hp H) as Hl. rewrite Hm in Hl.
  destruct (Hl _ (eq_trans (f_equal (λ f, f m) Hx) eq_refl)) as [rest Hrest].
  eexists. unfold getFirst. rewrite Hrest. simpl. split; [done|].
  unfold Fact.type, Fact.bonus. simpl. split; [|done].
  destruct (includes _ _); auto.
Qed.

(** X8: the attack line decides the kind of ability.  The ability is a
    weapon attack exactly when the text has a weapon attack line, a spell
    attack exactly when it has a spell attack line and no weapon attack
    line; such an ability has an attack bonus and an attack type (melee or
    ranged, of its kind), and no other ability has either. *)
Theorem attack_line_decides_the_type (text : string) (name : option string) :
  ∃ d, analyzeText text name = Some (Ok d)
    ∧ (ParsedAbility.type (AbilityDescription.parsed d) = WEAPON_ATTACK
       ↔ hasPattern text "weapon_attack" = true)
    ∧ (ParsedAbility.type (AbilityDescription.parsed d) = SPELL_ATTACK
       ↔ hasPattern text "weapon_attack" = false
         ∧ hasPattern text "spell_attack" = true)
    ∧ (ParsedAbility.type (AbilityDescription.parsed d) = WEAPON_ATTACK →
       (ParsedAbility.attackType (AbilityDescription.parsed d) = Some "mwak"
        ∨ ParsedAbility.attackType (AbilityDescription.parsed d) = Some "rwak")
       ∧ is_Some (ParsedAbility.attackBonus (AbilityDescription.parsed d)))
    ∧ (ParsedAbility.type (AbilityDescription.parsed d) = SPELL_ATTACK →
       (ParsedAbility.attackType (AbilityDescription.parsed d) = Some "msak"
        ∨ ParsedAbility.attackType (AbilityDescription.parsed d) = Some "rsak")
       ∧ is_Some (ParsedAbility.attackBonus (AbilityDescription.parsed d)))
    ∧ (ParsedAbility.type (AbilityDescription.parsed d) ≠ WEAPON_ATTACK →
       ParsedAbility.type (AbilityDescription.parsed d) ≠ SPELL_ATTACK →
       ParsedAbility.attackType (AbilityDescription.parsed d) = None
       ∧ ParsedAbility.attackBonus (AbilityDescription.parsed d) = None).
Proof.
  destruct (analyzeText_returns text name)
    as (results & warnings & attackType & attackBonus & ? & ? & ? & ? & ? & ?
        & H & _ & E1 & E2 & _ & _ & _ & _ & _ & E).
  eexists. split; [exact E|]. simpl.
  assert (has results "weapon_attack" = hasPattern text "weapon_attack") as Hw.
  { apply (has_registered text results warnings weapon_attack);
      [is_registered | apply total_attackExtractor | done]. }
  assert (has results "spell_attack" = hasPattern text "spell_attack") as Hs.
  { apply (has_registered text results warnings spell_attack);
      [is_registered | apply total_attackExtractor | done]. }
  unfold extractAttackType in E1. unfold extractAttackBonus in E2.
  unfold determineAbilityType. rewrite Hw, Hs in *.
  match goal with
  | |- context [if hasPattern text "weapon_attack" then WEAPON_ATTACK
                else if hasPattern text "spell_attack" then SPELL_ATTACK else ?o] =>
      set (other := o)
  end.
  assert (other ≠ WEAPON_ATTACK ∧ other ≠ SPELL_ATTACK) as [Ho1 Ho2].
  { unfold other.
    repeat match goal with
           | |- context [if ?b then _ else _] => destruct b
           end; split; discriminate. }
  clearbody other.
  destruct (hasPattern text "weapon_attack") eqn:W.
  - destruct (first_attack text results warnings weapon_attack "mwak" "rwak")
      as (d & Hd & Ht & Hb); [is_registered | reflexivity | exact H | exact W |].
    simpl in Hd. rewrite Hd in E1, E2. simpl in E1, E2.
    injection E1 as <-. injection E2 as <-.
    split; [split; reflexivity|].
    split; [split; [discriminate | intros [? _]; discriminate]|].
    split; [intros _; split; [destruct Ht as [-> | ->]; auto | exact Hb]|].
    split; [discriminate|].
    intros Hne. by destruct Hne.
  - destruct (hasPattern text "spell_attack") eqn:S.
    + destruct (first_attack text results warnings spell_attack "msak" "rsak")
        as (d & Hd & Ht & Hb); [is_registered | reflexivity | exact H | exact S |].
      simpl in Hd. rewrite Hd in E1, E2. simpl in E1, E2.
      injection E1 as <-. injection E2 as <-.
      split; [split; discriminate|].
      split; [split; [split; reflexivity | reflexivity]|].
      split; [discriminate|].
      split; [intros _; split; [destruct Ht as [-> | ->]; auto | exact Hb]|].
      intros _ Hne. by destruct Hne.
    + injection E1 as <-. injection E2 as <-.
      split; [split; [intros Heq; by destruct Ho1 | discriminate]|].
      split; [split; [intros Heq; by destruct Ho2 | intros [_ ?]; discriminate]|].
      split; [intros Heq; by destruct Ho1|].
      split; [intros Heq; by destruct Ho2|].
      intros _ _. split; reflexivity.
Qed.

(** X9: the range of the ability follows the range patterns in a fixed
    order: touch, then self, then the first stated distance, and 5 feet
    when the text has none of them. *)
Theorem range_follows_touch_self_distance (text : string) (name : option string) :
  ∃ d, analyzeText text name = Some (Ok d)
    ∧ ParsedAbility.range (AbilityDescription.parsed d)
      = if hasPattern text "range_touch" then RangeData.mk None None "touch"
        else if hasPattern text "range_self" then RangeData.mk None None "self"
        else match getFirstMatch text "range_distance" with
             | Ok (Some (Range value long units), _) => RangeData.mk value long units
             | _ => RangeData.mk (Some (Int 5)) None "ft"
             end.
Proof.
  destruct (analyzeText_returns text name)
    as (results & warnings & ? & ? & ? & ? & ? & ? & range & ?
        & H & _ & _ & _ & _ & _ & _ & _ & E7 & E).
  eexists. split; [exact E|]. simpl.
  assert (has results "range_touch" = hasPattern text "range_touch") as Ht.
  { apply (has_registered text results warnings range_touch);
      [is_registered | intros m; eexists; reflexivity | done]. }
  assert (has results "range_self" = hasPattern text "range_self") as Hs.
  { apply (has_registered text results warnings range_self);
      [is_registered | intros m; eexists; reflexivity | done]. }
  assert (range_distance ∈ registered) as Hd by is_registered.
  assert (has results "range_distance" = hasPattern text "range_distance") as Hr.
  { apply (has_registered text results warnings range_distance);
      [done | intros m; eexists; reflexivity | done]. }
  unfold extractRange in E7. rewrite Ht, Hs, Hr in E7.
  destruct (hasPattern text "range_touch"); [by injection E7|].
  destruct (hasPattern text "range_self"); [by injection E7|].
  change (getFirstMatch text "range_distance")
    with (getFirstMatch text (PatternMatcher.name range_distance)).
  rewrite (getFirstMatch_registered text range_distance Hd).
  change (hasPattern text "range_distance")
    with (hasPattern text (PatternMatcher.name range_distance)) in E7.
  rewrite (hasPattern_registered text range_distance Hd) in E7. unfold test in E7.
  pose proof (lookup_first _ _ _ _ Hd H) as Hl.
  destruct (exec (regex range_distance) text 0) as [m|].
  - destruct (Hl _ eq_refl) as [rest Hrest].
    rewrite bool_decide_true in E7 by done.
    unfold getFirst in E7. simpl in Hrest. rewrite Hrest in E7. simpl in E7.
    by injection E7.
  - rewrite bool_decide_false in E7 by (by intros []). by injection E7.
Qed.

End AnalyzerProperties.

Module SynthesisFacts.

Import RegExp PatternMatcher TextAnalyzer AnalyzerSpec AnalyzerFacts.
Import EffectGenerator FlagGenerator RuleEngine RuleEngineSpec RuleEngineFacts.

Lemma addRollFlag_returns word flags condition :
  (ConditionData.type condition = word →
   ∃ target, ConditionData.value condition = AnyString target) →
  ∃ r, addRollFlag word flags condition = Ok r.
Proof.
  intros H. unfold addRollFlag.
  destruct (bool_decide (ConditionData.type condition = word)) eqn:E; [|eauto].
  apply bool_decide_eq_true in E. destruct (H E) as [target ->].
  repeat match goal with
         | |- context [if ?b then _ else _] => destruct b
         | |- context [match ?o with Some _ => _ | None => _ end] => destruct o
         end; eauto.
Qed.

Lemma addRollFlags_returns word : word = "advantage" ∨ word = "disadvantage" →
  ∀ conditions flags, rollTargetsAreStrings conditions →
    ∃ r, addRollFlags word flags conditions = Ok r.
Proof.
  intros Hword. induction conditions as [|c conditions IH]; intros flags Hall;
    simpl; [eauto|].
  apply Forall_cons in Hall as [Hc Hall].
  destruct (addRollFlag_returns word flags c) as [flags' ->].
  - intros Ht. apply Hc. destruct Hword as [-> | ->]; auto.
  - simpl. by apply IH.
Qed.

Lemma generateMidiQOLFlags_returns ability :
  rollTargetsAreStrings (ParsedAbility.conditions ability) →
  ∃ flags, generateMidiQOLFlags ability = Ok flags.
Proof.
  intros Hall. unfold generateMidiQOLFlags.
  destruct (addRollFlags_returns "advantage" (or_introl eq_refl) _ [] Hall) as [f1 ->].
  simpl.
  destruct (addRollFlags_returns "disadvantage" (or_intror eq_refl) _ f1 Hall) as [f2 ->].
  simpl. eauto.
Qed.

(** The activities are built without a throw: the attack activity when
    the ability is an attack, the save activity when it has a save. *)
Lemma generateActivities_returns ability effectIds :
  ∃ activities,
    generateActivities ability effectIds = Ok activities
    ∧ (is_Some (activities !! "dnd5eactivity000")
       ↔ ParsedAbility.type ability = SPELL_ATTACK
         ∨ ParsedAbility.type ability = WEAPON_ATTACK)
    ∧ (is_Some (activities !! "dnd5eactivity100") ↔ ParsedAbility.saves ability ≠ [])
    ∧ ∀ k, is_Some (activities !! k) → k = "dnd5eactivity000" ∨ k = "dnd5eactivity100".
Proof.
  unfold generateActivities, generateSaveActivity.
  set (hasAttack := bool_decide (ParsedAbility.type ability = SPELL_ATTACK)
                    || bool_decide (ParsedAbility.type ability = WEAPON_ATTACK)).
  assert (hasAttack = true ↔ ParsedAbility.type ability = SPELL_ATTACK
                             ∨ ParsedAbility.type ability = WEAPON_ATTACK) as Hattack.
  { unfold hasAttack. rewrite orb_true_iff, !bool_decide_eq_true. done. }
  clearbody hasAttack.
  destruct (ParsedAbility.saves ability) as [|save saves]; simpl.
  - eexists. split; [reflexivity|].
    destruct hasAttack.
    + split_and!.
      * rewrite lookup_insert_eq. split; [intros _; by apply Hattack | eauto].
      * rewrite lookup_insert_ne by done. rewrite lookup_empty.
        split; [by intros [] | done].
      * intros k. destruct (decide (k = "dnd5eactivity000")) as [->|Hk]; [auto|].
        rewrite lookup_insert_ne by done. rewrite lookup_empty. by intros [].
    + split_and!.
      * rewrite lookup_empty. split; [by intros [] |].
        intros Ht%Hattack. done.
      * rewrite lookup_empty. split; [by intros [] | done].
      * intros k. rewrite lookup_empty. by intros [].
  - eexists. split; [reflexivity|].
    destruct hasAttack.
    + split_and!.
      * rewrite lookup_insert_ne by done. rewrite lookup_insert_eq.
        split; [intros _; by apply Hattack | eauto].
      * rewrite lookup_insert_eq. split; [done | eauto].
      * intros k. destruct (decide (k = "dnd5eactivity100")) as [->|Hk]; [auto|].
        destruct (decide (k = "dnd5eactivity000")) as [->|Hk']; [auto|].
        rewrite !lookup_insert_ne by done. rewrite lookup_empty. by intros [].
    + split_and!.
      * rewrite lookup_insert_ne by done. rewrite lookup_empty.
        split; [by intros [] |]. intros Ht%Hattack. done.
      * rewrite lookup_insert_eq. split; [done | eauto].
      * intros k. destruct (decide (k = "dnd5eactivity100")) as [->|Hk]; [auto|].
        rewrite lookup_insert_ne by done. rewrite lookup_empty. by intros [].
Qed.

(** The synthesis returns for an ability whose roll conditions name
    their targets. *)
Lemma generateAutomation_returns ability w :
  rollTargetsAreStrings (ParsedAbility.conditions ability) →
  ∃ result w', generateAutomation ability w = (Ok result, w').
Proof.
  intros Hall.
  destruct (generateAutomation_assemble ability w)
    as (ids & w1 & fromEffects & w2 & itemId & w3 & _ & _ & _ & ->).
  unfold assemble, generateSystemData, generateFlags.
  destruct (generateActivities_returns ability ids) as (activities & -> & _).
  destruct (generateMidiQOLFlags_returns ability Hall) as [flags ->].
  simpl. eauto.
Qed.

Lemma extractConditions_rollTargets patterns text :
  rollTargetsAreStrings (extractConditions patterns text).
Proof.
  unfold extractConditions, rollTargetsAreStrings.
  rewrite !Forall_app. split_and!.
  - apply Forall_forall. intros c (condName & Hc & Hname)%list_elem_of_bind.
    destruct (test (condPattern condName) text); [|by apply not_elem_of_nil in Hc].
    apply list_elem_of_singleton in Hc as ->. simpl.
    intros [-> | ->]; exfalso; revert Hname; by apply (bool_decide_unpack _).
  - apply Forall_fmap, Forall_true. simpl. eauto.
  - apply Forall_fmap, Forall_true. simpl. eauto.
Qed.

End SynthesisFacts.

Module ConversionProperties.

Import RegExp PatternMatcher TextAnalyzer AnalyzerSpec AnalyzerFacts.
Import EffectGenerator FlagGenerator RuleEngine RuleEngineSpec RuleEngineFacts.
Import SynthesisFacts Phase2Converter.

(** X10: the base conversion never fails.  Whatever the text and whatever
    the enhancement passes do, the conversion returns a successful result
    that carries the parsed ability, the base automation and an item. *)
Theorem base_conversion_always_succeeds
    (passes : Subsystems.t) (text : string) (w : World) :
  ∃ r w', convertAbility passes text w = Some (r, w')
    ∧ EnhancedConversionResult.success r = true
    ∧ EnhancedConversionResult.error r = None
    ∧ is_Some (EnhancedConversionResult.parsedAbility r)
    ∧ is_Some (EnhancedConversionResult.automation r)
    ∧ is_Some (EnhancedConversionResult.foundryItem r).
Proof.
  destruct (analyzeText_returns text None)
    as (results & warnings & ? & ? & ? & ? & ? & ? & ? & ?
        & _ & _ & _ & _ & _ & _ & _ & _ & _ & E).
  unfold convertAbility, baseConversion. rewrite E.
  match goal with
  | |- context [generateAutomation ?a w] =>
      destruct (generateAutomation_returns a w) as (result & w' & ->)
  end; [apply extractConditions_rollTargets|].
  simpl.
  destruct (applyPhase2Enhancement _ _ _ _) as [[enhanced|err] w''];
    simpl; eexists _, _; (split; [reflexivity|]); simpl; eauto 10.
Qed.

End ConversionProperties.

(** ** The base synthesis *)

Module HostFacts.

Lemma chars_str (l : list ascii) : chars (str l) = l.
Proof. apply list_ascii_of_string_of_list_ascii. Qed.

Lemma str_chars (s : string) : str (chars s) = s.
Proof. apply string_of_list_ascii_of_string. Qed.

Lemma chars_append (a b : string) : chars (a +:+ b) = chars a ++ chars b.
Proof. induction a as [|c a IH]; simpl; [done|]. unfold chars in *. simpl. by f_equal. Qed.

(** *** Objects *)

Lemma get_replace (k k' : string) (v : Json) : ∀ o : Fields.t,
  k' ∈ o.*1 →
  Fields.get k (Fields.replace k' v o) = if bool_decide (k' = k) then v else Fields.get k o.
Proof.
  induction o as [|[k0 v0] o IH]; simpl; [by intros ?%not_elem_of_nil|].
  intros Hin. destruct (decide (k0 = k')) as [->|Hk0].
  - rewrite (bool_decide_true (k' = k')) by done. simpl.
    by destruct (bool_decide (k' = k)).
  - rewrite (bool_decide_false (k0 = k')) by done. simpl.
    apply elem_of_cons in Hin as [Hin|Hin]; [done|]. rewrite (IH Hin).
    destruct (decide (k0 = k)) as [->|Hk]; [|by rewrite (bool_decide_false (k0 = k))].
    rewrite (bool_decide_true (k = k)) by done.
    by rewrite (bool_decide_false (k' = k)) by congruence.
Qed.

Lemma get_add (k k' : string) (v : Json) : ∀ o : Fields.t,
  k' ∉ o.*1 →
  Fields.get k (Fields.add k' v o) = if bool_decide (k' = k) then v else Fields.get k o.
Proof.
  induction o as [|[k0 v0] o IH]; simpl; [done|].
  rewrite not_elem_of_cons. intros [Hne Hnotin].
  destruct (Fields.before k' k0); simpl; [done|]. rewrite (IH Hnotin).
  destruct (decide (k0 = k)) as [->|Hk]; [|by rewrite (bool_decide_false (k0 = k))].
  rewrite (bool_decide_true (k = k)) by done.
  by rewrite (bool_decide_false (k' = k)) by done.
Qed.

Lemma get_set (k k' : string) (v : Json) (o : Fields.t) :
  Fields.get k (Fields.set k' v o) = if bool_decide (k' = k) then v else Fields.get k o.
Proof.
  unfold Fields.set. destruct (decide (k' ∈ o.*1)) as [Hin|Hnotin].
  - rewrite bool_decide_true by done. by apply get_replace.
  - rewrite bool_decide_false by done. by apply get_add.
Qed.

Lemma get_set_eq (k : string) (v : Json) (o : Fields.t) :
  Fields.get k (Fields.set k v o) = v.
Proof. by rewrite get_set, bool_decide_true. Qed.

Lemma get_set_ne (k k' : string) (v : Json) (o : Fields.t) :
  k' ≠ k → Fields.get k (Fields.set k' v o) = Fields.get k o.
Proof. intros. by rewrite get_set, bool_decide_false. Qed.

End HostFacts.

Module SynthesisProperties.

Import RegExp PatternMatcher TextAnalyzer AnalyzerSpec AnalyzerFacts HostFacts.
Import EffectGenerator FlagGenerator RuleEngine RuleEngineSpec RuleEngineFacts.
Import SynthesisFacts SynthesisSpec.

Lemma charAt_idChars_alphanumeric k : k < 62 →
  ∃ c, charAt idChars k = String c "" ∧ alphanumeric c = true.
Proof.
  intros Hk.
  do 62 (destruct k as [|k]; [eexists; split; reflexivity|]). lia.
Qed.

Lemma drawChars_shape : ∀ n id w,
  Forall (λ c, alphanumeric c = true) (chars id) →
  let r := drawChars n id w in
  String.length (fst r) = String.length id + n
  ∧ Forall (λ c, alphanumeric c = true) (chars (fst r))
  ∧ consumed (snd r) = consumed w + n
  ∧ draws (snd r) = draws w ∧ isoTime (snd r) = isoTime w.
Proof.
  induction n as [|n IH]; intros id w Hid.
  - simpl. split_and!; [lia | done | lia | done | done].
  - destruct (charAt_idChars_alphanumeric (draws w (consumed w) `mod` 62))
      as (c & Hc & Hal).
    { apply Nat.mod_upper_bound. lia. }
    specialize (IH (id +:+ String c "")
                  {| draws := draws w; consumed := S (consumed w); isoTime := isoTime w |}).
    destruct IH as (H1 & H2 & H3 & H4 & H5).
    { rewrite chars_append. apply Forall_app. split; [done|]. by constructor. }
    rewrite length_append in H1. simpl in H1, H3, H4, H5.
    cbn [drawChars]. unfold bind, randomBelow.
    change (String.length idChars) with 62. rewrite Hc. cbv zeta.
    split_and!; [lia | done | lia | done | done].
Qed.

(** X11: a generated identifier is sixteen characters long, every one a
    letter or a digit; generating it takes sixteen draws from the random
    source and leaves the rest of the environment alone. *)
Theorem identifier_is_sixteen_alphanumerics (w : World) :
  String.length (fst (generateFoundryId w)) = 16
  ∧ Forall (λ c, alphanumeric c = true) (chars (fst (generateFoundryId w)))
  ∧ consumed (snd (generateFoundryId w)) = consumed w + 16
  ∧ draws (snd (generateFoundryId w)) = draws w
  ∧ isoTime (snd (generateFoundryId w)) = isoTime w.
Proof.
  unfold generateFoundryId.
  destruct (drawChars_shape 16 "" w) as (H1 & H2 & H3 & H4 & H5); [constructor|].
  split_and!; done.
Qed.

Lemma roll_words_have_no_status :
  mapConditionToStatus "advantage" = None ∧ mapConditionToStatus "disadvantage" = None.
Proof. split; reflexivity. Qed.

Lemma createConditionEffect_known
    (ability : ParsedAbility.t) (effectId : string) (conditionIndex : nat) :
  match createConditionEffect ability effectId conditionIndex with
  | Some effect =>
      ∃ condition status,
        ParsedAbility.conditions ability !! conditionIndex = Some condition
        ∧ mapConditionToStatus (ConditionData.type condition) = Some status
        ∧ ActiveEffectData._id effect = effectId
        ∧ ActiveEffectData.statuses effect = [jproperty status]
        ∧ ActiveEffectData.transfer effect = false
  | None =>
      ∀ condition,
        ParsedAbility.conditions ability !! conditionIndex = Some condition →
        mapConditionToStatus (ConditionData.type condition) = None
  end.
Proof.
  unfold createConditionEffect.
  destruct (ParsedAbility.conditions ability !! conditionIndex) as [condition|];
    [|done].
  destruct (bool_decide (ConditionData.type condition = "advantage")) eqn:A.
  { apply bool_decide_eq_true in A. simpl. intros c [= <-]. rewrite A.
    apply roll_words_have_no_status. }
  destruct (bool_decide (ConditionData.type condition = "disadvantage")) eqn:D.
  { apply bool_decide_eq_true in D. simpl. intros c [= <-]. rewrite D.
    apply roll_words_have_no_status. }
  simpl.
  destruct (mapConditionToStatus (ConditionData.type condition)) as [status|] eqn:S.
  - simpl. exists condition, status. done.
  - simpl. by intros c [= <-].
Qed.

(** X12: a condition becomes an effect exactly when its type is a status
    the generator knows (whatever the letter case): a key under which
    [mapConditionToStatus] reads a value, one of the map's own or one
    every object inherits.  The effect then bears the identifier it was
    given and that one status, the value read, and is not transferred; an
    index past the conditions gives no effect. *)
Theorem condition_effect_iff_known_status
    (ability : ParsedAbility.t) (effectId : string) (conditionIndex : nat) :
  match createConditionEffect ability effectId conditionIndex with
  | Some effect =>
      ∃ condition status,
        ParsedAbility.conditions ability !! conditionIndex = Some condition
        ∧ mapConditionToStatus (ConditionData.type condition) = Some status
        ∧ ActiveEffectData._id effect = effectId
        ∧ ActiveEffectData.statuses effect = [jproperty status]
        ∧ ActiveEffectData.transfer effect = false
  | None =>
      ∀ condition,
        ParsedAbility.conditions ability !! conditionIndex = Some condition →
        mapConditionToStatus (ConditionData.type condition) = None
  end.
Proof. apply createConditionEffect_known. Qed.

Lemma parsedEffects_cons ability effect todo w :
  parsedEffects ability (effect :: todo) w
  = let '(activeEffect, w1) := createActiveEffect effect ability w in
    let '(others, w2) := parsedEffects ability todo w1 in
    (match activeEffect with Some e => e :: others | None => others end, w2).
Proof. reflexivity. Qed.

Lemma createActiveEffect_transfer effect ability w :
  match fst (createActiveEffect effect ability w) with
  | Some e => ActiveEffectData.transfer e
              = bool_decide (ParsedAbility.type ability = PASSIVE)
  | None => True
  end.
Proof.
  unfold createActiveEffect.
  destruct (bool_decide (length (generateChanges effect) = 0)); [done|].
  unfold bind, ret. by destruct (generateFoundryId w).
Qed.

Lemma conditionEffects_cons ability effectIds c todo idx w :
  conditionEffects ability effectIds (c :: todo) idx w
  = let provided :=
      match effectIds with
      | Some ids =>
          match ids !! idx with
          | Some id => if bool_decide (id = "") then None else Some id
          | None => None
          end
      | None => None
      end in
    let '(effectId, w1) :=
      match provided with
      | Some id => ret id
      | None => generateFoundryId
      end w in
    let '(others, w2) := conditionEffects ability effectIds todo (S idx) w1 in
    (match createConditionEffect ability effectId idx with
     | Some e => e :: others
     | None => others
     end, w2).
Proof. reflexivity. Qed.

Lemma parsedEffects_shape ability : ∀ todo w,
  Forall (λ e, ActiveEffectData.transfer e
               = bool_decide (ParsedAbility.type ability = PASSIVE))
    (fst (parsedEffects ability todo w))
  ∧ length (fst (parsedEffects ability todo w)) ≤ length todo.
Proof.
  induction todo as [|effect todo IH]; intros w; [split; [constructor | simpl; lia]|].
  rewrite parsedEffects_cons.
  pose proof (createActiveEffect_transfer effect ability w) as Ht.
  destruct (createActiveEffect effect ability w) as [activeEffect w1].
  specialize (IH w1).
  destruct (parsedEffects ability todo w1) as [others w']. simpl in *.
  destruct IH. destruct activeEffect as [e|]; simpl.
  - split; [by constructor | lia].
  - split; [done | lia].
Qed.

Lemma conditionEffects_shape ability effectIds : ∀ todo idx w,
  Forall (λ e, ActiveEffectData.transfer e = false)
    (fst (conditionEffects ability effectIds todo idx w))
  ∧ length (fst (conditionEffects ability effectIds todo idx w)) ≤ length todo.
Proof.
  induction todo as [|c todo IH]; intros idx w; [split; [constructor | simpl; lia]|].
  rewrite conditionEffects_cons. cbv zeta.
  match goal with
  | |- context [match ?provided with Some id => ret id | None => generateFoundryId end w] =>
      destruct (match provided with Some id => ret id | None => generateFoundryId end w)
        as [effectId w1]
  end.
  specialize (IH (S idx) w1).
  destruct (conditionEffects ability effectIds todo (S idx) w1) as [others w'].
  simpl in *. destruct IH as [IH1 IH2].
  pose proof (createConditionEffect_known ability effectId idx) as Hc.
  destruct (createConditionEffect ability effectId idx) as [e|].
  - destruct Hc as (? & ? & _ & _ & _ & _ & Ht). split; [by constructor | simpl; lia].
  - split; [done | lia].
Qed.

(** X13: the effects of a passive ability are all transferred to the
    actor, those of any other ability are not; and no more effects are
    generated than the ability has effects and conditions. *)
Theorem effects_transfer_iff_passive
    (ability : ParsedAbility.t) (effectIds : option (list string)) (w : World) :
  Forall (λ e, ActiveEffectData.transfer e
               = bool_decide (ParsedAbility.type ability = PASSIVE))
    (fst (generateActiveEffects ability effectIds w))
  ∧ length (fst (generateActiveEffects ability effectIds w))
    ≤ length (ParsedAbility.effects ability) + length (ParsedAbility.conditions ability).
Proof.
  unfold generateActiveEffects, bind, ret.
  pose proof (parsedEffects_shape ability (ParsedAbility.effects ability) w) as [H1 H2].
  destruct (parsedEffects ability (ParsedAbility.effects ability) w) as [fromEffects w1].
  pose proof (conditionEffects_shape ability effectIds
                (ParsedAbility.conditions ability) 0 w1) as [H3 H4].
  destruct (conditionEffects ability effectIds (ParsedAbility.conditions ability) 0 w1)
    as [fromConditions w2].
  simpl in *.
  destruct (bool_decide (ParsedAbility.type ability = PASSIVE)) eqn:P.
  - split.
    + apply Forall_fmap, Forall_true. done.
    + rewrite length_fmap, length_app. lia.
  - split.
    + apply Forall_app. done.
    + rewrite length_app. lia.
Qed.

(** X14: the activities of an item follow the ability: building them never
    throws; the attack activity is there exactly when the ability is a
    weapon or spell attack, the save activity exactly when the ability has
    a save, and there is no other activity. *)
Theorem activities_follow_attack_and_save
    (ability : ParsedAbility.t) (effectIds : list string) :
  ∃ activities,
    generateActivities ability effectIds = Ok activities
    ∧ (is_Some (activities !! "dnd5eactivity000")
       ↔ ParsedAbility.type ability = SPELL_ATTACK
         ∨ ParsedAbility.type ability = WEAPON_ATTACK)
    ∧ (is_Some (activities !! "dnd5eactivity100") ↔ ParsedAbility.saves ability ≠ [])
    ∧ ∀ k, is_Some (activities !! k) → k = "dnd5eactivity000" ∨ k = "dnd5eactivity100".
Proof. apply generateActivities_returns. Qed.

Lemma removeWhitespace_clean (s : string) :
  Forall (λ c, isSpace c = false) (chars (removeWhitespace s)).
Proof.
  unfold removeWhitespace. rewrite chars_str.
  apply Forall_forall. intros c Hc. by apply list_elem_of_filter in Hc as [Hc _].
Qed.

(** X15: a macro is generated exactly for an ability of moderate complexity
    or more; it is a script whose name is the ability's name without its
    whitespace. *)
Theorem macro_only_from_moderate_complexity (ability : ParsedAbility.t) :
  if (ParsedAbility.complexity ability <? 2)%Z then generateMacros ability = []
  else ∃ macro,
         generateMacros ability = [macro]
         ∧ MacroData.type macro = "script"
         ∧ MacroData.name macro = removeWhitespace (ParsedAbility.name ability)
         ∧ Forall (λ c, isSpace c = false) (chars (MacroData.name macro)).
Proof.
  unfold generateMacros, AutomationComplexity.MODERATE.
  destruct (ParsedAbility.complexity ability <? 2)%Z eqn:E.
  - rewrite (proj2 (Z.leb_gt _ _)); [done|]. by apply Z.ltb_lt.
  - rewrite (proj2 (Z.leb_le _ _)); [|by apply Z.ltb_ge].
    eexists. split_and!; [reflexivity | reflexivity | reflexivity |].
    apply removeWhitespace_clean.
Qed.

(** *** The flag that suppresses the save's damage *)

Lemma addRollFlags_other (k word : string) :
  (∀ suffix, word +:+ suffix ≠ k) →
  ∀ conditions flags r,
    addRollFlags word flags conditions = Ok r → Fields.get k r = Fields.get k flags.
Proof.
  intros Hk. induction conditions as [|c conditions IH]; intros flags r; simpl.
  - by intros [= <-].
  - destruct (addRollFlag word flags c) as [flags'|] eqn:E; simpl; [|done].
    intros H. rewrite (IH _ _ H). clear H IH.
    unfold addRollFlag in E.
    repeat match type of E with
           | context [if ?b then _ else _] => destruct b
           | context [match ?o with Some _ => _ | None => _ end] => destruct o
           | context [match ?v with AnyBool _ => _ | AnyString _ => _ end] => destruct v
           end; try done; injection E as <-; rewrite ?get_set_ne; done.
Qed.

Lemma addDamageFlags_other (k : string) ability :
  (∀ suffix, "DR." +:+ suffix ≠ k) → (∀ suffix, "DI." +:+ suffix ≠ k) →
  ∀ flags, Fields.get k (addDamageFlags flags ability) = Fields.get k flags.
Proof.
  intros Hr Hi. unfold addDamageFlags.
  induction (ParsedAbility.effects ability) as [|effect effects IH]; intros flags;
    simpl; [done|].
  rewrite IH. clear IH.
  destruct (EffectData.damageTypes effect) as [damageTypes|]; [|done].
  destruct (bool_decide (EffectData.type effect = "damage_resistance")); [|done].
  revert flags. induction damageTypes as [|damageType damageTypes IH]; intros flags;
    simpl; [done|].
  rewrite IH. clear IH.
  destruct (EffectData.amount effect) as [amount|].
  - destruct (amount =? 0)%Z; [by rewrite get_set_ne|].
    destruct (amount <? 1)%Z; [by rewrite get_set_ne | done].
  - by rewrite get_set_ne.
Qed.

Lemma addSaveFlags_other (k : string) ability flags :
  "saveDC" ≠ k → (∀ suffix, "save." +:+ suffix ≠ k) →
  Fields.get k (addSaveFlags flags ability) = Fields.get k flags.
Proof.
  intros H1 H2. unfold addSaveFlags.
  destruct (ParsedAbility.saves ability) as [|save saves]; [done|].
  destruct (bool_decide (ParsedAbility.type ability = SAVE_ABILITY)); [|done].
  destruct (SaveData.dc save) as [dc|];
    destruct (bool_decide (SaveData.scaling save = "flat")); simpl;
    rewrite ?get_set_ne; done.
Qed.

Lemma addConditionalFlags_other (k : string) ability flags :
  "itemCondition" ≠ k → "checkRange" ≠ k →
  Fields.get k (addConditionalFlags flags ability) = Fields.get k flags.
Proof.
  intros H1 H2. unfold addConditionalFlags.
  destruct (RangeData.value (ParsedAbility.range ability)) as [value|];
    [destruct (truthy value && greater value 5)|];
    destruct (0 <? length _); rewrite ?get_set_ne; done.
Qed.

(** [noDamSave] is set exactly for an attack with a save, a condition and
    damage. *)
Lemma noDamSave_set ability flags midi :
  generateMidiQOLFlags ability = Ok flags →
  Fields.get "midi-qol" flags = JObj midi →
  Fields.get "noDamSave" midi = JBool true →
  (ParsedAbility.type ability = SPELL_ATTACK ∨ ParsedAbility.type ability = WEAPON_ATTACK)
  ∧ ParsedAbility.saves ability ≠ []
  ∧ ParsedAbility.conditions ability ≠ []
  ∧ ParsedAbility.damage ability ≠ [].
Proof.
  unfold generateMidiQOLFlags.
  destruct (addRollFlags "advantage" [] _) as [f1|] eqn:E1; simpl; [|done].
  destruct (addRollFlags "disadvantage" f1 _) as [f2|] eqn:E2; simpl; [|done].
  intros [= <-]. simpl. intros [= <-].
  rewrite addConditionalFlags_other by done.
  assert (Fields.get "noDamSave" (addSaveFlags (addDamageFlags f2 ability) ability)
          = JUndefined) as Hbefore.
  { rewrite addSaveFlags_other by done. rewrite addDamageFlags_other by done.
    rewrite (addRollFlags_other "noDamSave" "disadvantage" (λ _, ltac:(done)) _ _ _ E2).
    by rewrite (addRollFlags_other "noDamSave" "advantage" (λ _, ltac:(done)) _ _ _ E1). }
  revert Hbefore. generalize (addSaveFlags (addDamageFlags f2 ability) ability).
  intros f Hf. unfold addMacroFlags.
  set (f' := if _ || _ then Fields.set "effectActivation" (JBool true) f else f).
  assert (Fields.get "noDamSave" f' = JUndefined) as Hf'.
  { unfold f'. destruct (_ || _); [by rewrite get_set_ne|done]. }
  clearbody f'.
  set (hasAttack := bool_decide (ParsedAbility.type ability = SPELL_ATTACK)
                    || bool_decide (ParsedAbility.type ability = WEAPON_ATTACK)).
  assert (hasAttack = true → ParsedAbility.type ability = SPELL_ATTACK
                             ∨ ParsedAbility.type ability = WEAPON_ATTACK) as Hattack.
  { unfold hasAttack. rewrite orb_true_iff, !bool_decide_eq_true. done. }
  clearbody hasAttack.
  destruct hasAttack; simpl; [|by rewrite Hf'].
  destruct (ParsedAbility.saves ability) as [|save saves]; simpl; [by rewrite Hf'|].
  destruct (ParsedAbility.conditions ability) as [|c cs]; simpl;
    [by rewrite get_set_ne, Hf'|].
  destruct (ParsedAbility.damage ability) as [|d ds]; simpl;
    [by rewrite get_set_ne, Hf'|].
  intros _. split_and!; [by apply Hattack | done | done | done].
Qed.

(** X16: the flags and the activities agree on the save's damage: when the
    MidiQOL flags say that a save deals no damage, the item has a save
    activity, and it deals no damage on a save. *)
Theorem no_save_damage_flag_matches_activity
    (ability : ParsedAbility.t) (effectIds : list string) (flags midi : Fields.t) :
  generateMidiQOLFlags ability = Ok flags →
  Fields.get "midi-qol" flags = JObj midi →
  Fields.get "noDamSave" midi = JBool true →
  ∃ activities save,
    generateActivities ability effectIds = Ok activities
    ∧ activities !! "dnd5eactivity100" = Some save
    ∧ Activity.damageOnSave save = Some "none".
Proof.
  intros H1 H2 H3.
  destruct (noDamSave_set ability flags midi H1 H2 H3) as (Ht & Hs & Hc & _).
  unfold generateActivities, generateSaveActivity.
  assert (bool_decide (ParsedAbility.type ability = SPELL_ATTACK)
          || bool_decide (ParsedAbility.type ability = WEAPON_ATTACK) = true) as ->.
  { apply orb_true_iff. rewrite !bool_decide_eq_true. done. }
  destruct (ParsedAbility.saves ability) as [|save saves]; [done|].
  destruct (ParsedAbility.conditions ability) as [|c cs]; [done|].
  simpl. eexists _, _. split; [reflexivity|].
  rewrite lookup_insert_eq. split; reflexivity.
Qed.

Lemma no_save_damage_flag_matches_activity_witness :
  ∃ activities save,
    generateActivities Samples.dazingStrike ["AAAAAAAAAAAAAAAA"] = Ok activities
    ∧ activities !! "dnd5eactivity100" = Some save
    ∧ Activity.damageOnSave save = Some "none".
Proof.
  refine (no_save_damage_flag_matches_activity Samples.dazingStrike ["AAAAAAAAAAAAAAAA"]
            _ _ _ _ _); reflexivity.
Defined.

Lemma replaceRuns_clean (sub : list ascii) :
  Forall (λ c, isSpace c = false) sub →
  ∀ l inRun, Forall (λ c, isSpace c = false) (replaceRuns sub inRun l).
Proof.
  intros Hsub. induction l as [|c l IH]; intros inRun; simpl; [constructor|].
  destruct (isSpace c) eqn:E.
  - destruct inRun; [apply IH|]. apply Forall_app. split; [done | apply IH].
  - constructor; [done | apply IH].
Qed.

(** X17: the identifier written for Chris Premades is [automancy-] followed
    by the ability's name in lower case with every run of whitespace
    turned into one dash: it holds no whitespace. *)
Theorem premade_identifier_has_no_whitespace (ability : ParsedAbility.t) :
  ∃ flags slug,
    Fields.get "chris-premades" (generateChrisPremadeFlags ability) = JObj flags
    ∧ Fields.get "identifier" flags = JStr ("automancy-" +:+ slug)
    ∧ slug = replaceWhitespace "-" (toLowerCase (ParsedAbility.name ability))
    ∧ Forall (λ c, isSpace c = false) (chars slug).
Proof.
  eexists _, _. split_and!; [reflexivity | reflexivity | reflexivity |].
  unfold replaceWhitespace. rewrite chars_str.
  apply replaceRuns_clean. by repeat constructor.
Qed.

End SynthesisProperties.

(** ** The enhancement pipeline *)

Module EnhancementFacts.

Import TextAnalyzer RuleEngine ComplexAbilityParser Phase2Converter.

(** What the pipeline returns, in terms of what the passes returned. *)
Lemma applyPhase2Enhancement_inv passes ability item w result w' :
  applyPhase2Enhancement passes ability item w = (Ok result, w') →
  ∃ conditionSystem professionalFlags macroIntegration rechargeSystem reactionSystem
    ongoingSystem enhancedItem wf wf' wi,
    Subsystems.professionalFlags passes (parseComplexAbility ability) wf
    = (Ok professionalFlags, wf')
    ∧ integrateAllSystems item conditionSystem professionalFlags macroIntegration
        rechargeSystem reactionSystem ongoingSystem wi = (Ok enhancedItem, w')
    ∧ result
      = Phase2EnhancementResult.mk enhancedItem
          (calculateFinalComplexity (parseComplexAbility ability)
             (0 <? length (ConditionSystem.effects conditionSystem))
             (0 <? length (MacroIntegration.macros macroIntegration))
             (RechargeSystem.hasRecharge rechargeSystem)
             (ReactionSystem.isReaction reactionSystem)
             (OngoingSystem.hasOngoingEffects ongoingSystem))
          (assessProfessionalGrade enhancedItem
             (Metrics.mk (length professionalFlags)
                (length (MacroIntegration.macros macroIntegration))
                (calculateAutomationCoverage (parseComplexAbility ability)) true true))
          (getAppliedSystems conditionSystem macroIntegration rechargeSystem
             reactionSystem ongoingSystem)
          (consolidateAllMacros conditionSystem macroIntegration rechargeSystem
             reactionSystem ongoingSystem)
          (consolidateAllEffects conditionSystem ongoingSystem)
          professionalFlags.
Proof.
  unfold applyPhase2Enhancement, bindMX, bind, ret.
  destruct (Subsystems.conditionEngine passes _ w) as [[cs|?] w1]; [|discriminate].
  destruct (Subsystems.professionalFlags passes _ w1) as [[pf|?] w2] eqn:Epf;
    [|discriminate].
  destruct (Subsystems.macroSystem passes _ w2) as [[mi|?] w3]; [|discriminate].
  destruct (Subsystems.rechargeSystem passes _ w3) as [[rs|?] w4]; [|discriminate].
  destruct (Subsystems.reactionSystem passes _ w4) as [[re|?] w5]; [|discriminate].
  destruct (Subsystems.ongoingSystem passes _ w5) as [[os|?] w6]; [|discriminate].
  destruct (Subsystems.movementAttackSystem passes _ w6) as [[ma|?] w7]; [|discriminate].
  destruct (integrateAllSystems item cs pf mi rs re os w7) as [[enhancedItem|?] w8] eqn:Ei;
    [|discriminate].
  intros [= <- <-]. exists cs, pf, mi, rs, re, os, enhancedItem, w1, w2, w7.
  split_and!; [exact Epf | exact Ei | reflexivity].
Qed.

Lemma assessComplexity_tier_bounds ability :
  (1 ≤ assessComplexity ability ≤ 4)%Z.
Proof.
  unfold assessComplexity.
  repeat match goal with |- context [if ?b then _ else _] => destruct b end; lia.
Qed.

Lemma analyzeText_tier text name d :
  analyzeText text name = Some (Ok d) →
  (1 ≤ ParsedAbility.complexity (AbilityDescription.parsed d) ≤ 4)%Z.
Proof.
  unfold analyzeText. destruct (PatternMatcher.extractPatterns text) as [[[r ws]|]|];
    simpl; [|done..].
  unfold analyzeWith.
  repeat match goal with
         | |- Some (bindE ?m _) = _ → _ => destruct m; simpl; [|discriminate]
         end.
  intros [= <-]. simpl. apply assessComplexity_tier_bounds.
Qed.

Lemma assessEnhancedComplexity_le enhanced :
  (assessEnhancedComplexity enhanced ≤ Z.max (EnhancedAbilityData.complexity enhanced) 4)%Z.
Proof.
  unfold assessEnhancedComplexity, AutomationComplexity.MODERATE,
    AutomationComplexity.COMPLEX, AutomationComplexity.REACTION.
  repeat match goal with |- context [if ?b then _ else _] => destruct b end; lia.
Qed.

Lemma assessEnhancedComplexity_lower enhanced :
  (EnhancedAbilityData.complexity enhanced ≤ assessEnhancedComplexity enhanced)%Z.
Proof.
  unfold assessEnhancedComplexity.
  repeat match goal with |- context [if ?b then _ else _] => destruct b end; lia.
Qed.

Lemma calculateFinalComplexity_bounds analysis hc hm hr ir ho :
  (EnhancedAbilityData.complexity analysis
   ≤ calculateFinalComplexity analysis hc hm hr ir ho
   ≤ Z.max (EnhancedAbilityData.complexity analysis) 4)%Z.
Proof.
  unfold calculateFinalComplexity, AutomationComplexity.MODERATE,
    AutomationComplexity.COMPLEX, AutomationComplexity.REACTION.
  repeat match goal with |- context [if ?b then _ else _] => destruct b end; lia.
Qed.

Lemma parseComplexAbility_complexity ability :
  EnhancedAbilityData.complexity (parseComplexAbility ability)
  = assessEnhancedComplexity
      (EnhancedAbilityData.mk
         (withRequirements (parseRequirements (ParsedAbility.raw ability)) ability)
         (parseLinkedEffects (ParsedAbility.raw ability))
         (determineAutomationStrategy ability)
         (generateProfessionalFlags ability)).
Proof. reflexivity. Qed.

End EnhancementFacts.

Module EnhancementProperties.

Import TextAnalyzer AnalyzerSpec AnalyzerFacts RuleEngine RuleEngineSpec RuleEngineFacts.
Import SynthesisFacts ComplexAbilityParser Phase2Converter Phase2Spec EnhancementFacts.
Import HostFacts.

(** X18: the complex parse adds to the ability and changes nothing the
    analysis read: every field but the requirements and the complexity is
    kept.  The complexity is never lowered, never raised above the highest
    tier (4) unless it was above already, and a reaction is rated 4 at
    least. *)
Theorem complex_parse_keeps_the_reading (ability : ParsedAbility.t) :
  EnhancedAbilityData.ability (parseComplexAbility ability)
  = ParsedAbility.setComplexity
      (EnhancedAbilityData.complexity (parseComplexAbility ability))
      (withRequirements (parseRequirements (ParsedAbility.raw ability)) ability)
  ∧ ParsedAbility.name (EnhancedAbilityData.ability (parseComplexAbility ability))
    = ParsedAbility.name ability
  ∧ ParsedAbility.raw (EnhancedAbilityData.ability (parseComplexAbility ability))
    = ParsedAbility.raw ability
  ∧ EnhancedAbilityData.type (parseComplexAbility ability) = ParsedAbility.type ability
  ∧ ParsedAbility.damage (EnhancedAbilityData.ability (parseComplexAbility ability))
    = ParsedAbility.damage ability
  ∧ ParsedAbility.saves (EnhancedAbilityData.ability (parseComplexAbility ability))
    = ParsedAbility.saves ability
  ∧ ParsedAbility.effects (EnhancedAbilityData.ability (parseComplexAbility ability))
    = ParsedAbility.effects ability
  ∧ ParsedAbility.conditions (EnhancedAbilityData.ability (parseComplexAbility ability))
    = ParsedAbility.conditions ability
  ∧ (ParsedAbility.complexity ability
     ≤ EnhancedAbilityData.complexity (parseComplexAbility ability)
     ≤ Z.max (ParsedAbility.complexity ability) 4)%Z
  ∧ (ParsedAbility.type ability = REACTION →
     (4 ≤ EnhancedAbilityData.complexity (parseComplexAbility ability))%Z).
Proof.
  split_and!; try reflexivity.
  - rewrite parseComplexAbility_complexity.
    match goal with |- (_ ≤ assessEnhancedComplexity ?e)%Z =>
      exact (assessEnhancedComplexity_lower e) end.
  - rewrite parseComplexAbility_complexity.
    match goal with |- (assessEnhancedComplexity ?e ≤ _)%Z =>
      exact (assessEnhancedComplexity_le e) end.
  - intros Ht. rewrite parseComplexAbility_complexity.
    unfold assessEnhancedComplexity, EnhancedAbilityData.type. simpl. rewrite Ht.
    rewrite (bool_decide_true (REACTION = REACTION)) by done.
    unfold AutomationComplexity.MODERATE, AutomationComplexity.COMPLEX,
      AutomationComplexity.REACTION.
    repeat match goal with |- context [if ?b then _ else _] => destruct b end; lia.
Qed.

(** X19: the requirements read from a text come in a fixed order, at most
    one of each kind: movement, visibility, trigger, recharge. *)
Theorem requirements_come_in_fixed_order (text : string) :
  sublist (AbilityRequirement.type <$> parseRequirements text)
    ["movement"; "visibility"; "trigger"; "recharge"].
Proof.
  unfold parseRequirements.
  destruct (RegExp.firstMatch movementPattern text);
    destruct (RegExp.test visibilityPattern text);
    destruct (RegExp.test damageTriggerPattern text);
    destruct (RegExp.firstMatch rechargePattern text); simpl;
    repeat first [ apply sublist_nil | apply sublist_skip | apply sublist_cons ].
Qed.

(** X20: the tiers a conversion reports are tiers of the scale.  The parsed
    ability and the base automation carry the same tier, between 1 and 4;
    the tier the enhancement reports is at least that one and at most 4,
    whatever the passes find. *)
Theorem reported_complexity_is_a_tier
    (passes : Subsystems.t) (text : string) (w : World) :
  ∃ r w' parsed automation,
    convertAbility passes text w = Some (r, w')
    ∧ EnhancedConversionResult.parsedAbility r = Some parsed
    ∧ EnhancedConversionResult.automation r = Some automation
    ∧ AutomationResult.complexity automation = ParsedAbility.complexity parsed
    ∧ (1 ≤ ParsedAbility.complexity parsed ≤ 4)%Z
    ∧ ∀ c, Phase2Enhancement.complexity (EnhancedConversionResult.phase2Enhancement r)
           = Some c →
           (ParsedAbility.complexity parsed ≤ c ≤ 4)%Z.
Proof.
  destruct (analyzeText_returns text None)
    as (results & warnings & ? & ? & ? & ? & ? & ? & ? & complexity
        & _ & _ & _ & _ & _ & _ & _ & _ & _ & E).
  pose proof (analyzeText_tier _ _ _ E) as Htier. simpl in Htier.
  unfold convertAbility, baseConversion. rewrite E.
  match goal with
  | |- context [generateAutomation ?a w] =>
      set (parsed := a) in *;
      destruct (generateAutomation_assemble parsed w)
        as (ids & w1 & fromEffects & w2 & itemId & w3 & _ & _ & _ & Hassemble);
      destruct (generateAutomation_returns parsed w) as (result & w' & Hgen)
  end; [apply extractConditions_rollTargets|].
  assert (AutomationResult.complexity result = complexity) as Hc.
  { rewrite Hgen in Hassemble. injection Hassemble as Hr _. symmetry in Hr.
    unfold assemble in Hr.
    destruct (generateSystemData _ _ _); simpl in Hr; [|discriminate].
    destruct (generateFlags _); simpl in Hr; [|discriminate].
    by injection Hr as <-. }
  rewrite Hgen. cbv zeta. simpl.
  destruct (applyPhase2Enhancement passes parsed (baseFoundryItem result) w')
    as [[enhanced|err] w''] eqn:Ea; simpl.
  - eexists _, _, parsed, result.
    split_and!; [reflexivity | reflexivity | reflexivity | exact Hc | | | ];
      try (subst parsed; simpl; lia).
    simpl. intros c [= <-].
    destruct (applyPhase2Enhancement_inv _ _ _ _ _ _ Ea)
      as (cs & pf & mi & rs & re & os & item' & ? & ? & ? & _ & _ & ->). simpl.
    pose proof (calculateFinalComplexity_bounds (parseComplexAbility parsed)
                  (0 <? length (ConditionSystem.effects cs))
                  (0 <? length (MacroIntegration.macros mi))
                  (RechargeSystem.hasRecharge rs) (ReactionSystem.isReaction re)
                  (OngoingSystem.hasOngoingEffects os)) as [Hlo Hhi].
    pose proof (assessEnhancedComplexity_lower
                  (EnhancedAbilityData.mk
                     (withRequirements (parseRequirements (ParsedAbility.raw parsed)) parsed)
                     (parseLinkedEffects (ParsedAbility.raw parsed))
                     (determineAutomationStrategy parsed)
                     (generateProfessionalFlags parsed))) as Hlo'.
    pose proof (assessEnhancedComplexity_le
                  (EnhancedAbilityData.mk
                     (withRequirements (parseRequirements (ParsedAbility.raw parsed)) parsed)
                     (parseLinkedEffects (ParsedAbility.raw parsed))
                     (determineAutomationStrategy parsed)
                     (generateProfessionalFlags parsed))) as Hhi'.
    rewrite <-parseComplexAbility_complexity in Hlo', Hhi'.
    change (EnhancedAbilityData.complexity
              {| EnhancedAbilityData.ability :=
                   withRequirements (parseRequirements (ParsedAbility.raw parsed)) parsed;
                 EnhancedAbilityData.linkedEffects := parseLinkedEffects (ParsedAbility.raw parsed);
                 EnhancedAbilityData.automation := determineAutomationStrategy parsed;
                 EnhancedAbilityData.professionalFlags := generateProfessionalFlags parsed |})
      with (ParsedAbility.complexity parsed) in Hlo', Hhi'.
    subst parsed. simpl in *. lia.
  - eexists _, _, parsed, result.
    split_and!; [reflexivity | reflexivity | reflexivity | exact Hc | | | ];
      try (subst parsed; simpl; lia).
    simpl. intros c [=].
Qed.

Lemma flagPoints_bounds metrics : (0 ≤ flagPoints metrics ≤ 3)%Z.
Proof.
  unfold flagPoints.
  repeat match goal with |- context [if ?b then _ else _] => destruct b end; lia.
Qed.

Lemma macroPoints_bounds metrics : (0 ≤ macroPoints metrics ≤ 2)%Z.
Proof.
  unfold macroPoints.
  repeat match goal with |- context [if ?b then _ else _] => destruct b end; lia.
Qed.

Lemma coveragePoints_full metrics :
  Metrics.automationCoverage metrics = 1%Q → coveragePoints metrics = 3%Z.
Proof. intros H. unfold coveragePoints. by rewrite H. Qed.

Lemma grade_of_pipeline item flagQuality macroQuality analysis :
  assessProfessionalGrade item
    (Metrics.mk flagQuality macroQuality (calculateAutomationCoverage analysis) true true)
  = (5 + flagPoints (Metrics.mk flagQuality macroQuality 1 true true)
     + macroPoints (Metrics.mk flagQuality macroQuality 1 true true))%Z.
Proof.
  unfold assessProfessionalGrade. simpl.
  rewrite coveragePoints_full
    by (simpl; apply OrchestratorClaims.calculateAutomationCoverage_full).
  pose proof (flagPoints_bounds (Metrics.mk flagQuality macroQuality 1 true true)).
  pose proof (macroPoints_bounds (Metrics.mk flagQuality macroQuality 1 true true)).
  unfold flagPoints, macroPoints in *. simpl in *. lia.
Qed.

(** X21: the professional grade of an enhanced item lies between 5 and 10.
    Five points are always given (full coverage, error handling,
    performance); the rest is up to three points for the number of flag
    categories and up to two for the number of template macros. *)
Theorem professional_grade_is_five_to_ten
    (passes : Subsystems.t) (ability : ParsedAbility.t) (item : FoundryItemData.t)
    (w : World) :
  match applyPhase2Enhancement passes ability item w with
  | (Ok result, _) =>
      (5 ≤ Phase2EnhancementResult.professionalGrade result ≤ 10)%Z
      ∧ ∃ templateMacros,
          Phase2EnhancementResult.professionalGrade result
          = (5 + (if (4 <=? length (Phase2EnhancementResult.professionalFlags result))%nat
                  then 3
                  else if (2 <=? length (Phase2EnhancementResult.professionalFlags result))%nat
                  then 2
                  else if (1 <=? length (Phase2EnhancementResult.professionalFlags result))%nat
                  then 1 else 0)
             + (if (3 <=? templateMacros)%nat then 2
                else if (1 <=? templateMacros)%nat then 1 else 0))%Z
  | (Throw _, _) => True
  end.
Proof.
  destruct (applyPhase2Enhancement passes ability item w) as [[result|err] w'] eqn:E;
    [|done].
  destruct (applyPhase2Enhancement_inv _ _ _ _ _ _ E)
    as (cs & pf & mi & rs & re & os & item' & ? & ? & ? & _ & _ & ->). simpl.
  rewrite grade_of_pipeline.
  pose proof (flagPoints_bounds
                (Metrics.mk (length pf) (length (MacroIntegration.macros mi)) 1 true true)).
  pose proof (macroPoints_bounds
                (Metrics.mk (length pf) (length (MacroIntegration.macros mi)) 1 true true)).
  split; [lia|]. exists (length (MacroIntegration.macros mi)). reflexivity.
Qed.

(** *** The professional flags of the source *)

Lemma set_fresh (k : string) (v : Json) (o : Fields.t) :
  k ∉ o.*1 → Fields.arrayIndex k = None → Fields.set k v o = o ++ [(k, v)].
Proof.
  intros Hnotin Hk. unfold Fields.set. rewrite bool_decide_false by done. clear Hnotin.
  induction o as [|[k0 v0] o IH]; simpl; [done|].
  unfold Fields.before. rewrite Hk. by rewrite IH.
Qed.

Lemma generateAllProfessionalFlags_keys ability w :
  (fst (ProfessionalFlags.generateAllProfessionalFlags ability w)).*1
  = ["midi-qol"; "chris-premades"]
    ++ (if bool_decide (ParsedAbility.type ability = REACTION)
        then ["gambits-premades"] else [])
    ++ ["dae"; "automancy"]
  ∧ snd (ProfessionalFlags.generateAllProfessionalFlags ability w) = w.
Proof.
  unfold ProfessionalFlags.generateAllProfessionalFlags,
    ProfessionalFlags.generateAutomancyMetadata, bind, ret. simpl.
  split; [|done].
  unfold ProfessionalFlags.generateMidiQOLProfessionalFlags,
    ProfessionalFlags.generateChrisPremadesFlags,
    ProfessionalFlags.generateGambitsPremadesFlags,
    ProfessionalFlags.generateDAEProfessionalFlags, Fields.spread.
  cbn [foldl fst snd].
  destruct (bool_decide (ParsedAbility.type ability = REACTION)); cbn [negb foldl fst snd];
    repeat (rewrite set_fresh;
            [|cbn [fmap list_fmap fst app];
              intros Hin;
              repeat (apply elem_of_cons in Hin as [Hin|Hin]; [discriminate|]);
              by apply not_elem_of_nil in Hin
             |reflexivity];
            cbn [app]);
    reflexivity.
Qed.

(** X22: the professional flags of the source come in four categories,
    five for a reaction: midi-qol, chris-premades, gambits-premades (for a
    reaction), dae, automancy.  So with this pass the pipeline always
    gives the three points for flags, and grades the item 8 at least. *)
Theorem professional_flags_earn_full_points
    (passes : Subsystems.t) (ability : ParsedAbility.t) (item : FoundryItemData.t)
    (w : World) :
  match applyPhase2Enhancement (Phase2Spec.withProfessionalFlags passes) ability item w with
  | (Ok result, _) =>
      (Phase2EnhancementResult.professionalFlags result).*1
      = ["midi-qol"; "chris-premades"]
        ++ (if bool_decide (ParsedAbility.type ability = REACTION)
            then ["gambits-premades"] else [])
        ++ ["dae"; "automancy"]
      ∧ (8 ≤ Phase2EnhancementResult.professionalGrade result ≤ 10)%Z
  | (Throw _, _) => True
  end.
Proof.
  destruct (applyPhase2Enhancement _ ability item w) as [[result|err] w'] eqn:E; [|done].
  destruct (applyPhase2Enhancement_inv _ _ _ _ _ _ E)
    as (cs & pf & mi & rs & re & os & item' & wf & wf' & ? & Hpf & _ & ->). simpl.
  simpl in Hpf. unfold ProfessionalFlags.pass, bind, ret in Hpf.
  pose proof (generateAllProfessionalFlags_keys
                (EnhancedAbilityData.ability (parseComplexAbility ability)) wf)
    as [Hkeys _].
  destruct (ProfessionalFlags.generateAllProfessionalFlags _ wf) as [flags wf''].
  injection Hpf as <- _. simpl in Hkeys.
  change (ParsedAbility.type (EnhancedAbilityData.ability (parseComplexAbility ability)))
    with (ParsedAbility.type ability) in Hkeys.
  split; [exact Hkeys|].
  rewrite grade_of_pipeline.
  assert (4 ≤ length flags) as Hlen.
  { rewrite <-(length_fmap fst), Hkeys.
    destruct (bool_decide (ParsedAbility.type ability = REACTION)); simpl; lia. }
  pose proof (macroPoints_bounds
                (Metrics.mk (length flags) (length (MacroIntegration.macros mi)) 1 true true)).
  unfold flagPoints. cbn [Metrics.flagQuality].
  destruct (Nat.leb_spec 4 (length flags)); lia.
Qed.





(** X24: the systems applied are reported in a fixed order and at most
    once each. *)
Theorem applied_systems_come_in_fixed_order
    (conditionSystem : ConditionSystem.t) (macroIntegration : MacroIntegration.t)
    (rechargeSystem : RechargeSystem.t) (reactionSystem : ReactionSystem.t)
    (ongoingSystem : OngoingSystem.t) :
  sublist (getAppliedSystems conditionSystem macroIntegration rechargeSystem
             reactionSystem ongoingSystem)
    [ "condition-engine"; "macro-templates"; "recharge-automation";
      "reaction-tracking"; "ongoing-effects" ].
Proof.
  unfold getAppliedSystems.
  repeat match goal with |- context [if ?b then _ else _] => destruct b end; simpl;
    repeat first [ apply sublist_nil | apply sublist_skip | apply sublist_cons ].
Qed.

End EnhancementProperties.

(** ** Merging flag bundles *)

Module MergeFacts.

Import Phase2Converter HostFacts MergeSpec.

Lemma mergeInto_nil result : mergeInto (JObj []) result = Ok result.
Proof. reflexivity. Qed.

Lemma mergeInto_cons key sourceValue l result :
  mergeInto (JObj ((key, sourceValue) :: l)) result
  = match Fields.get key result, sourceValue with
    | JObj existing, JObj [] => mergeInto (JObj l) result
    | JObj existing, JObj (_ :: _) =>
        let? start := mergeIntoEmpty existing [] in
        let? merged := mergeInto sourceValue start in
        mergeInto (JObj l) (Fields.set key (JObj merged) result)
    | _, JUndefined => mergeInto (JObj l) result
    | _, JNull => Throw (ErrorObj "Cannot convert undefined or null to object")
    | _, JObj [] => mergeInto (JObj l) result
    | _, _ => mergeInto (JObj l) (Fields.set key sourceValue result)
    end.
Proof.
  destruct (Fields.get key result) eqn:G, sourceValue as [| | | | | | | | |[|field src]|];
    simpl; rewrite G; reflexivity.
Qed.

#[local] Arguments mergeInto : simpl never.

(** Keys the source does not mention are left alone. *)
Lemma mergeInto_other k : ∀ b result r,
  mergeInto (JObj b) result = Ok r → k ∉ b.*1 → Fields.get k r = Fields.get k result.
Proof.
  induction b as [|[key sourceValue] b IH]; intros result r.
  - rewrite mergeInto_nil. by intros [= <-].
  - rewrite mergeInto_cons, fmap_cons, not_elem_of_cons. simpl.
    intros H [Hne Hnotin].
    destruct (Fields.get key result) as [| | | | | | | | |existing|] eqn:G;
      destruct sourceValue as [| | | | | | | | |[|field src]|]; try discriminate H;
      try (rewrite (IH _ _ H Hnotin), ?get_set_ne by done; done).
    destruct (mergeIntoEmpty existing []) as [start|]; simpl in H; [|discriminate].
    destruct (mergeInto _ start) as [merged|]; simpl in H; [|discriminate].
    rewrite (IH _ _ H Hnotin), get_set_ne by done. done.
Qed.

(** What the merge leaves under a key the source mentions once. *)
Lemma mergeInto_entry : ∀ b result r,
  mergeInto (JObj b) result = Ok r → NoDup b.*1 →
  ∀ k v, (k, v) ∈ b →
    match v with
    | JUndefined | JObj [] => Fields.get k r = Fields.get k result
    | JNull => False
    | JObj (_ :: _) =>
        match Fields.get k result with
        | JObj existing =>
            ∃ start merged,
              mergeIntoEmpty existing [] = Ok start
              ∧ mergeInto v start = Ok merged
              ∧ Fields.get k r = JObj merged
        | _ => Fields.get k r = v
        end
    | _ => Fields.get k r = v
    end.
Proof.
  induction b as [|[key sourceValue] b IH]; intros result r H Hnd k v Hin;
    [by apply not_elem_of_nil in Hin|].
  rewrite fmap_cons in Hnd. apply NoDup_cons in Hnd as [Hkey Hnd]. simpl in Hkey.
  rewrite mergeInto_cons in H.
  apply elem_of_cons in Hin as [[= -> ->]|Hin].
  - destruct (Fields.get key result) as [| | | | | | | | |existing|] eqn:G;
      destruct sourceValue as [| | | | | | | | |[|field src]|]; try discriminate H;
      try (rewrite (mergeInto_other key _ _ _ H Hkey), ?get_set_eq; done).
    destruct (mergeIntoEmpty existing []) as [start|]; simpl in H; [|discriminate].
    destruct (mergeInto _ start) as [merged|] eqn:M; simpl in H; [|discriminate].
    exists start, merged. split_and!; [done | done |].
    by rewrite (mergeInto_other key _ _ _ H Hkey), get_set_eq.
  - assert (k ≠ key) as Hne.
    { intros ->. apply Hkey. by apply (list_elem_of_fmap_2 fst) in Hin. }
    assert (∀ x, Fields.get k (Fields.set key x result) = Fields.get k result) as Hset.
    { intros x. by rewrite get_set_ne. }
    destruct (Fields.get key result) as [| | | | | | | | |existing|] eqn:G;
      destruct sourceValue as [| | | | | | | | |[|field src]|]; try discriminate H;
      try (specialize (IH _ _ H Hnd k v Hin); rewrite ?Hset in IH; exact IH).
    destruct (mergeIntoEmpty existing []) as [start|]; simpl in H; [|discriminate].
    destruct (mergeInto _ start) as [merged|] eqn:M; simpl in H; [|discriminate].
    specialize (IH _ _ H Hnd k v Hin). rewrite ?Hset in IH. exact IH.
Qed.

(** The first pass of a merge is the merge into the empty object. *)
Lemma mergeInto_first_pass : ∀ l result,
  NoDup l.*1 → (∀ k, k ∈ l.*1 → Fields.get k result = JUndefined) →
  mergeInto (JObj l) result = mergeIntoEmpty l result.
Proof.
  induction l as [|[key sourceValue] l IH]; intros result Hnd Hfresh; [done|].
  rewrite fmap_cons in Hnd. apply NoDup_cons in Hnd as [Hkey Hnd]. simpl in Hkey.
  rewrite mergeInto_cons. simpl.
  rewrite (Hfresh key) by (rewrite fmap_cons; left).
  assert (∀ k, k ∈ l.*1 → Fields.get k result = JUndefined) as Hfresh'.
  { intros k Hk. apply Hfresh. rewrite fmap_cons. by right. }
  assert (∀ x k, k ∈ l.*1 → Fields.get k (Fields.set key x result) = JUndefined)
    as Hafter.
  { intros x k Hk. rewrite get_set_ne; [by apply Hfresh'|]. by intros ->. }
  destruct sourceValue as [| | | | | | | | |[|field src]|]; try done; apply IH; auto.
Qed.

Lemma mergeSources_app : ∀ l1 l2 result,
  mergeSources (l1 ++ l2) result
  = let? r1 := mergeSources l1 result in mergeSources l2 r1.
Proof.
  induction l1 as [|[source|] l1 IH]; intros l2 result; simpl; [done | | apply IH].
  destruct (mergeInto (JObj source) result); simpl; [apply IH | done].
Qed.

End MergeFacts.

Module MergeProperties.

Import Phase2Converter HostFacts MergeSpec MergeFacts.

#[local] Arguments mergeInto : simpl never.

(** X25: how flag bundles merge.  Merging one more bundle after others
    leaves alone every key the bundle does not mention, and every key it
    holds with [undefined] or an empty object; a plain value (a boolean, a
    number, a string, an array, a function) replaces what was there; a
    non-empty object is merged, field by field, into the object that was
    there, and replaces anything else. *)
Theorem later_flags_override
    (sources : list (option Fields.t)) (bundle r : Fields.t) :
  deepMergeFlags (sources ++ [Some bundle]) = Ok r →
  NoDup bundle.*1 →
  ∃ before,
    deepMergeFlags sources = Ok before
    ∧ (∀ k, k ∉ bundle.*1 → Fields.get k r = Fields.get k before)
    ∧ (∀ k v, (k, v) ∈ bundle → v = JUndefined ∨ v = JObj [] →
              Fields.get k r = Fields.get k before)
    ∧ (∀ k v, (k, v) ∈ bundle → plain v → Fields.get k r = v)
    ∧ (∀ k field fields existing,
         (k, JObj (field :: fields)) ∈ bundle →
         Fields.get k before = JObj existing → NoDup existing.*1 →
         ∃ merged,
           deepMergeFlags [Some existing; Some (field :: fields)] = Ok merged
           ∧ Fields.get k r = JObj merged)
    ∧ (∀ k field fields,
         (k, JObj (field :: fields)) ∈ bundle →
         (∀ existing, Fields.get k before ≠ JObj existing) →
         Fields.get k r = JObj (field :: fields)).
Proof.
  unfold deepMergeFlags. rewrite mergeSources_app.
  destruct (mergeSources sources []) as [before|]; simpl; [|done].
  destruct (mergeInto (JObj bundle) before) as [r'|] eqn:E; simpl; [|done].
  intros [= ->] Hnd. exists before. split; [done|].
  split_and!.
  - intros k Hk. by eapply mergeInto_other.
  - intros k v Hin Hv.
    pose proof (mergeInto_entry _ _ _ E Hnd k v Hin) as H.
    by destruct Hv as [-> | ->].
  - intros k v Hin Hv.
    pose proof (mergeInto_entry _ _ _ E Hnd k v Hin) as H.
    destruct v as [| | | | | | | | |[|]|]; done.
  - intros k field fields existing Hin Hget Hex.
    pose proof (mergeInto_entry _ _ _ E Hnd k _ Hin) as H. simpl in H.
    rewrite Hget in H. destruct H as (start & merged & Hstart & Hmerged & Hr).
    exists merged. split; [|done]. simpl.
    rewrite mergeInto_first_pass; [|done|done]. rewrite Hstart. simpl.
    by rewrite Hmerged.
  - intros k field fields Hin Hnot.
    pose proof (mergeInto_entry _ _ _ E Hnd k _ Hin) as H. simpl in H.
    destruct (Fields.get k before); try done. by destruct (Hnot fields0).
Qed.

Lemma later_flags_override_witness :
  ∃ before,
    deepMergeFlags [Some [("midi-qol", JObj [("effectActivation", JBool true)])]]
    = Ok before
    ∧ (∀ k, k ∉ [("midi-qol", JObj [("effectActivation", JBool false)]);
                  ("dae", JObj [])].*1 →
            Fields.get k [("midi-qol", JObj [("effectActivation", JBool false)])]
            = Fields.get k before)
    ∧ (∀ k v, (k, v) ∈ [("midi-qol", JObj [("effectActivation", JBool false)]);
                        ("dae", JObj [])] →
              v = JUndefined ∨ v = JObj [] →
              Fields.get k [("midi-qol", JObj [("effectActivation", JBool false)])]
              = Fields.get k before)
    ∧ (∀ k v, (k, v) ∈ [("midi-qol", JObj [("effectActivation", JBool false)]);
                        ("dae", JObj [])] →
              plain v →
              Fields.get k [("midi-qol", JObj [("effectActivation", JBool false)])] = v)
    ∧ (∀ k field fields existing,
         (k, JObj (field :: fields))
         ∈ [("midi-qol", JObj [("effectActivation", JBool false)]); ("dae", JObj [])] →
         Fields.get k before = JObj existing → NoDup existing.*1 →
         ∃ merged,
           deepMergeFlags [Some existing; Some (field :: fields)] = Ok merged
           ∧ Fields.get k [("midi-qol", JObj [("effectActivation", JBool false)])]
             = JObj merged)
    ∧ (∀ k field fields,
         (k, JObj (field :: fields))
         ∈ [("midi-qol", JObj [("effectActivation", JBool false)]); ("dae", JObj [])] →
         (∀ existing, Fields.get k before ≠ JObj existing) →
         Fields.get k [("midi-qol", JObj [("effectActivation", JBool false)])]
         = JObj (field :: fields)).
Proof.
  refine (later_flags_override
            [Some [("midi-qol", JObj [("effectActivation", JBool true)])]]
            [("midi-qol", JObj [("effectActivation", JBool false)]); ("dae", JObj [])]
            [("midi-qol", JObj [("effectActivation", JBool false)])] eq_refl _).
  apply (bool_decide_unpack _). reflexivity.
Defined.

End MergeProperties.

(** ** Batch files *)

Module BatchFacts.

Import HostFacts BatchSpec AutomancyCLI.

Lemma trim_dropSpaces (s : string) :
  trim s = str (reverse (dropSpaces (reverse (dropSpaces (chars s))))).
Proof. reflexivity. Qed.

Lemma dropSpaces_head (l : list ascii) :
  match dropSpaces l with
  | [] => forallb isSpace l = true
  | c :: _ => isSpace c = false
  end.
Proof.
  induction l as [|c l IH]; simpl; [done|].
  destruct (isSpace c) eqn:E; simpl; [exact IH | exact E].
Qed.

Lemma dropSpaces_app_last (l : list ascii) (c : ascii) :
  isSpace c = false → dropSpaces (l ++ [c]) = dropSpaces l ++ [c].
Proof.
  intros Hc. induction l as [|x l IH]; simpl; [by rewrite Hc|].
  by destruct (isSpace x).
Qed.

(** A trimmed text is empty, the text then being blank, or starts with a
    character that is no whitespace. *)
Lemma trim_head (s : string) :
  match chars (trim s) with
  | [] => blank s = true
  | c :: _ => isSpace c = false
  end.
Proof.
  rewrite trim_dropSpaces, chars_str. unfold blank.
  pose proof (dropSpaces_head (chars s)) as H.
  destruct (dropSpaces (chars s)) as [|c rest]; [exact H|].
  rewrite reverse_cons, dropSpaces_app_last by done.
  rewrite reverse_app. simpl. exact H.
Qed.

Lemma blank_empty (s : string) : s = "" → blank s = true.
Proof. by intros ->. Qed.

Lemma trim_blank (s : string) : blank s = false → blank (trim s) = false.
Proof.
  intros Hs. pose proof (trim_head s) as H. unfold blank at 1.
  destruct (chars (trim s)) as [|c rest]; [congruence|].
  simpl. by rewrite H.
Qed.

Lemma trim_not_blank (s : string) : trim s ≠ "" → blank (trim s) = false.
Proof.
  intros Hs. pose proof (trim_head s) as H. unfold blank.
  destruct (chars (trim s)) as [|c rest] eqn:E.
  - destruct Hs. by rewrite <-(str_chars (trim s)), E.
  - simpl. by rewrite H.
Qed.

Lemma blank_append (a b : string) : blank (a +:+ b) = blank a && blank b.
Proof. unfold blank. by rewrite chars_append, forallb_app. Qed.

Lemma trim_of_blank (s : string) : blank s = true → trim s = "".
Proof.
  unfold blank. intros H. rewrite trim_dropSpaces.
  assert (dropSpaces (chars s) = []) as ->; [|done].
  induction (chars s) as [|c l IH]; simpl in *; [done|].
  apply andb_true_iff in H as [-> H]. auto.
Qed.

(** The entries read so far, and the text being gathered. *)
Lemma readLines_sound : ∀ lines abilities currentAbility currentName,
  Forall wellRead abilities →
  (currentAbility = "" ∨ blank currentAbility = false) →
  Forall wellRead (fst (fst (readLines lines abilities currentAbility currentName)))
  ∧ (snd (fst (readLines lines abilities currentAbility currentName)) = ""
     ∨ blank (snd (fst (readLines lines abilities currentAbility currentName))) = false).
Proof.
  induction lines as [|line lines IH]; intros abilities cur name Hall Hcur; [done|].
  cbn [readLines]. cbv zeta.
  destruct (bool_decide (trim line = "") && negb (bool_decide (cur = ""))) eqn:E1.
  - apply IH; [|by left].
    apply Forall_app. split; [done|]. constructor; [|done].
    apply andb_true_iff in E1 as [_ Hne]. apply negb_true_iff, bool_decide_eq_false in Hne.
    destruct Hcur as [->|Hcur]; [done|].
    split; simpl.
    + by apply trim_blank.
    + by destruct (bool_decide (name = "")) eqn:N; [|apply bool_decide_eq_false in N;
                                                       intros [= ->]].
  - destruct (startsWith (trim line) "# "); [by apply IH|].
    destruct (negb (bool_decide (trim line = "")) && negb (startsWith (trim line) "#"))
      eqn:E3; [|by apply IH].
    apply IH; [done|]. right.
    apply andb_true_iff in E3 as [Hne _].
    apply negb_true_iff, bool_decide_eq_false in Hne.
    rewrite !blank_append, (trim_not_blank line Hne). by rewrite !andb_false_r.
Qed.

Lemma readLines_idle : ∀ lines currentName,
  Forall (λ line, blank line = true ∨ startsWith (trim line) "#" = true) lines →
  ∃ name, readLines lines [] "" currentName = ([], "", name).
Proof.
  induction lines as [|line lines IH]; intros name Hall; [by eexists|].
  apply Forall_cons in Hall as [Hline Hall].
  cbn [readLines]. cbv zeta.
  rewrite (bool_decide_true ("" = "")) by done. rewrite andb_false_r.
  destruct (startsWith (trim line) "# "); [by apply IH|].
  destruct Hline as [Hblank|Hcomment].
  - rewrite (trim_of_blank line Hblank). simpl. by apply IH.
  - rewrite Hcomment. simpl. rewrite andb_false_r. by apply IH.
Qed.

End BatchFacts.

Module BatchProperties.

Import HostFacts BatchSpec AutomancyCLI BatchFacts.

(** X26: what a batch file yields.  No entry has a blank text, and no entry
    has an empty name; a file of blank lines and comment lines (lines that
    start with [#]) yields no entry at all. *)
Theorem batch_entries_are_not_blank (content : string) :
  Forall wellRead (parseInputFile content)
  ∧ (Forall (λ line, blank line = true ∨ startsWith (trim line) "#" = true)
       (split content "010") →
     parseInputFile content = []).
Proof.
  unfold parseInputFile. split.
  - pose proof (readLines_sound (split content "010") [] "" ""
                  (Forall_nil_2 _) (or_introl eq_refl)) as [Hall Hcur].
    destruct (readLines (split content "010") [] "" "") as [[abilities cur] name].
    simpl in *.
    destruct (bool_decide (cur = "")) eqn:E; simpl; [done|].
    apply bool_decide_eq_false in E. destruct Hcur as [->|Hcur]; [done|].
    apply Forall_app. split; [done|]. constructor; [|done].
    split; simpl.
    + by apply trim_blank.
    + by destruct (bool_decide (name = "")) eqn:N; [|apply bool_decide_eq_false in N;
                                                       intros [= ->]].
  - intros Hidle. destruct (readLines_idle _ "" Hidle) as [name ->]. done.
Qed.

End BatchProperties.

(** ** What the analysis reads, and the item a conversion delivers *)

Module ReadingProperties.

Import RegExp RegExpSpec RegExpFacts PatternMatcher PatternMatcherSpec PatternMatcherFacts.
Import RegistryFacts MatcherFacts TextAnalyzer AnalyzerSpec AnalyzerFacts HostFacts.

(** The entries the map holds under the name of a registered pattern come
    from that pattern's extractor. *)
Lemma entries_of_registered text results warnings p entries e :
  p ∈ registered →
  extractPatterns text = Some (Ok (results, warnings)) →
  results !! name p = Some entries → e ∈ entries →
  ∃ m, extractor p m = Ok (extracted e).
Proof.
  intros Hp H Hk He.
  destruct (registry_lookup text results warnings p (registry_elem_of p Hp) H)
    as (all & Hall & Hl).
  rewrite Hk in Hl. destruct (0 <? length (omap (kept p) all)); [|done].
  injection Hl as ->.
  apply kept_elem_of in He as (m & _ & Hx & _). eauto.
Qed.

Lemma getOrEmpty_elem_of (patterns : Patterns) key e :
  e ∈ getOrEmpty patterns key → ∃ entries, patterns !! key = Some entries ∧ e ∈ entries.
Proof.
  unfold getOrEmpty. destruct (patterns !! key) as [entries|]; simpl; [eauto|].
  by intros ?%not_elem_of_nil.
Qed.

Lemma length_sliceTo n s : String.length (sliceTo n s) ≤ n.
Proof. unfold sliceTo. rewrite length_str, length_take. lia. Qed.

Lemma extractDamage_Forall (P : DamageData.t → Prop) (patterns : Patterns) :
  (∀ e, e ∈ getOrEmpty patterns "damage_with_average" → P (toDamage e)) →
  (∀ e, e ∈ getOrEmpty patterns "damage_simple" → P (toDamage e)) →
  Forall P (extractDamage patterns).
Proof.
  intros Ha Hs. unfold extractDamage.
  assert (Forall P (toDamage <$> getOrEmpty patterns "damage_with_average")) as Hstart.
  { apply Forall_fmap, Forall_forall. exact Ha. }
  revert Hstart. generalize (toDamage <$> getOrEmpty patterns "damage_with_average").
  revert Hs. generalize (getOrEmpty patterns "damage_simple").
  induction l as [|d l IH]; intros Hs damage Hdamage; simpl; [done|].
  apply IH.
  - intros e He. apply Hs. by right.
  - destruct (negb _); [|done]. apply Forall_app. split; [done|].
    constructor; [|done]. apply Hs. left.
Qed.

(** X27: the saves and the damage the analysis reads are well formed.
    Every save has a DC, the flat scaling and an ability code of at most
    three characters; every damage entry has a formula without whitespace
    and is unconditional. *)
Theorem saves_and_damage_are_well_formed (text : string) (name : option string) :
  ∃ d, analyzeText text name = Some (Ok d)
    ∧ Forall (λ save, is_Some (SaveData.dc save)
                      ∧ SaveData.scaling save = "flat"
                      ∧ String.length (SaveData.ability save) ≤ 3)
        (ParsedAbility.saves (AbilityDescription.parsed d))
    ∧ Forall (λ damage, Forall (λ c, isSpace c = false)
                          (chars (DamageData.formula damage))
                        ∧ DamageData.conditional damage = false)
        (ParsedAbility.damage (AbilityDescription.parsed d)).
Proof.
  destruct (analyzeText_returns text name)
    as (results & warnings & ? & ? & ? & ? & ? & ? & ? & ?
        & H & _ & _ & _ & _ & _ & _ & _ & _ & E).
  eexists. split; [exact E|]. simpl. split.
  - unfold extractSaves. apply Forall_fmap, Forall_forall.
    intros e (entries & Hk & He)%getOrEmpty_elem_of. simpl.
    destruct (entries_of_registered text results warnings save_dc entries e)
      as [m Hm]; [is_registered | done | done | done |].
    simpl in Hm. destruct (grp m 2) as [ability|]; simpl in Hm; [|done].
    injection Hm as Hm. unfold Fact.dc, Fact.ability. rewrite <-Hm.
    split_and!; [done | done | apply length_sliceTo].
  - apply extractDamage_Forall.
    + intros e (entries & Hk & He)%getOrEmpty_elem_of.
      destruct (entries_of_registered text results warnings damage_with_average entries e)
        as [m Hm]; [is_registered | done | done | done |].
      simpl in Hm. destruct (grp m 2) as [formula|]; simpl in Hm; [|done].
      destruct (grp m 3) as [type|]; simpl in Hm; [|done].
      injection Hm as Hm. unfold toDamage, Fact.formula. rewrite <-Hm. simpl.
      split; [apply SynthesisProperties.removeWhitespace_clean | done].
    + intros e (entries & Hk & He)%getOrEmpty_elem_of.
      destruct (entries_of_registered text results warnings damage_simple entries e)
        as [m Hm]; [is_registered | done | done | done |].
      simpl in Hm. destruct (grp m 1) as [formula|]; simpl in Hm; [|done].
      destruct (grp m 2) as [type|]; simpl in Hm; [|done].
      injection Hm as Hm. unfold toDamage, Fact.formula. rewrite <-Hm. simpl.
      split; [apply SynthesisProperties.removeWhitespace_clean | done].
Qed.

End ReadingProperties.

Module DeliveryProperties.

Import RegExp PatternMatcher TextAnalyzer AnalyzerSpec AnalyzerFacts HostFacts.
Import EffectGenerator FlagGenerator RuleEngine RuleEngineSpec RuleEngineFacts.
Import SynthesisFacts ComplexAbilityParser Phase2Converter EnhancementFacts.

Lemma integrateAllSystems_identity baseItem cs pf mi rs re os w enhanced w' :
  integrateAllSystems baseItem cs pf mi rs re os w = (Ok enhanced, w') →
  FoundryItemData._id enhanced = FoundryItemData._id baseItem
  ∧ FoundryItemData.name enhanced = FoundryItemData.name baseItem
  ∧ FoundryItemData.type enhanced = FoundryItemData.type baseItem.
Proof.
  unfold integrateAllSystems.
  destruct (deepMergeFlags _) as [flags|err]; simpl; [|done].
  by intros [= <- _].
Qed.

(** X28: the item a conversion delivers is the item of the base
    automation by its identity: it has the same sixteen-character
    identifier, enhanced or not; it bears the name of the parsed ability;
    and it is a weapon exactly when the text has a weapon attack line, a
    feat otherwise. *)
Theorem delivered_item_is_the_base_item
    (passes : Subsystems.t) (text : string) (w : World) :
  ∃ r w' parsed automation item,
    convertAbility passes text w = Some (r, w')
    ∧ EnhancedConversionResult.parsedAbility r = Some parsed
    ∧ EnhancedConversionResult.automation r = Some automation
    ∧ EnhancedConversionResult.foundryItem r = Some item
    ∧ FoundryItemData._id item = FoundryItemData._id (AutomationResult.item automation)
    ∧ String.length (FoundryItemData._id item) = 16
    ∧ FoundryItemData.name item = ParsedAbility.name parsed
    ∧ FoundryItemData.type item
      = if hasPattern text "weapon_attack" then "weapon" else "feat".
Proof.
  destruct (analyzeText_returns text None)
    as (results & warnings & ? & ? & ? & ? & ? & ? & ? & complexity
        & H & _ & _ & _ & _ & _ & _ & _ & _ & E).
  assert (has results "weapon_attack" = hasPattern text "weapon_attack") as Hw.
  { apply (has_registered text results warnings weapon_attack);
      [is_registered | intros m; eexists; reflexivity | done]. }
  unfold convertAbility, baseConversion. rewrite E.
  match goal with
  | |- context [generateAutomation ?a w] =>
      set (parsed := a) in *;
      destruct (generateAutomation_assemble parsed w)
        as (ids & w1 & fromEffects & w2 & itemId & w3 & _ & _ & Hid & Hassemble);
      destruct (generateAutomation_returns parsed w) as (result & w' & Hgen)
  end; [apply extractConditions_rollTargets|].
  assert (FoundryItemData._id (AutomationResult.item result) = itemId
          ∧ FoundryItemData.name (AutomationResult.item result) = ParsedAbility.name parsed
          ∧ FoundryItemData.type (AutomationResult.item result)
            = determineItemType (ParsedAbility.type parsed)) as (Hi & Hn & Ht).
  { rewrite Hgen in Hassemble. injection Hassemble as Hr _. symmetry in Hr.
    unfold assemble in Hr.
    destruct (generateSystemData _ _ _); simpl in Hr; [|discriminate].
    destruct (generateFlags _); simpl in Hr; [|discriminate].
    by injection Hr as <-. }
  assert (String.length itemId = 16) as Hlen.
  { pose proof (generateFoundryId_length w2) as Hl. by rewrite Hid in Hl. }
  assert (determineItemType (ParsedAbility.type parsed)
          = if hasPattern text "weapon_attack" then "weapon" else "feat") as Htype.
  { subst parsed. simpl. unfold determineAbilityType. rewrite Hw.
    destruct (hasPattern text "weapon_attack"); [done|].
    repeat match goal with |- context [if ?b then _ else _] => destruct b end; done. }
  clearbody parsed. rewrite Hgen. cbv zeta. simpl.
  destruct (applyPhase2Enhancement passes parsed (baseFoundryItem result) w')
    as [[enhanced|err] w''] eqn:Ea; simpl.
  - destruct (applyPhase2Enhancement_inv _ _ _ _ _ _ Ea)
      as (cs & pf & mi & rs & re & os & item' & ? & ? & ? & _ & Hint & ->). simpl.
    apply integrateAllSystems_identity in Hint as (H1 & H2 & H3). simpl in H1, H2, H3.
    eexists _, _, parsed, result, item'.
    split_and!; try reflexivity; congruence.
  - eexists _, _, parsed, result, (baseFoundryItem result).
    split_and!; try reflexivity; simpl; congruence.
Qed.

End DeliveryProperties.
